(** * NeonMoon-infoBot: the streaming relay, the response chunker, the
      reminder scheduler, the key/value commands and the chat calls,
      embedded from the JavaScript sources.

    Text.  A JavaScript string is a sequence of UTF-16 code units and every
    string primitive used by the sources ([length], [slice], [indexOf],
    [lastIndexOf], [startsWith], [split], [trim], [join]) works code unit by
    code unit.  A string is modelled by [String.string], one [ascii] per code
    unit; code units above 255 are not represented.

    Indices are [Z], as the sources compare them with [-1] and pass them to
    [slice], whose negative arguments count from the end. *)

From Stdlib Require Import ZArith Ascii String.
From stdpp Require Import base list gmap strings sorting.

Local Open Scope Z_scope.

(** ** JavaScript string primitives *)

Module Js.

Definition LF : ascii := ascii_of_nat 10.
Definition CR : ascii := ascii_of_nat 13.
Definition SP : ascii := ascii_of_nat 32.

Definition len (s : string) : Z := Z.of_nat (String.length s).

Fixpoint take (n : nat) (s : string) : string :=
  match n, s with
  | S n', String c s' => String c (take n' s')
  | _, _ => EmptyString
  end.

Fixpoint drop (n : nat) (s : string) : string :=
  match n, s with
  | S n', String _ s' => drop n' s'
  | _, _ => s
  end.

(** The relative index of [String.prototype.slice]: a negative argument
    counts from the end, and the result is clamped to [0, len]. *)
Definition rel_index (l k : Z) : Z :=
  if k <? 0 then Z.max (l + k) 0 else Z.min k l.

(** [s.slice(a, b)] *)
Definition slice (s : string) (a b : Z) : string :=
  let from := rel_index (len s) a in
  let to := rel_index (len s) b in
  take (Z.to_nat (to - from)) (drop (Z.to_nat from) s).

(** [s.slice(a)] *)
Definition slice_from (s : string) (a : Z) : string :=
  drop (Z.to_nat (rel_index (len s) a)) s.

(** [s.startsWith(p)] *)
Definition startsWith (s p : string) : bool := String.prefix p s.

Fixpoint indexOf_at (p s : string) (i : Z) : Z :=
  if String.prefix p s then i
  else match s with
       | EmptyString => -1
       | String _ s' => indexOf_at p s' (i + 1)
       end.

(** [s.indexOf(p)]: the first position where [p] occurs, or [-1]. *)
Definition indexOf (s p : string) : Z := indexOf_at p s 0.

Fixpoint lastIndexOf_at (p s : string) (i bound best : Z) : Z :=
  let best' := if (i <=? bound) && String.prefix p s then i else best in
  match s with
  | EmptyString => best'
  | String _ s' => lastIndexOf_at p s' (i + 1) bound best'
  end.

(** [s.lastIndexOf(p, from)]: the last position at or before [from] where
    [p] occurs, or [-1]; a negative [from] is clamped to [0]. *)
Definition lastIndexOf (s p : string) (from : Z) : Z :=
  lastIndexOf_at p s 0 (Z.max from 0) (-1).

(** White space and line terminators removed by [trim], among the code
    units below 256: TAB, LF, VT, FF, CR, SPACE and NBSP. *)
Definition is_space (c : ascii) : bool :=
  let n := nat_of_ascii c in
  ((9 <=? n)%nat && (n <=? 13)%nat) || (n =? 32)%nat || (n =? 160)%nat.

Fixpoint trimStart (s : string) : string :=
  match s with
  | String c s' => if is_space c then trimStart s' else s
  | EmptyString => EmptyString
  end.

Fixpoint trimEnd (s : string) : string :=
  match s with
  | EmptyString => EmptyString
  | String c s' =>
      match trimEnd s' with
      | EmptyString => if is_space c then EmptyString else String c EmptyString
      | t => String c t
      end
  end.

Definition trim (s : string) : string := trimEnd (trimStart s).

(** [ls.join(sep)] *)
Definition join (sep : string) (ls : list string) : string := String.concat sep ls.

Definition cons_head (c : ascii) (ls : list string) : list string :=
  match ls with
  | [] => [String c EmptyString]
  | l :: ls' => String c l :: ls'
  end.

(** [s.split(/\r?\n/)]: a line ends at each LF, and a CR right before that
    LF belongs to the separator. *)
Fixpoint split_lines (s : string) : list string :=
  match s with
  | EmptyString => [EmptyString]
  | String c s' =>
      if Ascii.eqb c LF then EmptyString :: split_lines s'
      else match s' with
           | String c' s'' =>
               if Ascii.eqb c CR && Ascii.eqb c' LF
               then EmptyString :: split_lines s''
               else cons_head c (split_lines s')
           | EmptyString => cons_head c (split_lines s')
           end
  end.

Fixpoint skip_LF (s : string) : string :=
  match s with
  | String c s' => if Ascii.eqb c LF then skip_LF s' else s
  | EmptyString => EmptyString
  end.

(** [s.split(/\n{2,}/)]: a piece ends at each maximal run of two or more
    LF. The run is skipped by [skip_LF], whose result is a suffix of the
    argument, hence the fuel (the length of the text suffices). *)
Fixpoint split_paragraphs_fuel (fuel : nat) (s : string) : list string :=
  match fuel with
  | O => [s]
  | S fuel' =>
      match s with
      | EmptyString => [EmptyString]
      | String c s' =>
          match s' with
          | String c' s'' =>
              if Ascii.eqb c LF && Ascii.eqb c' LF
              then EmptyString :: split_paragraphs_fuel fuel' (skip_LF s'')
              else cons_head c (split_paragraphs_fuel fuel' s')
          | EmptyString => cons_head c (split_paragraphs_fuel fuel' s')
          end
      end
  end.

Definition split_paragraphs (s : string) : list string :=
  split_paragraphs_fuel (S (String.length s)) s.

(** [s[s.length - 1]], the last code unit of a string that has one *)
Fixpoint last_char (s : string) : option ascii :=
  match s with
  | EmptyString => None
  | String c EmptyString => Some c
  | String _ s' => last_char s'
  end.

(** Whether the code unit [c] occurs in [s] *)
Fixpoint includes_char (c : ascii) (s : string) : bool :=
  match s with
  | EmptyString => false
  | String c' s' => Ascii.eqb c' c || includes_char c s'
  end.

(** [c.repeat(n)] *)
Fixpoint replicate (n : nat) (c : ascii) : string :=
  match n with
  | O => EmptyString
  | S n' => String c (replicate n' c)
  end.

(** The first code unit of [p] is white space. *)
Definition starts_with_space (p : string) : Prop :=
  ∃ c p', p = String c p' ∧ is_space c = true.

(** A string is truthy when it is not empty. *)
Definition truthy (s : string) : bool :=
  match s with EmptyString => false | _ => true end.

(** [s.split(/\s+/)]: a piece ends at each maximal run of white space;
    [in_run] tells that the code unit before was white space. *)
Fixpoint split_spaces_from (in_run : bool) (s : string) : list string :=
  match s with
  | EmptyString => [EmptyString]
  | String c s' =>
      if is_space c then
        if in_run then split_spaces_from true s'
        else EmptyString :: split_spaces_from true s'
      else cons_head c (split_spaces_from false s')
  end.

Definition split_spaces (s : string) : list string := split_spaces_from false s.

(** The code units of [s] that are not white space, in their order *)
Fixpoint non_spaces (s : string) : string :=
  match s with
  | EmptyString => EmptyString
  | String c s' => if is_space c then non_spaces s' else String c (non_spaces s')
  end.

(** A line of text: it holds no LF and no CR. *)
Definition plain_line (l : string) : Prop :=
  includes_char LF l = false ∧ includes_char CR l = false.

(** Whether a white space code unit occurs in [s] *)
Fixpoint has_space (s : string) : bool :=
  match s with
  | EmptyString => false
  | String c s' => is_space c || has_space s'
  end.

(** A word: a string that is not empty and holds no white space *)
Definition is_word (w : string) : Prop := truthy w = true ∧ has_space w = false.

End Js.

(** ** The streaming relay: [lunaChatStream] *)

(** What a consumer observes of the async generator: the fragments it
    yields, in order, and how it completes. *)
Inductive relay_error :=
  | UpstreamError (status : Z) (body : string)
  | StreamError (msg : string).

Inductive completion :=
  | Finished
  | Threw (e : relay_error).

Record run := Run { fragments : list string; outcome : completion }.

(** How one pass of the inner [while] loop over the buffer ends. *)
Inductive signal :=
  | Next (buf : string)
  | Return
  | Throw (e : relay_error).

(** The HTTP response the generator reads: [res.ok], [res.status], the text
    of an error body, and the decoded chunks that [reader.read()] delivers
    before it reports [done]. *)
Record response := Response {
  ok : bool;
  status : Z;
  body_text : string;
  chunks : list string
}.

Definition LFLF : string := String Js.LF (String Js.LF EmptyString).
Definition LF1 : string := String Js.LF EmptyString.

Module Frame.

(** The body of [for (const rawLine of frame.split(/\r?\n/))], with the
    variables [event] and [datas] as the state. *)
Definition parse_line (st : string * list string) (rawLine : string)
  : string * list string :=
  let '(event, datas) := st in
  if Js.startsWith rawLine "event:" then (Js.trim (Js.slice_from rawLine 6), datas)
  else if Js.startsWith rawLine "data:" then
    let payload := Js.slice_from rawLine 5 in
    let payload := if Js.startsWith payload " " then Js.slice_from payload 1 else payload in
    (event, datas ++ [payload])
  else st.

(** The frame's event kind and [datas.join('\n')]. *)
Definition parse (frame : string) : string * string :=
  let '(event, datas) := foldl parse_line ("message", []) (Js.split_lines frame) in
  (event, Js.join LF1 datas).

End Frame.

(** src/llm/lunacore.js *)
Module Lunacore.

Definition FALLBACK : string :=
  "I'm having trouble connecting to the main server, can someone help me ping Skeath?".

(** [while ((sep = buf.indexOf('\n\n')) !== -1) { ... }] *)
Fixpoint drain (fuel : nat) (buf : string) : option (list string * signal) :=
  match fuel with
  | O => None
  | S fuel' =>
      let sep := Js.indexOf buf LFLF in
      if sep =? -1 then Some ([], Next buf)
      else
        let frame := Js.slice buf 0 sep in
        let buf := Js.slice_from buf (sep + 2) in
        let '(event, payload) := Frame.parse frame in
        let on_error := if String.eqb event "error" then [FALLBACK] else [] in
        if String.eqb event "done" then Some (on_error, Return)
        else
          let on_payload := if Js.truthy payload then [payload] else [] in
          match drain fuel' buf with
          | Some (ys, sg) => Some (on_error ++ on_payload ++ ys, sg)
          | None => None
          end
  end.

(** [while (true) { read; if (done) break; buf += chunk; drain }] *)
Fixpoint pump (buf : string) (cs : list string) : option run :=
  match cs with
  | [] => Some (Run [] Finished)
  | c :: cs' =>
      let buf := buf +:+ c in
      match drain (S (String.length buf)) buf with
      | None => None
      | Some (ys, Next buf') =>
          match pump buf' cs' with
          | Some r => Some (Run (ys ++ fragments r) (outcome r))
          | None => None
          end
      | Some (ys, Return) => Some (Run ys Finished)
      | Some (ys, Throw e) => Some (Run ys (Threw e))
      end
  end.

Definition lunaChatStream (res : response) : option run :=
  if negb (ok res) then Some (Run [] (Threw (UpstreamError (status res) (body_text res))))
  else pump EmptyString (chunks res).

End Lunacore.

(** src/unnamed/part_000: the same generator, where an error frame throws *)
Module Part000.

Definition error_message (payload : string) : string :=
  if Js.truthy payload then payload else "stream error".

Fixpoint drain (fuel : nat) (buf : string) : option (list string * signal) :=
  match fuel with
  | O => None
  | S fuel' =>
      let sep := Js.indexOf buf LFLF in
      if sep =? -1 then Some ([], Next buf)
      else
        let frame := Js.slice buf 0 sep in
        let buf := Js.slice_from buf (sep + 2) in
        let '(event, payload) := Frame.parse frame in
        if String.eqb event "error" then Some ([], Throw (StreamError (error_message payload)))
        else if String.eqb event "done" then Some ([], Return)
        else
          let on_payload := if Js.truthy payload then [payload] else [] in
          match drain fuel' buf with
          | Some (ys, sg) => Some (on_payload ++ ys, sg)
          | None => None
          end
  end.

Fixpoint pump (buf : string) (cs : list string) : option run :=
  match cs with
  | [] => Some (Run [] Finished)
  | c :: cs' =>
      let buf := buf +:+ c in
      match drain (S (String.length buf)) buf with
      | None => None
      | Some (ys, Next buf') =>
          match pump buf' cs' with
          | Some r => Some (Run (ys ++ fragments r) (outcome r))
          | None => None
          end
      | Some (ys, Return) => Some (Run ys Finished)
      | Some (ys, Throw e) => Some (Run ys (Threw e))
      end
  end.

Definition lunaChatStream (res : response) : option run :=
  if negb (ok res) then Some (Run [] (Threw (UpstreamError (status res) (body_text res))))
  else pump EmptyString (chunks res).

End Part000.

(** ** The response chunker: [chunkDiscordMessage] *)

(** src/llm/ollama.js, the module that src/index.js imports *)
Module Ollama.

(** [while (remaining.length > maxLen) { push; cut }], then
    [if (remaining) chunks.push(remaining)]. With [maxLen <= 0] the loop of
    the source does not end on a non-empty text; the fuel then runs out. *)
Fixpoint loop (fuel : nat) (remaining : string) (maxLen : Z) : option (list string) :=
  match fuel with
  | O => None
  | S fuel' =>
      if maxLen <? Js.len remaining then
        match loop fuel' (Js.slice_from remaining maxLen) maxLen with
        | Some cs => Some (Js.slice remaining 0 maxLen :: cs)
        | None => None
        end
      else Some (if Js.truthy remaining then [remaining] else [])
  end.

Definition chunkDiscordMessage (text : string) (maxLen : Z) : option (list string) :=
  loop (S (String.length text)) text maxLen.

End Ollama.

(** src/unnamed/part_001: the paragraph, line and word aware chunker *)
Module Part001.

(** [Math.floor(maxLen * 0.6)]. The double nearest to 0.6 lies below 0.6 by
    less than 2.3e-17, so for an integer [maxLen] from 0 to 2^50 the
    rounded product has the same floor as the exact 3 * maxLen / 5; at 1900
    both are 1140. *)
Definition min_fill (maxLen : Z) : Z := 3 * maxLen / 5.

Definition pick_cut (segment : string) (maxLen : Z) : Z :=
  let cut :=
    if 0 <=? Js.lastIndexOf segment LFLF maxLen then Js.lastIndexOf segment LFLF maxLen
    else if 0 <=? Js.lastIndexOf segment LF1 maxLen then Js.lastIndexOf segment LF1 maxLen
    else Js.lastIndexOf segment " " maxLen in
  if cut <? min_fill maxLen then maxLen else cut.

(** The helper [pushSmart]; the result is what it appends to [chunks]. *)
Fixpoint pushSmart (fuel : nat) (segment : string) (maxLen : Z) : option (list string) :=
  match fuel with
  | O => None
  | S fuel' =>
      if maxLen <? Js.len segment then
        let cut := pick_cut segment maxLen in
        match pushSmart fuel' (Js.trimStart (Js.slice_from segment cut)) maxLen with
        | Some cs => Some (Js.trimEnd (Js.slice segment 0 cut) :: cs)
        | None => None
        end
      else Some (if Js.truthy segment then [segment] else [])
  end.

(** [for (const para of String(text).split(/\n{2,}/)) pushSmart(para)] *)
Fixpoint push_all (paras : list string) (maxLen : Z) : option (list string) :=
  match paras with
  | [] => Some []
  | para :: rest =>
      match pushSmart (S (String.length para)) para maxLen, push_all rest maxLen with
      | Some cs, Some cs' => Some (cs ++ cs')
      | _, _ => None
      end
  end.

Definition chunkDiscordMessage (text : string) (maxLen : Z) : option (list string) :=
  if negb (Js.truthy text) then Some [EmptyString]
  else push_all (Js.split_paragraphs text) maxLen.

End Part001.

(** src/index.js, the commands [luna] and [Ask Luna]: the text of the first
    reply, [chunks[0] || '(empty response)'] *)
Definition first_reply_text (chunks : list string) : string :=
  match chunks with
  | c :: _ => if Js.truthy c then c else "(empty response)"
  | [] => "(empty response)"
  end.

(** A text of 5000 characters without a newline and without a space *)
Definition unbroken_text : string := Js.replicate (Z.to_nat 5000) "a".

(** ** Timestamps

    src/index.js renders instants with luxon ([DateTime#toISO] on a UTC
    [DateTime]) and with [Date#toISOString]; neither library is part of the
    repository, and this module follows their documented output. Both give
    [yyyy-MM-ddTHH:mm:ss.SSSZ] in the proleptic Gregorian calendar, with the
    expanded year (a sign and six digits) outside the years 0 to 9999. An
    instant is its count of milliseconds since 1970-01-01T00:00:00Z. *)
Module Iso.

Definition MS_PER_DAY : Z := 86400000.
Definition DAYS_PER_ERA : Z := 146097.

(** The first day of the year [yoe] of an era, counted from the start of
    the era, which is a March 1st; the years of an era run from 0 to 399. *)
Definition year_start (yoe : Z) : Z := 365 * yoe + yoe / 4 - yoe / 100.

(** The year of the era that the day [doe] of the era falls in *)
Definition year_of_era_day (doe : Z) : Z :=
  (doe - doe / 1460 + doe / 36524 - doe / 146096) / 365.

(** Month and day of the day [doy] of a year that starts on March 1st, and
    1 when the month is January or February, which belong to the next
    calendar year, 0 otherwise. *)
Definition civil_of_year_day (doy : Z) : Z * Z * Z :=
  let mp := (5 * doy + 2) / 153 in
  let d := doy - (153 * mp + 2) / 5 + 1 in
  let m := if mp <? 10 then mp + 3 else mp - 9 in
  (if m <=? 2 then 1 else 0, m, d).

(** Year, month and day of the day [doe] of an era; the year is relative to
    the start of the era. *)
Definition civil_of_era_day (doe : Z) : Z * Z * Z :=
  let yoe := year_of_era_day doe in
  let '(next, m, d) := civil_of_year_day (doe - year_start yoe) in
  (yoe + next, m, d).

(** Year, month and day of the day [z] days after 1970-01-01. *)
Definition civil_from_days (z : Z) : Z * Z * Z :=
  let z := z + 719468 in
  let era := z / DAYS_PER_ERA in
  let '(y, m, d) := civil_of_era_day (z mod DAYS_PER_ERA) in
  (y + 400 * era, m, d).

Definition digit (n : Z) : ascii := ascii_of_N (48 + Z.to_N (n mod 10)).

(** The last [w] decimal digits of [n], most significant first. *)
Fixpoint digits (w : nat) (n : Z) : string :=
  match w with
  | O => EmptyString
  | S w' => digits w' (n / 10) +:+ String (digit n) EmptyString
  end.

Definition iso_year (y : Z) : string :=
  if (0 <=? y) && (y <=? 9999) then digits 4 y
  else if 0 <=? y then "+" +:+ digits 6 y
  else "-" +:+ digits 6 (- y).

Definition iso_date (days : Z) : string :=
  let '(y, m, d) := civil_from_days days in
  iso_year y +:+ "-" +:+ digits 2 m +:+ "-" +:+ digits 2 d.

Definition iso_time (ms : Z) : string :=
  digits 2 (ms / 3600000) +:+ ":" +:+ digits 2 (ms / 60000 mod 60) +:+ ":"
  +:+ digits 2 (ms / 1000 mod 60) +:+ "." +:+ digits 3 (ms mod 1000).

(** [DateTime.fromMillis(ts).toUTC().toISO()] and
    [new Date(ts).toISOString()] *)
Definition toISO (ts : Z) : string :=
  iso_date (ts / MS_PER_DAY) +:+ "T" +:+ iso_time (ts mod MS_PER_DAY) +:+ "Z".

(** 0000-01-01T00:00:00.000Z and 9999-12-31T23:59:59.999Z *)
Definition YEAR_0 : Z := -62167219200000.
Definition YEAR_9999_END : Z := 253402300799999.

Definition four_digit_year (ts : Z) : Prop := YEAR_0 <= ts <= YEAR_9999_END.

(** The days from 0000-01-01 to 9999-12-31, counted from 1970-01-01 *)
Definition day_in_range (z : Z) : Prop := -719528 ≤ z ≤ 2932896.

(** A date as the number that its digits spell, year then month then day *)
Definition date_key (c : Z * Z * Z) : Z :=
  let '(y, m, d) := c in y * 10000 + m * 100 + d.

(** A check on a year of the era: its first day falls in it, so does the
    day before the first day of the next year, and the two first days are
    365 or 366 days apart. *)
Definition year_ok (yoe : Z) : bool :=
  (year_of_era_day (year_start yoe) =? yoe)
  && (year_of_era_day (year_start (yoe + 1) - 1) =? yoe)
  && (365 <=? year_start (yoe + 1) - year_start yoe)
  && (year_start (yoe + 1) - year_start yoe <=? 366).

(** A check on a day of the year: month and day are in range, and the
    next day has a later date. *)
Definition year_day_ok (doy : Z) : bool :=
  let c := civil_of_year_day doy in
  (1 <=? c.1.2) && (c.1.2 <=? 12) && (1 <=? c.2) && (c.2 <=? 31)
  && (date_key c <? date_key (civil_of_year_day (doy + 1))).

(** [f] holds of the [n] integers from [i] on. *)
Fixpoint all_from (f : Z → bool) (n : nat) (i : Z) : bool :=
  match n with
  | O => true
  | S n' => f i && all_from f n' (i + 1)
  end.
End Iso.

(** ** The durable store and the reminder scheduler: src/index.js *)

(** A row of the table [reminders] without its [id], which is the key of
    the table. *)
Record reminder := Reminder {
  user_id : string;
  channel_id : string;
  guild_id : option string;
  text : string;
  run_at_iso : string;
  delivered : bool;
  created_at_iso : string
}.

(** The tables [users] and [reminders] of [kv.db]; [reminders_seq] is the
    counter that AUTOINCREMENT keeps for the table. *)
Record db := Db {
  users : gmap string string;
  reminders : gmap Z reminder;
  reminders_seq : Z
}.

Definition empty_db : db := Db ∅ ∅ 0.

(** A row as [SELECT *] returns it. *)
Abbreviation row := (Z * reminder)%type.

(** The comparison of TEXT values in SQLite: byte by byte. *)
Definition text_le (a b : string) : Prop := Is_true (String.leb a b).

Definition run_at_le (a b : row) : Prop := text_le (run_at_iso a.2) (run_at_iso b.2).

Definition set_delivered (r : reminder) : reminder :=
  Reminder (user_id r) (channel_id r) (guild_id r) (text r) (run_at_iso r) true
    (created_at_iso r).

Definition max_rowid (m : gmap Z reminder) : Z := foldr Z.max 0 (map_to_list m).*1.

(** [INSERT INTO users(user_id, tz) VALUES(?,?) ON CONFLICT(user_id) DO
    UPDATE SET tz=excluded.tz] *)
Definition setTZ (user tz : string) (d : db) : db :=
  Db (<[user := tz]> (users d)) (reminders d) (reminders_seq d).

(** [SELECT tz FROM users WHERE user_id=?] *)
Definition getTZ (user : string) (d : db) : option string := users d !! user.

(** [INSERT INTO reminders (...) VALUES (?, ?, ?, ?, ?, 0, ?)]: the new id
    is one more than every id the table has or ever had. *)
Definition insertReminder (user channel : string) (guild : option string)
    (txt run_at created_at : string) (d : db) : db :=
  let id := Z.max (reminders_seq d) (max_rowid (reminders d)) + 1 in
  Db (users d)
     (<[id := Reminder user channel guild txt run_at false created_at]> (reminders d))
     id.

Definition is_due (nowISO : string) (r : row) : Prop :=
  delivered r.2 = false ∧ text_le (run_at_iso r.2) nowISO.

#[global] Instance is_due_dec nowISO r : Decision (is_due nowISO r).
Proof. unfold is_due, text_le. apply _. Defined.

#[global] Instance run_at_le_dec a b : Decision (run_at_le a b).
Proof. unfold run_at_le, text_le. apply _. Defined.

(** The order of the rows of the query: ascending [run_at_iso], and
    ascending id for rows with the same [run_at_iso], as the index
    [idx_reminders_due (delivered, run_at_iso)] that serves the query holds
    them. *)
Definition due_le (a b : row) : Prop :=
  match String.compare (run_at_iso a.2) (run_at_iso b.2) with
  | Lt => True
  | Eq => a.1 ≤ b.1
  | Gt => False
  end.

#[global] Instance due_le_dec a b : Decision (due_le a b).
Proof. unfold due_le. destruct (String.compare _ _); apply _. Defined.

(** [SELECT * FROM reminders WHERE delivered=0 AND run_at_iso <= ? ORDER BY
    run_at_iso ASC] *)
Definition dueReminders (nowISO : string) (d : db) : list row :=
  merge_sort due_le (filter (is_due nowISO) (map_to_list (reminders d))).

(** [UPDATE reminders SET delivered=1 WHERE id=?] *)
Definition markDelivered (id : Z) (d : db) : db :=
  Db (users d) (alter set_delivered id (reminders d)) (reminders_seq d).

Module Scheduler.

(** The callback of [rows.forEach]: the send to the channel succeeds or
    fails, as [deliver] tells; on success the row is marked, on failure the
    error is logged and nothing is written. *)
Definition attempt (deliver : row → bool) (d : db) (r : row) : db :=
  if deliver r then markDelivered r.1 d else d.

(** One firing of the timer of [startScheduler] at the instant [now], with
    the deliveries it starts carried to their end. The result is the list
    of rows a delivery was attempted for, in the order of the attempts, and
    the store afterwards. *)
Definition tick (now : Z) (deliver : row → bool) (d : db) : list row * db :=
  let nowISO := Iso.toISO now in
  let rows := dueReminders nowISO d in
  (rows, foldl (attempt deliver) d rows).

(** The ids of the rows whose delivery succeeds *)
Definition marked (deliver : row → bool) (rows : list row) : list Z :=
  (filter (λ r, Is_true (deliver r)) rows).*1.

End Scheduler.

(** The replies of the [remind] command *)
Inductive reply :=
  | InvalidTimeFormat
  | PastTime
  | ReminderSaved (run_at : Z) (tz : string)
  | InvalidTimezone
  | TimezoneSaved (tz : string).

Module Commands.

Section Handlers.

(** The environment: the configured default zone, and luxon's parser and
    zone check. [fromFormat when tz] is the instant that
    [DateTime.fromFormat(when, 'yyyy-LL-dd HH:mm', { zone: tz })] denotes,
    [None] when the result is not valid; [validZone tz] is
    [DateTime.now().setZone(tz).isValid]. *)
Variable DEFAULT_TZ : string.
Variable fromFormat : string → string → option Z.
Variable validZone : string → bool.

(** [row?.tz || DEFAULT_TZ] *)
Definition zone_of (user : string) (d : db) : string :=
  match getTZ user d with
  | Some tz => if Js.truthy tz then tz else DEFAULT_TZ
  | None => DEFAULT_TZ
  end.

(** The command [settz] *)
Definition settz (user tz : string) (d : db) : reply * db :=
  if negb (validZone tz) then (InvalidTimezone, d)
  else (TimezoneSaved tz, setTZ user tz d).

(** The command [remind], run at the instant [now] *)
Definition remind (now : Z) (user channel : string) (guild : option string)
    (txt when : string) (d : db) : reply * db :=
  let tz := zone_of user d in
  match fromFormat when tz with
  | None => (InvalidTimeFormat, d)
  | Some dt =>
      if dt <? now then (PastTime, d)
      else
        let runAtUTC := Iso.toISO dt in
        (ReminderSaved dt tz,
         insertReminder user channel guild txt runAtUTC (Iso.toISO now) d)
  end.

(** The operations of the program on the store *)
Inductive step : db → db → Prop :=
  | step_settz user tz d : step d (settz user tz d).2
  | step_remind now user channel guild txt when d :
      step d (remind now user channel guild txt when d).2
  | step_tick now deliver d : step d (Scheduler.tick now deliver d).2.

Definition reachable (d : db) : Prop := rtc step empty_db d.

End Handlers.

End Commands.

(** ** The relay in the words of the specification *)

Module RelaySpec.

(** The complete frames of a stream, each ended by a blank line, and the
    unfinished rest after the last blank line. *)
Fixpoint split_frames (s : string) : list string * string :=
  match s with
  | EmptyString => ([], EmptyString)
  | String c s' =>
      match s' with
      | String c' s'' =>
          if Ascii.eqb c Js.LF && Ascii.eqb c' Js.LF then
            let '(fs, rest) := split_frames s'' in (EmptyString :: fs, rest)
          else
            match split_frames s' with
            | ([], rest) => ([], String c rest)
            | (f :: fs, rest) => (String c f :: fs, rest)
            end
      | EmptyString => ([], s)
      end
  end.

Definition frames (s : string) : list string := (split_frames s).1.

(** The stream that a sequence of chunks carries. *)
Definition stream_of (cs : list string) : string := foldr String.append EmptyString cs.

Definition is_event_line (l : string) : bool := Js.startsWith l "event:".
Definition is_data_line (l : string) : bool := Js.startsWith l "data:".

(** The text of a data line after [data:], less one leading space. *)
Definition data_payload (l : string) : string :=
  match Js.slice_from l 5 with
  | String c p => if Ascii.eqb c Js.SP then p else String c p
  | EmptyString => EmptyString
  end.

(** The kind named by the frame's event line (the last one, should there
    be several), [message] when the frame has none. *)
Definition event_kind (frame : string) : string :=
  match last (filter (λ l, Is_true (is_event_line l)) (Js.split_lines frame)) with
  | Some l => Js.trim (Js.slice_from l 6)
  | None => "message"
  end.

(** The payloads of the frame's data lines, joined with newlines. *)
Definition payload (frame : string) : string :=
  Js.join LF1 (data_payload <$> filter (λ l, Is_true (is_data_line l)) (Js.split_lines frame)).

(** The fragments of a sequence of frames: nothing from a [done] frame on;
    before it, the payload of each frame that has one, and, as
    src/llm/lunacore.js does, the fallback message ahead of it on an
    [error] frame. *)
Fixpoint relay (fs : list string) : list string :=
  match fs with
  | [] => []
  | f :: fs' =>
      if String.eqb (event_kind f) "done" then []
      else (if String.eqb (event_kind f) "error" then [Lunacore.FALLBACK] else [])
           ++ (if Js.truthy (payload f) then [payload f] else [])
           ++ relay fs'
  end.

(** The streams of the two relay test cases of the specification:
    [event: message\ndata: hello\n\ndata:  world\n\nevent: done\n\n] and
    [event: error\ndata: boom\n\n]. *)
Definition hello_world_stream : string :=
  "event: message" +:+ LF1 +:+ "data: hello" +:+ LFLF +:+ "data:  world" +:+ LFLF
  +:+ "event: done" +:+ LFLF.

Definition boom_stream : string := "event: error" +:+ LF1 +:+ "data: boom" +:+ LFLF.

(** Whether a [done] frame is among the frames. *)
Definition has_done (fs : list string) : bool :=
  existsb (λ f, String.eqb (event_kind f) "done") fs.

(** The run of src/unnamed/part_000 over a sequence of frames: it ends at
    the first [done] frame, and at the first [error] frame with an error
    that carries the payload of the frame. *)
Fixpoint relay_throwing (fs : list string) : run :=
  match fs with
  | [] => Run [] Finished
  | f :: fs' =>
      if String.eqb (event_kind f) "error"
      then Run [] (Threw (StreamError (Part000.error_message (payload f))))
      else if String.eqb (event_kind f) "done" then Run [] Finished
      else Run ((if Js.truthy (payload f) then [payload f] else [])
                ++ fragments (relay_throwing fs'))
               (outcome (relay_throwing fs'))
  end.

Definition has_end (fs : list string) : bool :=
  existsb (λ f, String.eqb (event_kind f) "error" || String.eqb (event_kind f) "done") fs.

(** How the inner loop ends on a buffer with the complete frames [fs] and
    the unfinished rest [rest] *)
Definition signal_of (fs : list string) (rest : string) : signal :=
  if has_done fs then Return else Next rest.

Definition signal_throwing (fs : list string) (rest : string) : signal :=
  if has_end fs then
    match outcome (relay_throwing fs) with
    | Finished => Return
    | Threw e => Throw e
    end
  else Next rest.

(** Whether an [error] frame is among the frames. *)
Definition has_error (fs : list string) : bool :=
  existsb (λ f, String.eqb (event_kind f) "error") fs.

(** A payload of several lines as the data lines of a frame *)
Definition data_lines (ls : list string) : string :=
  Js.join LF1 (String.append "data: " <$> ls).

End RelaySpec.

(** ** The key/value commands: src/index.js, [Events.MessageCreate] *)

(** A row of the table [kv] without its key [(guild_id, key)] *)
Record kv_row := KvRow {
  kv_value : string;
  kv_author_id : string;
  kv_updated_at : string
}.

(** What the handler reads of a message: [msg.author.bot],
    [msg.author.id], [msg.guild?.id] and [msg.content] *)
Record message := Message {
  msg_author_bot : bool;
  msg_author_id : string;
  msg_guild : option string;
  msg_content : string
}.

(** The replies of the handler, by their text in the source *)
Inductive kv_reply :=
  | UsageSet
  | ProvideValue
  | Saved (key : string)
  | UsageGet
  | Found (key value : string)
  | NoValue (key : string)
  | UsageDel
  | Deleted (key : string)
  | NothingToDelete (key : string)
  | NoEntries
  | Listing (txt : string)
  | Help.

Module Kv.

(** [INSERT INTO kv ... ON CONFLICT(guild_id, key) DO UPDATE SET ...] *)
Definition setStmt (guild key value author updated : string)
    (kv : gmap (string * string) kv_row) : gmap (string * string) kv_row :=
  <[(guild, key) := KvRow value author updated]> kv.

(** [SELECT value FROM kv WHERE guild_id=? AND key=?] *)
Definition getStmt (guild key : string) (kv : gmap (string * string) kv_row)
  : option string :=
  kv_value <$> kv !! (guild, key).

(** [DELETE FROM kv WHERE guild_id=? AND key=?], with [info.changes] *)
Definition delStmt (guild key : string) (kv : gmap (string * string) kv_row)
  : Z * gmap (string * string) kv_row :=
  (if kv !! (guild, key) is Some _ then 1 else 0, delete (guild, key) kv).

Definition key_le (a b : string * string) : Prop := text_le a.1 b.1.

#[global] Instance key_le_dec a b : Decision (key_le a b).
Proof. unfold key_le, text_le. apply _. Defined.

Definition in_guild (guild : string) (e : (string * string) * kv_row) : Prop :=
  e.1.1 = guild.

#[global] Instance in_guild_dec guild e : Decision (in_guild guild e).
Proof. unfold in_guild. apply _. Defined.

(** [SELECT key, value FROM kv WHERE guild_id=? ORDER BY key] *)
Definition allStmt (guild : string) (kv : gmap (string * string) kv_row)
  : list (string * string) :=
  merge_sort key_le
    ((λ e, (e.1.2, kv_value e.2)) <$> filter (in_guild guild) (map_to_list kv)).

Section Handler.

(** The configured prefix, and the text of the bullet that starts a line
    of the listing (the code unit U+2022 in the source). *)
Variable PREFIX : string.
Variable BULLET : string.

(** [msg.guild?.id ?? `DM-${msg.author.id}`] *)
Definition guild_of (msg : message) : string :=
  match msg_guild msg with
  | Some g => g
  | None => "DM-" +:+ msg_author_id msg
  end.

(** The line of a row in the listing *)
Definition line_of (r : string * string) : string :=
  BULLET +:+ " **" +:+ r.1 +:+ "**: " +:+ r.2.

Definition has_prefix (prefixFilter : string) (r : string * string) : Prop :=
  Is_true (Js.startsWith r.1 prefixFilter).

#[global] Instance has_prefix_dec f r : Decision (has_prefix f r).
Proof. unfold has_prefix. apply _. Defined.

(** [msg.content.slice(PREFIX.length).trim().split(/\s+/)] *)
Definition words (content : string) : list string :=
  Js.split_spaces (Js.trim (Js.slice_from content (Js.len PREFIX))).

(** The body of the [try], for the command [cmd] with the words [rest]
    after it, run at the instant [now]: the reply, if any, and the table
    afterwards. [new Date().toISOString()] writes the instant as
    [Iso.toISO] does. *)
Definition command (now : Z) (guildId author cmd : string) (rest : list string)
    (kv : gmap (string * string) kv_row)
  : option kv_reply * gmap (string * string) kv_row :=
  if String.eqb cmd "set" then
    match rest with
    | key :: rest' =>
        if negb (Js.truthy key) then (Some UsageSet, kv)
        else
          let value := Js.join " " rest' in
          if negb (Js.truthy value) then (Some ProvideValue, kv)
          else (Some (Saved key), setStmt guildId key value author (Iso.toISO now) kv)
    | [] => (Some UsageSet, kv)
    end
  else if String.eqb cmd "get" then
    match rest with
    | key :: _ =>
        if negb (Js.truthy key) then (Some UsageGet, kv)
        else
          match getStmt guildId key kv with
          | Some value => (Some (Found key value), kv)
          | None => (Some (NoValue key), kv)
          end
    | [] => (Some UsageGet, kv)
    end
  else if String.eqb cmd "del" then
    match rest with
    | key :: _ =>
        if negb (Js.truthy key) then (Some UsageDel, kv)
        else
          let '(changes, kv') := delStmt guildId key kv in
          (Some (if changes =? 0 then NothingToDelete key else Deleted key), kv')
    | [] => (Some UsageDel, kv)
    end
  else if String.eqb cmd "all" then
    let rows := allStmt guildId kv in
    let rows :=
      match rest with
      | prefixFilter :: _ =>
          if Js.truthy prefixFilter then filter (has_prefix prefixFilter) rows else rows
      | [] => rows
      end in
    match rows with
    | [] => (Some NoEntries, kv)
    | _ => (Some (Listing (Js.slice (Js.join LF1 (line_of <$> rows)) 0 1900)), kv)
    end
  else if String.eqb cmd "help" then (Some Help, kv)
  else (None, kv).

(** The handler of [Events.MessageCreate] *)
Definition messageCreate (now : Z) (msg : message)
    (kv : gmap (string * string) kv_row)
  : option kv_reply * gmap (string * string) kv_row :=
  if msg_author_bot msg then (None, kv)
  else if negb (Js.startsWith (msg_content msg) PREFIX) then (None, kv)
  else
    match words (msg_content msg) with
    | cmd :: rest => command now (guild_of msg) (msg_author_id msg) cmd rest kv
    | [] => (None, kv)
    end.

End Handler.

End Kv.

(** ** The chat call with retries: src/unnamed/part_001, [ollamaChat] *)

(** What one turn of the loop comes to: a response, with [res.ok],
    [res.status], the text of an error body and [data?.message?.content];
    the abort of the timeout; or another exception of [fetch] or of
    [res.json()], [transient] when its code matches
    [/ECONNRESET|ETIMEDOUT|EPIPE/i]. *)
Inductive fetch_outcome :=
  | Responded (ok : bool) (status : Z) (body : string) (content : option string)
  | Aborted
  | Failed (transient : bool).

Inductive chat_error :=
  | NoMessages
  | HttpError (status : Z) (body : string)
  | AbortError
  | OtherError (transient : bool).

(** A call as its caller and the network see it: the string it returns or
    the error it throws, the number of requests it made, and the pauses it
    slept between them, in milliseconds. *)
Record chat_run := ChatRun {
  chat_result : string + chat_error;
  chat_fetches : nat;
  chat_sleeps : list Z
}.

Module Part001Chat.

(** [shouldRetry] *)
Definition shouldRetry (status : Z) : bool :=
  (status =? 408) || (status =? 429) || ((500 <=? status) && (status <? 600)).

(** One more request, or one more pause, in front of a run *)
Definition fetched (r : chat_run) : chat_run :=
  ChatRun (chat_result r) (S (chat_fetches r)) (chat_sleeps r).

Definition slept (ms : Z) (r : chat_run) : chat_run :=
  ChatRun (chat_result r) (chat_fetches r) (ms :: chat_sleeps r).

(** [await sleep(300 * Math.pow(2, attempt)); continue] *)
Definition backoff (attempt : Z) : Z := 300 * 2 ^ attempt.

(** [for (let attempt = 0; attempt <= retries; attempt++) { ... }] from
    [attempt] on, with [n] turns left, and the [return ''] after it. *)
Fixpoint attempts (n : nat) (attempt retries : Z) (outcome : Z → fetch_outcome)
  : chat_run :=
  match n with
  | O => ChatRun (inl EmptyString) 0 []
  | S n' =>
      let again :=
        fetched (slept (backoff attempt) (attempts n' (attempt + 1) retries outcome)) in
      let throw e := ChatRun (inr e) 1 [] in
      match outcome attempt with
      | Responded ok status body content =>
          if negb ok then
            if (attempt <? retries) && shouldRetry status then again
            else throw (HttpError status body)
          else
            ChatRun
              (inl match content with
                   | Some c => if Js.truthy c then c else EmptyString
                   | None => EmptyString
                   end) 1 []
      | Aborted => if attempt <? retries then again else throw AbortError
      | Failed transient =>
          if (attempt <? retries) && transient then again
          else throw (OtherError transient)
      end
  end.

(** [ollamaChat] without [stream]: [has_messages] tells that [messages] is
    a non-empty array. *)
Definition ollamaChat (has_messages : bool) (retries : Z)
    (outcome : Z → fetch_outcome) : chat_run :=
  if negb has_messages then ChatRun (inr NoMessages) 0 []
  else attempts (Z.to_nat (retries + 1)) 0 retries outcome.

(** Whether the loop goes on after the outcome of a request, if it has
    attempts left: a response that is not ok with a status of
    [shouldRetry], an abort, or a transient failure. *)
Definition retryable (o : fetch_outcome) : bool :=
  match o with
  | Responded ok status _ _ => negb ok && shouldRetry status
  | Aborted => true
  | Failed transient => transient
  end.

(** What the call comes to when the loop ends at the outcome of a
    request: the content of an ok response, or the error thrown. *)
Definition settle (o : fetch_outcome) : string + chat_error :=
  match o with
  | Responded true _ _ (Some c) => inl c
  | Responded true _ _ None => inl EmptyString
  | Responded false status body _ => inr (HttpError status body)
  | Aborted => inr AbortError
  | Failed transient => inr (OtherError transient)
  end.

End Part001Chat.

(** ** The streaming chat call: src/unnamed/part_001, [ollamaStream] *)

Module Part001Stream.


Section Stream.

(** [JSON.parse] and what the generator reads of its result:
    [parse jsonStr] is [None] when [JSON.parse(jsonStr)] throws, and else
    the text [obj?.message?.content || ''] with the truth of [obj?.done]. *)
Variable parse : string → option (string * bool).

(** [while ((idx = buf.indexOf('\n')) >= 0) { ... }]: the fragments it
    yields and the buffer it leaves. *)
Fixpoint drain (fuel : nat) (buf : string) : option (list string * string) :=
  match fuel with
  | O => None
  | S fuel' =>
      let idx := Js.indexOf buf LF1 in
      if idx <? 0 then Some ([], buf)
      else
        let line := Js.trim (Js.slice buf 0 idx) in
        let buf := Js.slice_from buf (idx + 1) in
        if negb (Js.truthy line) then drain fuel' buf
        else
          let jsonStr :=
            if Js.startsWith line "data:" then Js.trim (Js.slice_from line 5) else line in
          match parse jsonStr with
          | Some (delta, done) =>
              let on_delta := if Js.truthy delta then [delta] else [] in
              if done then Some (on_delta, buf)
              else
                match drain fuel' buf with
                | Some (ys, buf') => Some (on_delta ++ ys, buf')
                | None => None
                end
          | None => Some ([], jsonStr +:+ LF1 +:+ buf)
          end
  end.

(** [while (true) { read; if (done) break; buf += chunk; drain }] *)
Fixpoint pump (buf : string) (cs : list string) : option (list string) :=
  match cs with
  | [] => Some []
  | c :: cs' =>
      let buf := buf +:+ c in
      match drain (S (String.length buf)) buf with
      | Some (ys, buf') =>
          match pump buf' cs' with
          | Some ys' => Some (ys ++ ys')
          | None => None
          end
      | None => None
      end
  end.

(** [ollamaStream]: [has_messages] tells that [messages] is a non-empty
    array. *)
Definition ollamaStream (has_messages : bool) (res : response) : option run :=
  if negb has_messages
  then Some (Run [] (Threw (StreamError "[ollama] messages must be a non-empty array")))
  else if negb (ok res)
  then Some (Run [] (Threw (UpstreamError (status res) (body_text res))))
  else
    match pump EmptyString (chunks res) with
    | Some ys => Some (Run ys Finished)
    | None => None
    end.

End Stream.

End Part001Stream.

(** ** The replies of the command [luna]: src/index.js *)

Module Ansi.

(** ['\u001b['] *)
Definition ESC : string := String (ascii_of_nat 27) "[".

(** The table [FG] *)
Definition FG : list (string * Z) :=
  [("black", 30); ("red", 31); ("green", 32); ("yellow", 33); ("blue", 34);
   ("magenta", 35); ("cyan", 36); ("white", 37); ("gray", 90); ("brightRed", 91);
   ("brightGreen", 92); ("brightYellow", 93); ("brightBlue", 94);
   ("brightMagenta", 95); ("brightCyan", 96); ("brightWhite", 97)].

Fixpoint lookup_FG (table : list (string * Z)) (fg : string) : option Z :=
  match table with
  | [] => None
  | (name, code) :: table' => if String.eqb name fg then Some code else lookup_FG table' fg
  end.

(** The decimal text of a code of the table, a number from 0 to 99 *)
Definition code_text (n : Z) : string :=
  if n <? 10 then Iso.digits 1 n else Iso.digits 2 n.

(** [ansiWrap(text, { fg, bold })], for an [fg] that is a key of the table
    or names no property of an object at all *)
Definition ansiWrap (text fg : string) (bold : bool) : string :=
  let codes :=
    (if bold then [1] else [])
    ++ match lookup_FG FG fg with
       | Some code => if Js.truthy fg && negb (code =? 0) then [code] else []
       | None => []
       end in
  let joined := Js.join ";" (code_text <$> codes) in
  ESC +:+ (if Js.truthy joined then joined else "0") +:+ "m" +:+ text +:+ ESC +:+ "0m".

(** [codeblockAnsi] *)
Definition codeblockAnsi (text : string) : string :=
  "```ansi" +:+ LF1 +:+ text +:+ LF1 +:+ "```".

Section Sanitize.

(** The text that stands for the code unit U+200B, which the strings of
    this development cannot hold. *)
Variable ZWSP : string.

(** [s.replace(/```/g, '``\u200b`')]: the matches are taken from the
    left and do not overlap. *)
Fixpoint sanitizeForCodeblock (s : string) : string :=
  match s with
  | String a (String b (String c rest) as s') =>
      if Ascii.eqb a "`" && Ascii.eqb b "`" && Ascii.eqb c "`"
      then "``" +:+ ZWSP +:+ "`" +:+ sanitizeForCodeblock rest
      else String a (sanitizeForCodeblock s')
  | String a s' => String a (sanitizeForCodeblock s')
  | EmptyString => EmptyString
  end.

(** [styleAnsi] *)
Definition styleAnsi (s fg : string) (bold : bool) : string :=
  codeblockAnsi (ansiWrap (sanitizeForCodeblock s) fg bold).

(** The messages that the command [luna] posts in reply to the prompt for
    the segments of an answer: the first segment, or the placeholder, and
    then each further segment. *)
Definition replies (chunks : list string) : list string :=
  styleAnsi (first_reply_text chunks) "blue" false
  :: ((λ c, styleAnsi c "blue" false) <$> tail chunks).

End Sanitize.

End Ansi.

(** ** Examples *)

(** A parser that knows one local time, the midnight that begins
    2026-11-02 in UTC, and a store with one reminder for that instant,
    saved at the instant 0. *)
Definition example_instant : Z := 1793577600000.

Definition example_fromFormat (when tz : string) : option Z :=
  if String.eqb when "2026-11-02 00:00" then Some example_instant else None.

Definition example_db : db :=
  (Commands.remind "UTC" example_fromFormat 0 "user" "channel" None "tea"
     "2026-11-02 00:00" empty_db).2.

Definition example_reminder : reminder :=
  Reminder "user" "channel" None "tea" "2026-11-02T00:00:00.000Z" false
    "1970-01-01T00:00:00.000Z".

(** A user in a zone west of Greenwich asks for the last minute of the
    year 9999. In America/New_York, five hours behind UTC in winter,
    9999-12-31 23:59 is the instant 10000-01-01T04:59:00Z. *)
Definition far_instant : Z := 253402318740000.

Definition far_fromFormat (when tz : string) : option Z :=
  if String.eqb when "9999-12-31 23:59" && String.eqb tz "America/New_York"
  then Some far_instant else None.

Definition far_db : db :=
  (Commands.remind "UTC" far_fromFormat example_instant "user" "channel" None "tea"
     "9999-12-31 23:59"
     (Commands.settz (λ _, true) "user" "America/New_York" empty_db).2).2.

Definition far_reminder : reminder :=
  Reminder "user" "channel" None "tea" "+010000-01-01T04:59:00.000Z" false
    "2026-11-02T00:00:00.000Z".

(** Two reminders for the same minute, saved one after the other *)
Definition twin_db : db :=
  (Commands.remind "UTC" example_fromFormat 0 "bob" "channel" None "milk"
     "2026-11-02 00:00" example_db).2.

(** * Properties *)

(** ** Facts on the string primitives *)

#[local] Arguments String.append : simpl nomatch.

Module JsFacts.

Lemma append_empty_r (s : string) : s +:+ EmptyString = s.
Proof. induction s as [|c s IH]; simpl; [done | by f_equal]. Qed.

Lemma append_assoc (a b c : string) : (a +:+ b) +:+ c = a +:+ (b +:+ c).
Proof. induction a as [|x a IH]; simpl; [done | by f_equal]. Qed.

Lemma length_append (a b : string) :
  String.length (a +:+ b) = (String.length a + String.length b)%nat.
Proof. induction a as [|x a IH]; simpl; [done | by f_equal]. Qed.

Lemma take_drop (n : nat) (s : string) : Js.take n s +:+ Js.drop n s = s.
Proof.
  revert s; induction n as [|n IH]; intros [|c s]; simpl; try done.
  f_equal. apply IH.
Qed.

Lemma length_take (n : nat) (s : string) :
  String.length (Js.take n s) = Nat.min n (String.length s).
Proof.
  revert s; induction n as [|n IH]; intros [|c s]; simpl; try done.
  by rewrite IH.
Qed.

Lemma length_drop (n : nat) (s : string) :
  String.length (Js.drop n s) = (String.length s - n)%nat.
Proof.
  revert s; induction n as [|n IH]; intros [|c s]; simpl; try done.
Qed.

Lemma take_all (n : nat) (s : string) :
  (String.length s ≤ n)%nat → Js.take n s = s.
Proof.
  revert s; induction n as [|n IH]; intros [|c s]; simpl; try done; try lia.
  intros H. rewrite IH; [done | lia].
Qed.

Lemma drop_all (n : nat) (s : string) :
  (String.length s ≤ n)%nat → Js.drop n s = EmptyString.
Proof.
  revert s; induction n as [|n IH]; intros [|c s]; simpl; try done; try lia.
  intros H. apply IH. lia.
Qed.

Lemma prefix_length (p s : string) :
  String.prefix p s = true → (String.length p ≤ String.length s)%nat.
Proof.
  revert s; induction p as [|c p IH]; intros [|c' s]; simpl; try done; try lia.
  destruct (ascii_dec c c'); [|done]. intros H. apply IH in H. lia.
Qed.

(** [slice] and [slice_from] at indices that are not negative *)
Lemma rel_index_nonneg (l k : Z) : 0 ≤ k → Js.rel_index l k = Z.min k l.
Proof. intros Hk. unfold Js.rel_index. destruct (Z.ltb_spec k 0); [lia | done]. Qed.

Lemma slice_0 (s : string) (n : Z) :
  0 ≤ n → Js.slice s 0 n = Js.take (Z.to_nat n) s.
Proof.
  intros Hn. unfold Js.slice. rewrite !rel_index_nonneg by lia.
  assert (0 ≤ Js.len s) by (unfold Js.len; lia).
  rewrite (Z.min_l 0) by lia. rewrite Z.sub_0_r. simpl Js.drop.
  destruct (Z.le_gt_cases n (Js.len s)).
  - by rewrite Z.min_l by lia.
  - rewrite Z.min_r by lia. unfold Js.len in *.
    rewrite !take_all; [done | lia | lia].
Qed.

Lemma slice_from_nonneg (s : string) (n : Z) :
  0 ≤ n → Js.slice_from s n = Js.drop (Z.to_nat n) s.
Proof.
  intros Hn. unfold Js.slice_from. rewrite rel_index_nonneg by lia.
  destruct (Z.le_gt_cases n (Js.len s)).
  - by rewrite Z.min_l by lia.
  - rewrite Z.min_r by lia. unfold Js.len in *.
    rewrite !drop_all; [done | lia | lia].
Qed.

(** Induction on strings two characters at a time *)
Lemma string_ind2 (P : string → Prop) :
  P EmptyString →
  (∀ c, P (String c EmptyString)) →
  (∀ c c' s, P s → P (String c' s) → P (String c (String c' s))) →
  ∀ s, P s.
Proof.
  intros H0 H1 H2 s.
  assert (P s ∧ ∀ c, P (String c s)) as [? _]; [|done].
  induction s as [|c s [IH1 IH2]]; [by split|].
  split; [apply IH2 | intros c'; by apply H2].
Qed.

Lemma prefix_cons (a b : ascii) (p s : string) :
  String.prefix (String a p) (String b s) = Ascii.eqb a b && String.prefix p s.
Proof.
  change (String.prefix (String a p) (String b s))
    with (if ascii_dec a b then String.prefix p s else false).
  destruct (ascii_dec a b) as [->|Hne].
  - by rewrite Ascii.eqb_refl.
  - apply Ascii.eqb_neq in Hne. by rewrite Hne.
Qed.

Lemma prefix_nil (s : string) : String.prefix EmptyString s = true.
Proof. by destruct s. Qed.

Lemma prefix_cons_nil (a : ascii) (p : string) :
  String.prefix (String a p) EmptyString = false.
Proof. done. Qed.

Lemma prefix_LFLF (c c' : ascii) (s : string) :
  String.prefix LFLF (String c (String c' s)) = Ascii.eqb c Js.LF && Ascii.eqb c' Js.LF.
Proof.
  unfold LFLF. rewrite !prefix_cons, prefix_nil, andb_true_r.
  by rewrite (Ascii.eqb_sym Js.LF c), (Ascii.eqb_sym Js.LF c').
Qed.

Lemma prefix_LFLF_short (c : ascii) : String.prefix LFLF (String c EmptyString) = false.
Proof. unfold LFLF. rewrite prefix_cons, prefix_cons_nil. apply andb_false_r. Qed.

Lemma indexOf_at_cons (p : string) (c : ascii) (s : string) (i : Z) :
  Js.indexOf_at p (String c s) i =
  if String.prefix p (String c s) then i else Js.indexOf_at p s (i + 1).
Proof. done. Qed.

Lemma split_frames_cons2 (c c' : ascii) (s : string) :
  RelaySpec.split_frames (String c (String c' s)) =
  if Ascii.eqb c Js.LF && Ascii.eqb c' Js.LF then
    let '(fs, rest) := RelaySpec.split_frames s in (EmptyString :: fs, rest)
  else
    match RelaySpec.split_frames (String c' s) with
    | ([], rest) => ([], String c rest)
    | (f :: fs, rest) => (String c f :: fs, rest)
    end.
Proof. done. Qed.

(** The first blank line of a buffer, as [indexOf] finds it, is where the
    first frame of [split_frames] ends. *)
Lemma indexOf_at_split_frames (s : string) (i : Z) :
  Js.indexOf_at LFLF s i =
  match (RelaySpec.split_frames s).1 with
  | [] => -1
  | f :: _ => i + Js.len f
  end.
Proof.
  revert i. induction s as [| c | c c' s IH1 IH2] using string_ind2; intros i.
  - done.
  - rewrite indexOf_at_cons, prefix_LFLF_short. done.
  - rewrite indexOf_at_cons, split_frames_cons2, prefix_LFLF.
    destruct (Ascii.eqb c Js.LF && Ascii.eqb c' Js.LF) eqn:E.
    + destruct (RelaySpec.split_frames s) as [fs rest]. simpl. unfold Js.len. simpl. lia.
    + rewrite (IH2 (i + 1)).
      destruct (RelaySpec.split_frames (String c' s)) as [[|f fs] rest]; simpl; [done|].
      unfold Js.len. simpl String.length. lia.
Qed.

Lemma split_frames_nil (s rest : string) :
  RelaySpec.split_frames s = ([], rest) → rest = s.
Proof.
  revert rest. induction s as [| c | c c' s IH1 IH2] using string_ind2; intros rest.
  - by intros [= <-].
  - by intros [= <-].
  - rewrite split_frames_cons2.
    destruct (Ascii.eqb c Js.LF && Ascii.eqb c' Js.LF).
    + by destruct (RelaySpec.split_frames s).
    + destruct (RelaySpec.split_frames (String c' s)) as [[|f fs] r] eqn:E; [|done].
      intros [= <-]. f_equal. by apply IH2.
Qed.

Lemma split_frames_cons (s f rest : string) (fs : list string) :
  RelaySpec.split_frames s = (f :: fs, rest) →
  Js.take (String.length f) s = f ∧
  RelaySpec.split_frames (Js.drop (String.length f + 2) s) = (fs, rest) ∧
  (String.length f + 2 ≤ String.length s)%nat.
Proof.
  revert f. induction s as [| c | c c' s IH1 IH2] using string_ind2; intros f.
  - done.
  - done.
  - rewrite split_frames_cons2.
    destruct (Ascii.eqb c Js.LF && Ascii.eqb c' Js.LF).
    + destruct (RelaySpec.split_frames s) as [fs' rest'] eqn:E.
      intros [= <- <- <-]. simpl. split; [done|]. split; [done | lia].
    + destruct (RelaySpec.split_frames (String c' s)) as [[|f' fs'] r] eqn:E; [done|].
      intros [= <- <- <-]. destruct (IH2 f' eq_refl) as (Ht & Hd & Hl).
      cbn [String.length Nat.add Js.take Js.drop]. split; [by rewrite Ht|].
      split; [done | simpl in Hl; lia].
Qed.

End JsFacts.


(** ** The relay *)

Module RelayFacts.

Lemma event_not_data (l : string) :
  Js.startsWith l "event:" = true → Js.startsWith l "data:" = false.
Proof.
  unfold Js.startsWith. destruct l as [|c l]; [done|].
  rewrite !JsFacts.prefix_cons.
  destruct (Ascii.eqb_spec "e" c) as [<-|]; [done | done].
Qed.

Lemma data_payload_eq (l : string) :
  (let payload := Js.slice_from l 5 in
   if Js.startsWith payload " " then Js.slice_from payload 1 else payload)
  = RelaySpec.data_payload l.
Proof.
  unfold RelaySpec.data_payload. cbv zeta.
  destruct (Js.slice_from l 5) as [|c p]; [done|].
  unfold Js.startsWith. rewrite JsFacts.prefix_cons, JsFacts.prefix_nil, andb_true_r.
  rewrite (Ascii.eqb_sym _ c). change Js.SP with " "%char.
  destruct (Ascii.eqb c " "); [|done].
  rewrite JsFacts.slice_from_nonneg by lia. done.
Qed.

Lemma foldl_parse_line (ls : list string) (e : string) (ds : list string) :
  foldl Frame.parse_line (e, ds) ls =
  (from_option (λ l, Js.trim (Js.slice_from l 6)) e
     (last (filter (λ l, Is_true (RelaySpec.is_event_line l)) ls)),
   ds ++ (RelaySpec.data_payload <$> filter (λ l, Is_true (RelaySpec.is_data_line l)) ls)).
Proof.
  revert e ds. induction ls as [|l ls IH]; intros e ds.
  - simpl. by rewrite app_nil_r.
  - cbn [foldl]. unfold Frame.parse_line at 2.
    unfold RelaySpec.is_event_line, RelaySpec.is_data_line in *.
    destruct (Js.startsWith l "event:") eqn:Ev.
    + rewrite IH. rewrite (filter_cons_True _ l) by (by rewrite Ev).
      rewrite (filter_cons_False _ l) by (rewrite (event_not_data l Ev); exact (λ H, H)).
      rewrite last_cons. by destruct (last _).
    + rewrite (filter_cons_False _ l) by (rewrite Ev; exact (λ H, H)).
      destruct (Js.startsWith l "data:") eqn:Da.
      * rewrite data_payload_eq, IH.
        rewrite (filter_cons_True _ l) by (by rewrite Da).
        by rewrite fmap_cons, <- app_assoc.
      * rewrite IH. by rewrite (filter_cons_False _ l) by (rewrite Da; exact (λ H, H)).
Qed.

(** The loop over the lines of a frame computes the frame's event kind
    and payload. *)
Lemma parse_spec (frame : string) :
  Frame.parse frame = (RelaySpec.event_kind frame, RelaySpec.payload frame).
Proof.
  unfold Frame.parse. rewrite foldl_parse_line.
  unfold RelaySpec.event_kind, RelaySpec.payload.
  by destruct (last _).
Qed.

(** With fuel above the length of the buffer, the inner loop relays the
    complete frames of the buffer and keeps the unfinished rest. *)
Lemma drain_spec (fuel : nat) (buf : string) :
  (String.length buf < fuel)%nat →
  Lunacore.drain fuel buf =
  Some (RelaySpec.relay (RelaySpec.split_frames buf).1,
        RelaySpec.signal_of (RelaySpec.split_frames buf).1 (RelaySpec.split_frames buf).2).
Proof.
  revert buf. induction fuel as [|fuel IH]; intros buf Hlen; [lia|].
  cbn [Lunacore.drain]. unfold Js.indexOf.
  rewrite JsFacts.indexOf_at_split_frames.
  destruct (RelaySpec.split_frames buf) as [[|f fs] rest] eqn:E.
  - simpl. apply JsFacts.split_frames_nil in E. by subst.
  - apply JsFacts.split_frames_cons in E as (Ht & Hd & Hl).
    assert (0 ≤ Js.len f) by (unfold Js.len; lia).
    cbn [fst snd]. destruct (Z.eqb_spec (0 + Js.len f) (-1)); [lia|].
    rewrite JsFacts.slice_0, JsFacts.slice_from_nonneg by lia.
    replace (Z.to_nat (0 + Js.len f)) with (String.length f) by (unfold Js.len; lia).
    replace (Z.to_nat (0 + Js.len f + 2)) with (String.length f + 2)%nat
      by (unfold Js.len; lia).
    rewrite Ht, parse_spec.
    cbn [fst snd RelaySpec.relay]. unfold RelaySpec.signal_of. cbn [RelaySpec.has_done existsb].
    destruct (String.eqb (RelaySpec.event_kind f) "done") eqn:Ed.
    + simpl. destruct (String.eqb (RelaySpec.event_kind f) "error") eqn:Ee; [|done].
      apply String.eqb_eq in Ed, Ee. congruence.
    + rewrite IH, Hd; [done|].
      rewrite JsFacts.length_drop. lia.
Qed.

Lemma split_frames_rest (s : string) :
  RelaySpec.split_frames (RelaySpec.split_frames s).2 = ([], (RelaySpec.split_frames s).2).
Proof.
  induction s as [| c | c c' s IH1 IH2] using JsFacts.string_ind2; [done | done |].
  rewrite JsFacts.split_frames_cons2.
  destruct (Ascii.eqb c Js.LF && Ascii.eqb c' Js.LF) eqn:E0.
  - by destruct (RelaySpec.split_frames s).
  - destruct (RelaySpec.split_frames (String c' s)) as [[|f fs] r] eqn:E; [|done].
    pose proof (JsFacts.split_frames_nil _ _ E) as ->. cbn [snd].
    by rewrite JsFacts.split_frames_cons2, E0, E.
Qed.

Lemma split_frames_app (a b : string) :
  RelaySpec.split_frames (a +:+ b) =
  let '(fs', rest') := RelaySpec.split_frames ((RelaySpec.split_frames a).2 +:+ b) in
  ((RelaySpec.split_frames a).1 ++ fs', rest').
Proof.
  induction a as [| c | c c' s IH1 IH2] using JsFacts.string_ind2.
  - change (RelaySpec.split_frames EmptyString) with ([] : list string, EmptyString).
    cbn [fst snd app]. by destruct (RelaySpec.split_frames _).
  - change (RelaySpec.split_frames (String c EmptyString))
      with ([] : list string, String c EmptyString).
    cbn [fst snd app]. by destruct (RelaySpec.split_frames _).
  - change (String c (String c' s) +:+ b) with (String c (String c' (s +:+ b))).
    rewrite !JsFacts.split_frames_cons2.
    destruct (Ascii.eqb c Js.LF && Ascii.eqb c' Js.LF) eqn:E0.
    + rewrite IH1. destruct (RelaySpec.split_frames s) as [fs r]. cbn [fst snd].
      by destruct (RelaySpec.split_frames (r +:+ b)).
    + change (String c' (s +:+ b)) with (String c' s +:+ b). rewrite IH2.
      destruct (RelaySpec.split_frames (String c' s)) as [[|f fs] r] eqn:E; cbn [fst snd].
      * pose proof (JsFacts.split_frames_nil _ _ E) as ->.
        change (String c (String c' s) +:+ b) with (String c (String c' (s +:+ b))).
        rewrite JsFacts.split_frames_cons2, E0.
        change (String c' (s +:+ b)) with (String c' s +:+ b).
        destruct (RelaySpec.split_frames (String c' s +:+ b)) as [[|f' fs'] r']; done.
      * by destruct (RelaySpec.split_frames (r +:+ b)).
Qed.

Lemma relay_app (fs fs' : list string) :
  RelaySpec.relay (fs ++ fs') =
  if RelaySpec.has_done fs then RelaySpec.relay fs
  else RelaySpec.relay fs ++ RelaySpec.relay fs'.
Proof.
  induction fs as [|f fs IH]; [done|].
  cbn [app RelaySpec.relay RelaySpec.has_done existsb].
  destruct (String.eqb (RelaySpec.event_kind f) "done"); [done|].
  rewrite IH. cbn [orb]. fold (RelaySpec.has_done fs).
  destruct (RelaySpec.has_done fs); [done|].
  by rewrite <- !app_assoc.
Qed.

(** The outer loop over the chunks relays the frames of the whole stream:
    where the chunks are cut makes no difference. *)
Lemma pump_spec (cs : list string) (buf : string) :
  RelaySpec.split_frames buf = ([], buf) →
  Lunacore.pump buf cs =
  Some (Run (RelaySpec.relay (RelaySpec.frames (buf +:+ RelaySpec.stream_of cs))) Finished).
Proof.
  revert buf. induction cs as [|c cs IH]; intros buf Hbuf.
  - cbn [Lunacore.pump RelaySpec.stream_of foldr].
    rewrite JsFacts.append_empty_r. unfold RelaySpec.frames. by rewrite Hbuf.
  - cbn [Lunacore.pump RelaySpec.stream_of foldr].
    fold (RelaySpec.stream_of cs).
    rewrite drain_spec by lia.
    rewrite <- JsFacts.append_assoc. unfold RelaySpec.frames.
    rewrite (split_frames_app (buf +:+ c)).
    pose proof (split_frames_rest (buf +:+ c)) as Hrest.
    destruct (RelaySpec.split_frames (buf +:+ c)) as [fs1 rest1]. cbn [fst snd] in *.
    unfold RelaySpec.signal_of.
    destruct (RelaySpec.split_frames (rest1 +:+ RelaySpec.stream_of cs)) as [fs' rest'] eqn:E'.
    cbn [fst]. rewrite relay_app.
    destruct (RelaySpec.has_done fs1); [done|].
    rewrite (IH rest1 Hrest). unfold RelaySpec.frames. rewrite E'. done.
Qed.

Lemma drain_throwing_spec (fuel : nat) (buf : string) :
  (String.length buf < fuel)%nat →
  Part000.drain fuel buf =
  Some (fragments (RelaySpec.relay_throwing (RelaySpec.split_frames buf).1),
        RelaySpec.signal_throwing (RelaySpec.split_frames buf).1 (RelaySpec.split_frames buf).2).
Proof.
  revert buf. induction fuel as [|fuel IH]; intros buf Hlen; [lia|].
  cbn [Part000.drain]. unfold Js.indexOf.
  rewrite JsFacts.indexOf_at_split_frames.
  destruct (RelaySpec.split_frames buf) as [[|f fs] rest] eqn:E.
  - simpl. apply JsFacts.split_frames_nil in E. by subst.
  - apply JsFacts.split_frames_cons in E as (Ht & Hd & Hl).
    assert (0 ≤ Js.len f) by (unfold Js.len; lia).
    cbn [fst snd]. destruct (Z.eqb_spec (0 + Js.len f) (-1)); [lia|].
    rewrite JsFacts.slice_0, JsFacts.slice_from_nonneg by lia.
    replace (Z.to_nat (0 + Js.len f)) with (String.length f) by (unfold Js.len; lia).
    replace (Z.to_nat (0 + Js.len f + 2)) with (String.length f + 2)%nat
      by (unfold Js.len; lia).
    rewrite Ht, parse_spec.
    unfold RelaySpec.signal_throwing. cbn [RelaySpec.relay_throwing RelaySpec.has_end existsb].
    destruct (String.eqb (RelaySpec.event_kind f) "error") eqn:Ee; [done|].
    destruct (String.eqb (RelaySpec.event_kind f) "done") eqn:Ed; [done|].
    rewrite IH, Hd by (rewrite JsFacts.length_drop; lia).
    cbn [fst snd orb fragments outcome]. done.
Qed.

Lemma relay_throwing_app (fs fs' : list string) :
  RelaySpec.relay_throwing (fs ++ fs') =
  if RelaySpec.has_end fs then RelaySpec.relay_throwing fs
  else Run (fragments (RelaySpec.relay_throwing fs) ++ fragments (RelaySpec.relay_throwing fs'))
           (outcome (RelaySpec.relay_throwing fs')).
Proof.
  induction fs as [|f fs IH]; [simpl; by destruct (RelaySpec.relay_throwing fs')|].
  cbn [app RelaySpec.relay_throwing RelaySpec.has_end existsb].
  destruct (String.eqb (RelaySpec.event_kind f) "error"); [done|].
  destruct (String.eqb (RelaySpec.event_kind f) "done"); [done|].
  rewrite IH. cbn [orb]. fold (RelaySpec.has_end fs).
  destruct (RelaySpec.has_end fs); [done|].
  cbn [fragments outcome]. by rewrite <- !app_assoc.
Qed.

Lemma pump_throwing_spec (cs : list string) (buf : string) :
  RelaySpec.split_frames buf = ([], buf) →
  Part000.pump buf cs =
  Some (RelaySpec.relay_throwing (RelaySpec.frames (buf +:+ RelaySpec.stream_of cs))).
Proof.
  revert buf. induction cs as [|c cs IH]; intros buf Hbuf.
  - cbn [Part000.pump RelaySpec.stream_of foldr].
    rewrite JsFacts.append_empty_r. unfold RelaySpec.frames. by rewrite Hbuf.
  - cbn [Part000.pump RelaySpec.stream_of foldr].
    fold (RelaySpec.stream_of cs).
    rewrite drain_throwing_spec by lia.
    rewrite <- JsFacts.append_assoc. unfold RelaySpec.frames.
    rewrite (split_frames_app (buf +:+ c)).
    pose proof (split_frames_rest (buf +:+ c)) as Hrest.
    destruct (RelaySpec.split_frames (buf +:+ c)) as [fs1 rest1]. cbn [fst snd] in *.
    unfold RelaySpec.signal_throwing.
    destruct (RelaySpec.split_frames (rest1 +:+ RelaySpec.stream_of cs)) as [fs' rest'] eqn:E'.
    cbn [fst]. rewrite relay_throwing_app.
    destruct (RelaySpec.has_end fs1).
    + by destruct (RelaySpec.relay_throwing fs1) as [ys [|e]].
    + rewrite (IH rest1 Hrest). unfold RelaySpec.frames. rewrite E'. done.
Qed.

End RelayFacts.

(** A response with a success status always runs to completion, and its
    fragments are those of the frames of the whole stream. *)
Lemma lunaChatStream_frames (st : Z) (body : string) (cs : list string) :
  Lunacore.lunaChatStream (Response true st body cs) =
  Some (Run (RelaySpec.relay (RelaySpec.frames (RelaySpec.stream_of cs))) Finished).
Proof.
  unfold Lunacore.lunaChatStream. cbn [ok negb chunks].
  by rewrite RelayFacts.pump_spec.
Qed.

(** The same for src/unnamed/part_000, whose run may end with an error. *)
Lemma lunaChatStream_throwing_frames (st : Z) (body : string) (cs : list string) :
  Part000.lunaChatStream (Response true st body cs) =
  Some (RelaySpec.relay_throwing (RelaySpec.frames (RelaySpec.stream_of cs))).
Proof.
  unfold Part000.lunaChatStream. cbn [ok negb chunks].
  by rewrite RelayFacts.pump_throwing_spec.
Qed.

(** A frame without an event line has the kind [message]. *)
Lemma event_kind_default (frame : string) :
  Forall (λ l, Js.startsWith l "event:" = false) (Js.split_lines frame) →
  RelaySpec.event_kind frame = "message".
Proof.
  intros Hno. unfold RelaySpec.event_kind.
  replace (filter _ (Js.split_lines frame)) with (@nil string); [done|].
  symmetry. induction Hno as [|l ls Hl _ IH]; [done|].
  rewrite filter_cons_False; [done|].
  unfold RelaySpec.is_event_line. rewrite Hl. exact (λ H, H).
Qed.

(** C3. For every sequence of chunks of a successfully opened stream, the
    relay of src/llm/lunacore.js completes, and the fragments it yields are
    those of the frames of the whole stream, each frame ending at a blank
    line: the kind of a frame is the one its event line names and [message]
    without one, its payload is the join by newlines of its data lines
    less [data:] and one leading space, a non-empty payload is one
    fragment, and nothing is yielded from a [done] frame on. The stream of
    the specification's example, in one chunk or cut inside a blank line,
    yields [hello] and then [ world], and completes. *)
Theorem relay_follows_frames :
  (∀ st body cs,
     Lunacore.lunaChatStream (Response true st body cs) =
     Some (Run (RelaySpec.relay (RelaySpec.frames (RelaySpec.stream_of cs))) Finished))
  ∧ Lunacore.lunaChatStream (Response true 200 "" [RelaySpec.hello_world_stream]) =
    Some (Run ["hello"; " world"] Finished)
  ∧ Lunacore.lunaChatStream
      (Response true 200 ""
         ["event: message" +:+ LF1 +:+ "data: hello" +:+ LF1;
          LF1 +:+ "data:  wor"; "ld" +:+ LFLF +:+ "event: done" +:+ LFLF]) =
    Some (Run ["hello"; " world"] Finished).
Proof.
  split; [apply lunaChatStream_frames|].
  split; by vm_compute.
Qed.

(** C1. At the stream [event: error], [data: boom] and a blank line, the
    relay of src/llm/lunacore.js yields the fallback message and then the
    raw payload [boom], two fragments, and it does not stop at the error
    frame: a frame that follows is relayed too. The relay of
    src/unnamed/part_000 yields nothing there and throws an error that
    carries [boom]. *)
Theorem error_frame_relays_payload :
  Lunacore.lunaChatStream (Response true 200 "" [RelaySpec.boom_stream]) =
    Some (Run [Lunacore.FALLBACK; "boom"] Finished)
  ∧ Lunacore.lunaChatStream
      (Response true 200 "" [RelaySpec.boom_stream; "data: more" +:+ LFLF]) =
    Some (Run [Lunacore.FALLBACK; "boom"; "more"] Finished)
  ∧ Part000.lunaChatStream (Response true 200 "" [RelaySpec.boom_stream]) =
    Some (Run [] (Threw (StreamError "boom"))).
Proof. repeat split; by vm_compute. Qed.

(** Every error frame that comes before a [done] frame adds the fallback
    message and then its own payload, and the frames after it are relayed
    as if it had been a message. *)
Lemma relay_error_frame (f : string) (fs : list string) :
  RelaySpec.event_kind f = "error" →
  RelaySpec.relay (f :: fs) =
  Lunacore.FALLBACK
  :: (if Js.truthy (RelaySpec.payload f) then [RelaySpec.payload f] else [])
  ++ RelaySpec.relay fs.
Proof. intros Hf. cbn [RelaySpec.relay]. by rewrite Hf. Qed.

(** ** The chunkers *)

Module ChunkFacts.

Lemma join_empty_cons (c : string) (cs : list string) :
  Js.join EmptyString (c :: cs) = c +:+ Js.join EmptyString cs.
Proof.
  unfold Js.join. destruct cs as [|c' cs]; [|done].
  simpl. by rewrite JsFacts.append_empty_r.
Qed.

Lemma truthy_length (s : string) : Js.truthy s = true ↔ (0 < String.length s)%nat.
Proof. destruct s; simpl; split; (done || lia). Qed.

(** More fuel than the text is long changes nothing. *)
Lemma loop_fuel (maxLen : Z) (f1 f2 : nat) (r : string) :
  1 ≤ maxLen → (String.length r < f1)%nat → (String.length r < f2)%nat →
  Ollama.loop f1 r maxLen = Ollama.loop f2 r maxLen.
Proof.
  intros Hm. revert f2 r. induction f1 as [|f1 IH]; intros [|f2] r H1 H2; try lia.
  cbn [Ollama.loop]. destruct (Z.ltb_spec maxLen (Js.len r)) as [Hlt|]; [|done].
  rewrite (IH f2); [done | |].
  all: rewrite JsFacts.slice_from_nonneg, JsFacts.length_drop by lia;
    unfold Js.len in Hlt; lia.
Qed.

(** The loop of the source, one turn at a time *)
Lemma chunk_unfold (text : string) (maxLen : Z) :
  1 ≤ maxLen →
  Ollama.chunkDiscordMessage text maxLen =
  if maxLen <? Js.len text then
    match Ollama.chunkDiscordMessage (Js.slice_from text maxLen) maxLen with
    | Some cs => Some (Js.slice text 0 maxLen :: cs)
    | None => None
    end
  else Some (if Js.truthy text then [text] else []).
Proof.
  intros Hm. unfold Ollama.chunkDiscordMessage at 1. cbn [Ollama.loop].
  destruct (Z.ltb_spec maxLen (Js.len text)) as [Hlt|]; [|done].
  unfold Ollama.chunkDiscordMessage.
  rewrite (loop_fuel maxLen (String.length text)
             (S (String.length (Js.slice_from text maxLen)))); [done | lia | | lia].
  rewrite JsFacts.slice_from_nonneg, JsFacts.length_drop by lia.
  unfold Js.len in Hlt. lia.
Qed.

(** With a positive [maxLen] the loop ends, the segments are not empty and
    not longer than [maxLen], and put together they are the text. *)
Lemma loop_spec (maxLen : Z) (fuel : nat) (r : string) :
  1 ≤ maxLen → (String.length r < fuel)%nat →
  ∃ cs, Ollama.loop fuel r maxLen = Some cs
        ∧ Js.join EmptyString cs = r
        ∧ Forall (λ c, 1 ≤ Js.len c ≤ maxLen) cs.
Proof.
  intros Hm. revert r. induction fuel as [|fuel IH]; intros r Hlen; [lia|].
  cbn [Ollama.loop]. destruct (Z.ltb_spec maxLen (Js.len r)) as [Hlt|Hge].
  - unfold Js.len in Hlt.
    rewrite JsFacts.slice_from_nonneg, JsFacts.slice_0 by lia.
    destruct (IH (Js.drop (Z.to_nat maxLen) r)) as (cs & -> & Hj & Hall).
    { rewrite JsFacts.length_drop. lia. }
    eexists; split; [done|]. split.
    + by rewrite join_empty_cons, Hj, JsFacts.take_drop.
    + constructor; [|done]. unfold Js.len. rewrite JsFacts.length_take. lia.
  - destruct r as [|c r]; simpl.
    + exists []. by repeat split.
    + eexists; split; [done|]. split; [done|].
      constructor; [|done]. unfold Js.len in *. simpl in *. lia.
Qed.

(** *** The chunker of src/unnamed/part_001 *)

Lemma trimStart_length (s : string) :
  (String.length (Js.trimStart s) ≤ String.length s)%nat.
Proof.
  induction s as [|c s IH]; simpl; [done|].
  destruct (Js.is_space c); simpl; lia.
Qed.

Lemma trimEnd_length (s : string) :
  (String.length (Js.trimEnd s) ≤ String.length s)%nat.
Proof.
  induction s as [|c s IH]; simpl; [done|].
  destruct (Js.trimEnd s); [destruct (Js.is_space c)|]; simpl in *; lia.
Qed.

(** What [trimEnd] returns does not end with white space. *)
Lemma trimEnd_last (s : string) (c : ascii) :
  Js.last_char (Js.trimEnd s) = Some c → Js.is_space c = false.
Proof.
  induction s as [|x s IH]; simpl; [done|].
  destruct (Js.trimEnd s) as [|y t] eqn:E.
  - destruct (Js.is_space x) eqn:Ex; simpl; [done|]. by intros [= <-].
  - apply IH.
Qed.

Lemma lastIndexOf_at_spec (p s : string) (i bound best : Z) :
  Js.lastIndexOf_at p s i bound best = best
  ∨ (i ≤ Js.lastIndexOf_at p s i bound best ≤ bound
     ∧ String.prefix p
         (Js.drop (Z.to_nat (Js.lastIndexOf_at p s i bound best - i)) s) = true).
Proof.
  revert i best. induction s as [|c s IH]; intros i best.
  - cbn [Js.lastIndexOf_at].
    destruct (Z.leb_spec i bound); cbn [andb]; [|by left].
    destruct (String.prefix p EmptyString) eqn:E; [|by left].
    right. rewrite Z.sub_diag. split; [lia | done].
  - cbn [Js.lastIndexOf_at].
    set (best' := if (i <=? bound) && String.prefix p (String c s) then i else best).
    destruct (IH (i + 1) best') as [Hb | (Hr & Hp)].
    + rewrite Hb. unfold best'.
      destruct (Z.leb_spec i bound); cbn [andb]; [|by left].
      destruct (String.prefix p (String c s)) eqn:E; [|by left].
      right. rewrite Z.sub_diag. split; [lia | done].
    + right. split; [lia|].
      set (r := Js.lastIndexOf_at p s (i + 1) bound best') in *.
      replace (Z.to_nat (r - i)) with (S (Z.to_nat (r - (i + 1)))) by lia.
      done.
Qed.

(** A match of [lastIndexOf] lies at or before [from], where the pattern
    occurs. *)
Lemma lastIndexOf_spec (s p : string) (from : Z) :
  0 ≤ from →
  Js.lastIndexOf s p from = -1
  ∨ (0 ≤ Js.lastIndexOf s p from ≤ from
     ∧ String.prefix p (Js.drop (Z.to_nat (Js.lastIndexOf s p from)) s) = true).
Proof.
  intros Hf. unfold Js.lastIndexOf.
  destruct (lastIndexOf_at_spec p s 0 (Z.max from 0) (-1)) as [H | (Hr & Hp)]; [by left|].
  right. rewrite Z.sub_0_r in Hp. split; [lia | done].
Qed.

Lemma prefix_starts_with_space (p s : string) :
  Js.starts_with_space p → String.prefix p s = true →
  (String.length (Js.trimStart s) < String.length s)%nat.
Proof.
  intros (c & p' & -> & Hc). destruct s as [|x s]; [done|].
  rewrite JsFacts.prefix_cons. intros [Hx _]%andb_true_iff.
  apply Ascii.eqb_eq in Hx as <-. simpl. rewrite Hc.
  pose proof (trimStart_length s). lia.
Qed.

(** The cut of [pushSmart] lies within [0, maxLen], and what is left after
    the cut and [trimStart] is shorter than the segment. *)
Lemma pick_cut_spec (segment : string) (maxLen : Z) :
  1 ≤ maxLen → maxLen < Js.len segment →
  0 ≤ Part001.pick_cut segment maxLen ≤ maxLen
  ∧ (String.length (Js.trimStart (Js.slice_from segment (Part001.pick_cut segment maxLen)))
     < String.length segment)%nat.
Proof.
  intros Hm Hlen. unfold Part001.pick_cut, Part001.min_fill.
  assert (0 ≤ 3 * maxLen / 5) as Hfill by (apply Z.div_pos; lia).
  assert (∀ p, Js.starts_with_space p →
            let r := Js.lastIndexOf segment p maxLen in
            (r <? 3 * maxLen / 5) = false →
            0 ≤ r ≤ maxLen
            ∧ (String.length (Js.trimStart (Js.slice_from segment r))
               < String.length segment)%nat) as Hcase.
  { intros p Hp r Hr. apply Z.ltb_ge in Hr.
    destruct (lastIndexOf_spec segment p maxLen) as [Hn | (Hrange & Hpre)]; [lia | |].
    - fold r in Hn. lia.
    - fold r in Hrange, Hpre. split; [lia|].
      rewrite JsFacts.slice_from_nonneg by lia.
      pose proof (prefix_starts_with_space _ _ Hp Hpre) as Hlt.
      rewrite JsFacts.length_drop in Hlt. lia. }
  assert (Js.starts_with_space LFLF) as H1 by (by exists Js.LF, LF1).
  assert (Js.starts_with_space LF1) as H2 by (by exists Js.LF, EmptyString).
  assert (Js.starts_with_space " ") as H3 by (by exists Js.SP, EmptyString).
  assert (0 ≤ maxLen ≤ maxLen
          ∧ (String.length (Js.trimStart (Js.slice_from segment maxLen))
             < String.length segment)%nat) as Hhard.
  { split; [lia|]. rewrite JsFacts.slice_from_nonneg by lia.
    pose proof (trimStart_length (Js.drop (Z.to_nat maxLen) segment)) as Hle.
    rewrite JsFacts.length_drop in Hle. unfold Js.len in Hlen. lia. }
  destruct (0 <=? Js.lastIndexOf segment LFLF maxLen).
  { destruct (_ <? _) eqn:E; [done | by apply (Hcase LFLF)]. }
  destruct (0 <=? Js.lastIndexOf segment LF1 maxLen).
  { destruct (_ <? _) eqn:E; [done | by apply (Hcase LF1)]. }
  destruct (_ <? _) eqn:E; [done | by apply (Hcase " ")].
Qed.

(** With a positive [maxLen], [pushSmart] returns; no segment is longer
    than [maxLen], and no segment but the last ends with white space. *)
Lemma pushSmart_spec (maxLen : Z) (fuel : nat) (segment : string) :
  1 ≤ maxLen → (String.length segment < fuel)%nat →
  ∃ cs, Part001.pushSmart fuel segment maxLen = Some cs
        ∧ Forall (λ c, Js.len c ≤ maxLen) cs
        ∧ ∀ i x c, cs !! i = Some x → (S i < length cs)%nat →
            Js.last_char x = Some c → Js.is_space c = false.
Proof.
  intros Hm. revert segment. induction fuel as [|fuel IH]; intros segment Hlen; [lia|].
  cbn [Part001.pushSmart].
  destruct (Z.ltb_spec maxLen (Js.len segment)) as [Hlt|Hge].
  - destruct (pick_cut_spec segment maxLen Hm Hlt) as (Hcut & Hless).
    set (cut := Part001.pick_cut segment maxLen) in *.
    destruct (IH (Js.trimStart (Js.slice_from segment cut))) as (cs & -> & Hall & Hlast);
      [lia|].
    eexists; split; [done|]. split.
    + constructor; [|done]. rewrite JsFacts.slice_0 by lia.
      pose proof (trimEnd_length (Js.take (Z.to_nat cut) segment)) as Hle.
      rewrite JsFacts.length_take in Hle. unfold Js.len. lia.
    + intros [|i] x c Hx Hi Hc.
      * injection Hx as <-. by apply trimEnd_last in Hc.
      * apply (Hlast i x c Hx); [simpl in Hi; lia | done].
  - eexists; split; [done|]. split.
    + destruct (Js.truthy segment); [by constructor | done].
    + intros i x c Hx Hi. destruct (Js.truthy segment); simpl in Hi; lia.
Qed.

Lemma split_paragraphs_one (fuel : nat) (s : string) :
  Js.includes_char Js.LF s = false → Js.split_paragraphs_fuel fuel s = [s].
Proof.
  revert s. induction fuel as [|fuel IH]; intros s Hs; [done|].
  destruct s as [|c s]; [done|].
  cbn [Js.includes_char] in Hs. apply orb_false_iff in Hs as [Hc Hs].
  cbn [Js.split_paragraphs_fuel]. rewrite (IH s Hs), Hc.
  by destruct s.
Qed.

Lemma drop_drop (a b : nat) (s : string) : Js.drop a (Js.drop b s) = Js.drop (b + a) s.
Proof.
  revert s. induction b as [|b IH]; intros s; [done|].
  destruct s as [|c s]; [by destruct a|]. apply IH.
Qed.

Lemma slice_within (s : string) (a b : Z) :
  0 ≤ a ≤ b → b ≤ Js.len s →
  Js.slice s a b = Js.take (Z.to_nat (b - a)) (Js.drop (Z.to_nat a) s).
Proof.
  intros Ha Hb. unfold Js.slice. rewrite !JsFacts.rel_index_nonneg by lia.
  by rewrite !Z.min_l by lia.
Qed.

Lemma len_take (s : string) (n : Z) :
  0 ≤ n ≤ Js.len s → Js.len (Js.take (Z.to_nat n) s) = n.
Proof. intros Hn. unfold Js.len in *. rewrite JsFacts.length_take. lia. Qed.

Lemma len_drop (s : string) (n : Z) :
  0 ≤ n ≤ Js.len s → Js.len (Js.drop (Z.to_nat n) s) = Js.len s - n.
Proof. intros Hn. unfold Js.len in *. rewrite JsFacts.length_drop. lia. Qed.

Lemma last_char_take (n : nat) (s : string) :
  (n < String.length s)%nat → Js.last_char (Js.take (S n) s) = String.get n s.
Proof.
  revert s. induction n as [|n IH]; intros [|c s] Hn; simpl in Hn; try lia.
  - by destruct s.
  - specialize (IH s ltac:(lia)). cbn [Js.take String.get] in *.
    rewrite <- IH. destruct s as [|c' s]; [simpl in Hn; lia | done].
Qed.

Lemma get_drop (a n : nat) (s : string) :
  String.get n (Js.drop a s) = String.get (a + n) s.
Proof.
  revert s. induction a as [|a IH]; intros s; [done|].
  destruct s as [|c s]; [by destruct n | apply IH].
Qed.

Lemma len_slice (s : string) (a b : Z) :
  0 ≤ a ≤ b → b ≤ Js.len s → Js.len (Js.slice s a b) = b - a.
Proof.
  intros Ha Hb. rewrite slice_within by lia.
  rewrite len_take; [lia|]. rewrite len_drop; lia.
Qed.

Lemma last_char_slice (s : string) (a b : Z) :
  0 ≤ a < b → b ≤ Js.len s →
  Js.last_char (Js.slice s a b) = String.get (Z.to_nat (b - 1)) s.
Proof.
  intros Ha Hb. rewrite slice_within by lia.
  replace (Z.to_nat (b - a)) with (S (Z.to_nat (b - a - 1))) by lia.
  rewrite last_char_take by (rewrite JsFacts.length_drop; unfold Js.len in Hb; lia).
  rewrite get_drop. f_equal. lia.
Qed.

(** The three segments of a text of 5000 characters *)
Lemma chunk_5000 (text : string) :
  Js.len text = 5000 →
  Ollama.chunkDiscordMessage text 1900 =
  Some [Js.slice text 0 1900; Js.slice text 1900 3800; Js.slice text 3800 5000].
Proof.
  intros Hlen.
  rewrite chunk_unfold, Hlen by lia. change (1900 <? 5000) with true. cbv iota.
  rewrite JsFacts.slice_from_nonneg by lia.
  set (r1 := Js.drop (Z.to_nat 1900) text).
  assert (Js.len r1 = 3100) as H1 by (unfold r1; rewrite len_drop; lia).
  rewrite chunk_unfold, H1 by lia. change (1900 <? 3100) with true. cbv iota.
  rewrite JsFacts.slice_from_nonneg by lia.
  set (r2 := Js.drop (Z.to_nat 1900) r1).
  assert (Js.len r2 = 1200) as H2 by (unfold r2; rewrite len_drop; lia).
  rewrite chunk_unfold, H2 by lia. change (1900 <? 1200) with false. cbv iota.
  assert (Js.truthy r2 = true) as -> by (apply truthy_length; unfold Js.len in H2; lia).
  assert (Js.slice r1 0 1900 = Js.slice text 1900 3800) as ->.
  { rewrite JsFacts.slice_0, slice_within by lia. done. }
  assert (r2 = Js.slice text 3800 5000) as ->; [|done].
  rewrite slice_within by lia. unfold r2, r1. rewrite drop_drop.
  replace (Z.to_nat 1900 + Z.to_nat 1900)%nat with (Z.to_nat 3800) by lia.
  symmetry. apply JsFacts.take_all. rewrite JsFacts.length_drop.
  unfold Js.len in Hlen. lia.
Qed.

End ChunkFacts.

(** C10. For the chunker that src/llm/ollama.js exports, every text and
    every [maxLen] of at least 1: the function returns, and its segments,
    put together in order, are the text, character for character. *)
Theorem ollama_chunks_concat (text : string) (maxLen : Z) :
  1 ≤ maxLen →
  ∃ cs, Ollama.chunkDiscordMessage text maxLen = Some cs
        ∧ Js.join EmptyString cs = text.
Proof.
  intros Hm.
  destruct (ChunkFacts.loop_spec maxLen (S (String.length text)) text Hm) as (cs & H & Hj & _);
    [lia|].
  by exists cs.
Qed.

Lemma ollama_chunks_concat_witness :
  1 ≤ 4
  ∧ ∃ cs, Ollama.chunkDiscordMessage "hello world" 4 = Some cs
          ∧ Js.join EmptyString cs = "hello world".
Proof. split; [lia | apply (ollama_chunks_concat "hello world" 4); lia]. Defined.

(** The counterexample to C5: a text of 5000 times the letter a has no
    newline, and both chunkers cut it into segments of 1900, 1900 and 1200
    times the letter a, so the first two segments end with that letter. *)
Lemma unbroken_text_hard_cut :
  Js.len unbroken_text = 5000
  ∧ Js.includes_char Js.LF unbroken_text = false
  ∧ Ollama.chunkDiscordMessage unbroken_text 1900 =
    Some [Js.replicate (Z.to_nat 1900) "a"; Js.replicate (Z.to_nat 1900) "a";
          Js.replicate (Z.to_nat 1200) "a"]
  ∧ Part001.chunkDiscordMessage unbroken_text 1900 =
    Some [Js.replicate (Z.to_nat 1900) "a"; Js.replicate (Z.to_nat 1900) "a";
          Js.replicate (Z.to_nat 1200) "a"]
  ∧ Js.last_char (Js.replicate (Z.to_nat 1900) "a") = Some "a"%char
  ∧ Js.last_char (Js.replicate (Z.to_nat 1900) "a") ≠ Some Js.SP.
Proof. repeat split; by vm_compute. Qed.

(** C5, amended. With [maxLen] 1900 the chunker that src/llm/ollama.js
    exports cuts every text of 5000 characters at the offsets 1900 and
    3800: three segments of 1900, 1900 and 1200 characters, of which the
    first two end with the characters of the text at the offsets 1899 and
    3799, whatever these are. The chunker of src/unnamed/part_001, on
    every text without a newline, returns segments of at most 1900
    characters of which none but the last ends with white space. *)
Theorem chunks_of_5000 (text : string) :
  Js.len text = 5000 →
  (Ollama.chunkDiscordMessage text 1900 =
     Some [Js.slice text 0 1900; Js.slice text 1900 3800; Js.slice text 3800 5000]
   ∧ Js.len (Js.slice text 0 1900) = 1900
   ∧ Js.len (Js.slice text 1900 3800) = 1900
   ∧ Js.len (Js.slice text 3800 5000) = 1200
   ∧ Js.last_char (Js.slice text 0 1900) = String.get (Z.to_nat 1899) text
   ∧ Js.last_char (Js.slice text 1900 3800) = String.get (Z.to_nat 3799) text)
  ∧ (Js.includes_char Js.LF text = false →
     ∃ cs, Part001.chunkDiscordMessage text 1900 = Some cs
           ∧ Forall (λ c, Js.len c ≤ 1900) cs
           ∧ ∀ i x c, cs !! i = Some x → (S i < length cs)%nat →
               Js.last_char x = Some c → Js.is_space c = false).
Proof.
  intros Hlen. split.
  - split; [by apply ChunkFacts.chunk_5000|].
    rewrite !ChunkFacts.len_slice, !ChunkFacts.last_char_slice by lia.
    done.
  - intros Hnl. unfold Part001.chunkDiscordMessage.
    assert (Js.truthy text = true) as ->
      by (apply ChunkFacts.truthy_length; unfold Js.len in Hlen; lia).
    cbn [negb]. unfold Js.split_paragraphs.
    rewrite ChunkFacts.split_paragraphs_one by done.
    cbn [Part001.push_all].
    destruct (ChunkFacts.pushSmart_spec 1900 (S (String.length text)) text)
      as (cs & -> & Hall & Hlast); [lia | lia |].
    exists (cs ++ []). rewrite app_nil_r. done.
Qed.

Lemma chunks_of_5000_witness :
  Js.len unbroken_text = 5000
  ∧ Js.includes_char Js.LF unbroken_text = false
  ∧ Ollama.chunkDiscordMessage unbroken_text 1900 =
    Some [Js.slice unbroken_text 0 1900; Js.slice unbroken_text 1900 3800;
          Js.slice unbroken_text 3800 5000]
  ∧ ∃ cs, Part001.chunkDiscordMessage unbroken_text 1900 = Some cs
          ∧ Forall (λ c, Js.len c ≤ 1900) cs.
Proof.
  assert (Js.len unbroken_text = 5000) as Hlen by (by vm_compute).
  assert (Js.includes_char Js.LF unbroken_text = false) as Hnl by (by vm_compute).
  split; [exact Hlen|]. split; [exact Hnl|].
  destruct (chunks_of_5000 unbroken_text Hlen) as ((Hcut & _) & Hsmart).
  split; [exact Hcut|].
  destruct (Hsmart Hnl) as (cs & Hcs & Hall & _).
  exists cs. split; [exact Hcs | exact Hall].
Defined.

(** The counterexample to C6: on the empty string the chunker that
    src/llm/ollama.js exports returns no segment at all. *)
Lemma ollama_chunks_of_empty_text :
  Ollama.chunkDiscordMessage EmptyString 1900 = Some []
  ∧ Ollama.chunkDiscordMessage EmptyString 1900 ≠ Some [EmptyString].
Proof. by split. Qed.

(** C6, amended. On the empty string the chunker that src/llm/ollama.js
    exports returns the empty sequence for every [maxLen] from 0 on, and its
    callers in src/index.js then show the placeholder in place of a first
    segment; the chunker of src/unnamed/part_001 returns exactly one
    segment, the empty one. *)
Theorem chunks_of_empty_text (maxLen : Z) :
  0 ≤ maxLen →
  Ollama.chunkDiscordMessage EmptyString maxLen = Some []
  ∧ first_reply_text [] = "(empty response)"
  ∧ Part001.chunkDiscordMessage EmptyString maxLen = Some [EmptyString].
Proof.
  intros Hm. repeat split.
  unfold Ollama.chunkDiscordMessage. cbn [String.length Ollama.loop].
  change (Js.len EmptyString) with 0.
  by destruct (Z.ltb_spec maxLen 0); [lia|].
Qed.

Lemma chunks_of_empty_text_witness :
  0 ≤ 1900
  ∧ Ollama.chunkDiscordMessage EmptyString 1900 = Some []
  ∧ first_reply_text [] = "(empty response)"
  ∧ Part001.chunkDiscordMessage EmptyString 1900 = Some [EmptyString].
Proof. split; [lia | apply (chunks_of_empty_text 1900); lia]. Defined.

(** ** The store and the scheduler *)

Module TextOrder.

Lemma ascii_compare_refl (x : ascii) : Ascii.compare x x = Eq.
Proof. unfold Ascii.compare. apply N.compare_refl. Qed.

Lemma ascii_compare_lt_trans (x y z : ascii) :
  Ascii.compare x y = Lt → Ascii.compare y z = Lt → Ascii.compare x z = Lt.
Proof.
  unfold Ascii.compare. rewrite !N.compare_lt_iff. apply N.lt_trans.
Qed.

Lemma compare_refl (s : string) : String.compare s s = Eq.
Proof.
  induction s as [|c s IH]; [done|]. simpl. by rewrite ascii_compare_refl.
Qed.

Lemma leb_refl (s : string) : String.leb s s = true.
Proof. unfold String.leb. by rewrite compare_refl. Qed.

Lemma leb_trans (a b c : string) :
  String.leb a b = true → String.leb b c = true → String.leb a c = true.
Proof.
  revert b c. induction a as [|x a IH]; intros [|y b] [|z c]; try done.
  unfold String.leb in *. simpl.
  destruct (Ascii.compare x y) eqn:Exy; [| |done].
  - apply Ascii.compare_eq_iff in Exy as ->.
    destruct (Ascii.compare y z) eqn:Eyz; [apply IH | done | done].
  - destruct (Ascii.compare y z) eqn:Eyz; [| |done].
    + apply Ascii.compare_eq_iff in Eyz as <-. by rewrite Exy.
    + by rewrite (ascii_compare_lt_trans x y z).
Qed.

#[global] Instance text_le_total : Total text_le.
Proof.
  intros a b. unfold text_le.
  destruct (String.leb_total a b) as [-> | ->]; [by left | by right].
Qed.

#[global] Instance text_le_trans : Transitive text_le.
Proof.
  intros a b c. unfold text_le. rewrite !Is_true_true. apply leb_trans.
Qed.

#[global] Instance run_at_le_total : Total run_at_le.
Proof. intros a b. apply text_le_total. Qed.

#[global] Instance run_at_le_trans : Transitive run_at_le.
Proof. intros a b c. apply text_le_trans. Qed.

Lemma compare_lt_trans (a b c : string) :
  String.compare a b = Lt → String.compare b c = Lt → String.compare a c = Lt.
Proof.
  intros Hab Hbc.
  assert (String.leb a c = true) as Hac.
  { apply (leb_trans a b c); unfold String.leb; by rewrite ?Hab, ?Hbc. }
  unfold String.leb in Hac. destruct (String.compare a c) eqn:E; [|done|done].
  apply String.compare_eq_iff in E as ->.
  rewrite String.compare_antisym, Hbc in Hab. done.
Qed.

#[global] Instance due_le_total : Total due_le.
Proof.
  intros a b. unfold due_le.
  rewrite (String.compare_antisym (run_at_iso b.2) (run_at_iso a.2)).
  destruct (String.compare (run_at_iso a.2) (run_at_iso b.2)); simpl;
    [lia | by left | by right].
Qed.

#[global] Instance due_le_trans : Transitive due_le.
Proof.
  intros a b c. unfold due_le.
  destruct (String.compare (run_at_iso a.2) (run_at_iso b.2)) eqn:Hab; [| |done].
  - apply String.compare_eq_iff in Hab as ->.
    destruct (String.compare (run_at_iso b.2) (run_at_iso c.2)); [lia | done | done].
  - destruct (String.compare (run_at_iso b.2) (run_at_iso c.2)) eqn:Hbc; [| |done].
    + apply String.compare_eq_iff in Hbc as <-. by rewrite Hab.
    + by rewrite (compare_lt_trans _ _ _ Hab Hbc).
Qed.

End TextOrder.

Module StoreFacts.

Lemma set_delivered_idemp (r : reminder) :
  set_delivered (set_delivered r) = set_delivered r.
Proof. done. Qed.

Lemma set_delivered_id (r : reminder) : delivered r = true → set_delivered r = r.
Proof. destruct r; simpl; by intros ->. Qed.

(** No key of the table is above [max_rowid]. *)
Lemma max_rowid_ge (m : gmap Z reminder) (id : Z) (r : reminder) :
  m !! id = Some r → id ≤ max_rowid m.
Proof.
  intros H%elem_of_map_to_list. unfold max_rowid.
  apply (list_elem_of_fmap_2 fst) in H. simpl in H.
  induction H as [x l | x y l _ IH]; simpl; lia.
Qed.

(** The id of an inserted row is not in use. *)
Lemma insert_id_fresh (d : db) :
  reminders d !! (Z.max (reminders_seq d) (max_rowid (reminders d)) + 1) = None.
Proof.
  destruct (reminders d !! _) as [r|] eqn:E; [|done].
  apply max_rowid_ge in E. lia.
Qed.

(** The rows that [dueReminders] returns are the due rows of the table,
    each once, in ascending order of [run_at_iso]. *)
Lemma dueReminders_elem (nowISO : string) (d : db) (id : Z) (r : reminder) :
  (id, r) ∈ dueReminders nowISO d ↔ reminders d !! id = Some r ∧ is_due nowISO (id, r).
Proof.
  unfold dueReminders. rewrite merge_sort_Permutation, list_elem_of_filter.
  rewrite elem_of_map_to_list. tauto.
Qed.

Lemma dueReminders_sorted (nowISO : string) (d : db) :
  StronglySorted due_le (dueReminders nowISO d).
Proof. apply StronglySorted_merge_sort; apply _. Qed.

(** In a sorted list an earlier element is below a later one. *)
Lemma StronglySorted_lookup {A} (R : relation A) (l : list A) (i j : nat) (a b : A) :
  StronglySorted R l → (i < j)%nat → l !! i = Some a → l !! j = Some b → R a b.
Proof.
  intros Hs. revert i j. induction Hs as [|x l Hs IH Hx]; intros i j Hij Ha Hb; [done|].
  destruct j as [|j]; [lia|]. cbn in Hb. destruct i as [|i].
  - injection Ha as <-. rewrite Forall_forall in Hx. apply Hx.
    by eapply list_elem_of_lookup_2.
  - cbn in Ha. apply (IH i j); [lia | done | done].
Qed.

Lemma dueReminders_NoDup (nowISO : string) (d : db) :
  NoDup (dueReminders nowISO d).*1.
Proof.
  unfold dueReminders. rewrite merge_sort_Permutation.
  apply (sublist_NoDup _ (map_to_list (reminders d)).*1); [apply NoDup_fst_map_to_list|].
  apply fmap_sublist, sublist_filter.
Qed.

End StoreFacts.

Module TickFacts.

Lemma foldl_attempt_users (deliver : row → bool) (rows : list row) (d : db) :
  users (foldl (Scheduler.attempt deliver) d rows) = users d
  ∧ reminders_seq (foldl (Scheduler.attempt deliver) d rows) = reminders_seq d.
Proof.
  revert d. induction rows as [|r rows IH]; intros d; [done|].
  cbn [foldl]. destruct (IH (Scheduler.attempt deliver d r)) as [-> ->].
  unfold Scheduler.attempt. by destruct (deliver r).
Qed.

Lemma foldl_attempt_lookup (deliver : row → bool) (rows : list row) (d : db) (id : Z) :
  reminders (foldl (Scheduler.attempt deliver) d rows) !! id =
  if bool_decide (id ∈ Scheduler.marked deliver rows)
  then set_delivered <$> reminders d !! id
  else reminders d !! id.
Proof.
  revert d. induction rows as [|r rows IH]; intros d; [done|].
  cbn [foldl]. rewrite IH. unfold Scheduler.marked, Scheduler.attempt.
  destruct (deliver r) eqn:Er.
  - rewrite (filter_cons_True _ r) by (by rewrite Er).
    rewrite fmap_cons. cbn [markDelivered reminders]. rewrite lookup_alter.
    destruct (decide (r.1 = id)) as [<-|Hne].
    + rewrite (bool_decide_eq_true_2 (r.1 ∈ r.1 :: _)) by apply list_elem_of_here.
      destruct (bool_decide _); by destruct (reminders d !! r.1).
    + rewrite (bool_decide_ext (id ∈ r.1 :: _) (id ∈ (filter (λ r, Is_true (deliver r)) rows).*1));
        [done|]. rewrite elem_of_cons. split; [intros [->|?]; done | by right].
  - by rewrite (filter_cons_False _ r) by (rewrite Er; exact (λ H, H)).
Qed.

End TickFacts.

Lemma marked_elem (deliver : row → bool) (nowISO : string) (d : db) (id : Z) :
  id ∈ Scheduler.marked deliver (dueReminders nowISO d) ↔
  ∃ r, reminders d !! id = Some r ∧ is_due nowISO (id, r) ∧ deliver (id, r) = true.
Proof.
  unfold Scheduler.marked. rewrite list_elem_of_fmap. split.
  - intros ([id' r] & -> & [Hd Hin]%list_elem_of_filter).
    apply StoreFacts.dueReminders_elem in Hin as [Hl Hdue].
    exists r. by rewrite <- Is_true_true.
  - intros (r & Hl & Hdue & Hd). exists (id, r). split; [done|].
    apply list_elem_of_filter. rewrite Is_true_true.
    split; [done|]. by apply StoreFacts.dueReminders_elem.
Qed.

(** The row of each id after a tick *)
Lemma tick_lookup (now : Z) (deliver : row → bool) (d : db) (id : Z) :
  reminders (Scheduler.tick now deliver d).2 !! id =
  (λ r, if bool_decide (is_due (Iso.toISO now) (id, r)) && deliver (id, r)
        then set_delivered r else r) <$> reminders d !! id.
Proof.
  unfold Scheduler.tick. cbn [snd]. rewrite TickFacts.foldl_attempt_lookup.
  destruct (reminders d !! id) as [r|] eqn:E.
  - simpl. case_bool_decide as Hm.
    + apply marked_elem in Hm as (r' & Hr' & Hdue & Hd).
      assert (r' = r) as -> by congruence.
      by rewrite (bool_decide_eq_true_2 _ Hdue), Hd.
    + destruct (bool_decide (is_due _ _)) eqn:Hdue; [|done].
      destruct (deliver (id, r)) eqn:Hd; [|done].
      exfalso. apply Hm, marked_elem. exists r.
      by apply bool_decide_eq_true_1 in Hdue.
  - by destruct (bool_decide _).
Qed.

(** C8. A reminder whose delivery succeeded in a tick at [now] is not
    among the rows that a second tick at the same [now] attempts, whatever
    the deliveries of the second tick do. *)
Theorem tick_twice_skips_delivered (now : Z) (deliver deliver' : row → bool) (d : db)
    (id : Z) (r : reminder) :
  (id, r) ∈ (Scheduler.tick now deliver d).1 →
  deliver (id, r) = true →
  id ∉ (Scheduler.tick now deliver' (Scheduler.tick now deliver d).2).1.*1.
Proof.
  intros Hin Hd Hagain.
  apply StoreFacts.dueReminders_elem in Hin as [Hl Hdue].
  apply list_elem_of_fmap in Hagain as ([id' r'] & -> & Hin').
  apply StoreFacts.dueReminders_elem in Hin' as [Hl' [Hund _]].
  cbn [fst snd] in *. rewrite tick_lookup, Hl in Hl'. simpl in Hl'.
  rewrite (bool_decide_eq_true_2 _ Hdue), Hd in Hl'.
  injection Hl' as <-. done.
Qed.

Lemma tick_twice_skips_delivered_witness :
  (1, example_reminder) ∈ (Scheduler.tick example_instant (λ _, true) example_db).1
  ∧ (λ _ : row, true) (1, example_reminder) = true
  ∧ 1 ∉ (Scheduler.tick example_instant (λ _, false)
           (Scheduler.tick example_instant (λ _, true) example_db).2).1.*1.
Proof.
  assert ((1, example_reminder)
          ∈ (Scheduler.tick example_instant (λ _, true) example_db).1) as Hin
    by (vm_compute; constructor).
  split; [exact Hin|]. split; [reflexivity|].
  exact (tick_twice_skips_delivered example_instant (λ _, true) (λ _, false)
           example_db 1 example_reminder Hin eq_refl).
Defined.

(** A reminder whose delivery failed is attempted again by every tick at
    the same or a later timestamp. *)
Lemma failed_delivery_is_retried (now now' : Z) (deliver deliver' : row → bool) (d : db)
    (id : Z) (r : reminder) :
  (id, r) ∈ (Scheduler.tick now deliver d).1 →
  deliver (id, r) = false →
  text_le (Iso.toISO now) (Iso.toISO now') →
  (id, r) ∈ (Scheduler.tick now' deliver' (Scheduler.tick now deliver d).2).1.
Proof.
  intros Hin Hd Hle.
  apply StoreFacts.dueReminders_elem in Hin as [Hl [Hund Hdue]].
  apply StoreFacts.dueReminders_elem. split.
  - rewrite tick_lookup, Hl. simpl. by rewrite Hd, andb_false_r.
  - split; [done|]. cbn [snd] in *. by etrans.
Qed.

(** ** The command [remind] *)

(** The counterexample to C4: a request whose time parses to the very
    instant of the clock is not strictly after it, and yet the command
    saves a reminder for it. *)
Lemma remind_at_the_current_instant :
  example_fromFormat "2026-11-02 00:00" "UTC" = Some example_instant
  ∧ ¬ (example_instant < example_instant)
  ∧ (Commands.remind "UTC" example_fromFormat example_instant "user" "channel" None
       "tea" "2026-11-02 00:00" empty_db).1 = ReminderSaved example_instant "UTC"
  ∧ reminders (Commands.remind "UTC" example_fromFormat example_instant "user" "channel"
                 None "tea" "2026-11-02 00:00" empty_db).2 !! 1
    = Some (Reminder "user" "channel" None "tea" "2026-11-02T00:00:00.000Z" false
              "2026-11-02T00:00:00.000Z")
  ∧ Commands.remind "UTC" example_fromFormat example_instant "user" "channel" None
      "tea" "2026-11-02 00:00" empty_db ≠ (PastTime, empty_db).
Proof. split; [done|]. split; [lia|]. repeat split; by vm_compute. Qed.

(** C4, amended. A request whose time parses, in the zone of the user, to
    an instant strictly before the instant of the clock gets the past-time
    reply and leaves the store as it was; a request whose instant is the
    instant of the clock or a later one is saved as a new row that is not
    delivered. *)
Theorem remind_rejects_past (DEFAULT_TZ : string) (fromFormat : string → string → option Z)
    (now : Z) (user channel : string) (guild : option string) (txt when : string)
    (d : db) (dt : Z) :
  fromFormat when (Commands.zone_of DEFAULT_TZ user d) = Some dt →
  (dt < now →
   Commands.remind DEFAULT_TZ fromFormat now user channel guild txt when d = (PastTime, d))
  ∧ (now ≤ dt →
     ∃ id,
       reminders d !! id = None
       ∧ Commands.remind DEFAULT_TZ fromFormat now user channel guild txt when d =
         (ReminderSaved dt (Commands.zone_of DEFAULT_TZ user d),
          Db (users d)
             (<[id := Reminder user channel guild txt (Iso.toISO dt) false (Iso.toISO now)]>
                (reminders d))
             id)).
Proof.
  intros Hparse. unfold Commands.remind. rewrite Hparse. split; intros Hcmp.
  - by destruct (Z.ltb_spec dt now); [|lia].
  - destruct (Z.ltb_spec dt now); [lia|].
    eexists. split; [apply StoreFacts.insert_id_fresh | done].
Qed.

Lemma remind_rejects_past_witness :
  example_fromFormat "2026-11-02 00:00" (Commands.zone_of "UTC" "user" empty_db)
    = Some example_instant
  ∧ Commands.remind "UTC" example_fromFormat (example_instant + 1) "user" "channel" None
      "tea" "2026-11-02 00:00" empty_db = (PastTime, empty_db).
Proof.
  split; [reflexivity|].
  apply (remind_rejects_past "UTC" example_fromFormat (example_instant + 1) "user"
           "channel" None "tea" "2026-11-02 00:00" empty_db example_instant eq_refl).
  unfold example_instant. lia.
Defined.

(** ** The life of a reminder *)

Module LifeFacts.

Section Steps.

Variable DEFAULT_TZ : string.
Variable fromFormat : string → string → option Z.
Variable validZone : string → bool.

Local Abbreviation step := (Commands.step DEFAULT_TZ fromFormat validZone).

(** A row that a step finds is still there after the step, and the one
    change it may show is its flag [delivered] set. *)
Lemma step_keeps (d d' : db) (id : Z) (r : reminder) :
  step d d' → reminders d !! id = Some r →
  ∃ r', reminders d' !! id = Some r'
        ∧ (r' = r ∨ (delivered r = false ∧ r' = set_delivered r)).
Proof.
  intros Hstep Hr. destruct Hstep as [user tz d | now user channel guild txt when d | now deliver d].
  - exists r. split; [|by left]. unfold Commands.settz.
    by destruct (negb _).
  - exists r. split; [|by left]. unfold Commands.remind.
    destruct (fromFormat _ _) as [dt|]; [|done].
    destruct (dt <? now); [done|]. cbn [snd insertReminder reminders].
    rewrite lookup_insert_ne; [done|].
    intros Heq. pose proof (StoreFacts.insert_id_fresh d) as Hfresh.
    rewrite Heq in Hfresh. congruence.
  - rewrite tick_lookup, Hr. simpl.
    destruct (bool_decide _) eqn:Hdue; [|eexists; split; [done | by left]].
    apply bool_decide_eq_true_1 in Hdue as [Hund _].
    destruct (deliver (id, r)); eexists; (split; [done|]); [by right | by left].
Qed.

(** A row that a step adds is not delivered. *)
Lemma step_adds_undelivered (d d' : db) (id : Z) (r' : reminder) :
  step d d' → reminders d !! id = None → reminders d' !! id = Some r' →
  delivered r' = false.
Proof.
  intros Hstep Hn Hr'.
  destruct Hstep as [user tz d | now user channel guild txt when d | now deliver d].
  - unfold Commands.settz in Hr'. destruct (negb _); simpl in Hr'; congruence.
  - unfold Commands.remind in Hr'.
    destruct (fromFormat _ _) as [dt|]; [|simpl in Hr'; congruence].
    destruct (dt <? now); [simpl in Hr'; congruence|].
    cbn [snd insertReminder reminders] in Hr'.
    apply lookup_insert_Some in Hr' as [[_ <-] | [_ Hr']]; [done | congruence].
  - rewrite tick_lookup, Hn in Hr'. done.
Qed.

Lemma steps_keep (d d' : db) (id : Z) (r : reminder) :
  rtc step d d' → reminders d !! id = Some r →
  ∃ r', reminders d' !! id = Some r'
        ∧ (r' = r ∨ (delivered r = false ∧ r' = set_delivered r)).
Proof.
  intros Hsteps. revert r. induction Hsteps as [d | d d1 d2 Hstep _ IH]; intros r Hr.
  - exists r. split; [done | by left].
  - destruct (step_keeps d d1 id r Hstep Hr) as (r1 & Hr1 & Hev1).
    destruct (IH r1 Hr1) as (r2 & Hr2 & Hev2).
    exists r2. split; [done|].
    destruct Hev1 as [-> | [Hf ->]]; [done|].
    destruct Hev2 as [-> | [Hf2 ->]]; [by right | done].
Qed.

(** In a store that the operations build from the empty one, the ids run
    from 1 to the counter of the table. *)
Lemma reachable_ids (d : db) :
  Commands.reachable DEFAULT_TZ fromFormat validZone d →
  0 ≤ reminders_seq d
  ∧ ∀ id r, reminders d !! id = Some r → 1 ≤ id ≤ reminders_seq d.
Proof.
  unfold Commands.reachable. revert d. apply rtc_ind_r; [done|].
  intros d1 d2 _ Hstep [IH0 IH].
  destruct Hstep as [user tz d | now user channel guild txt when d | now deliver d].
  - unfold Commands.settz. by destruct (negb _).
  - unfold Commands.remind.
    destruct (fromFormat _ _) as [dt|]; [|done].
    destruct (dt <? now); [done|].
    cbn [snd insertReminder reminders reminders_seq].
    assert (0 ≤ max_rowid (reminders d)) as Hmax.
    { unfold max_rowid. induction ((map_to_list (reminders d)).*1); simpl; lia. }
    split; [lia|]. intros id r [[<- _] | [Hne Hr]]%lookup_insert_Some; [lia|].
    specialize (IH id r Hr). lia.
  - destruct (TickFacts.foldl_attempt_users deliver (dueReminders (Iso.toISO now) d) d)
      as [_ Hseq].
    unfold Scheduler.tick at 1 3. cbn [snd]. rewrite Hseq. split; [done|].
    intros id r Hr. rewrite tick_lookup in Hr.
    destruct (reminders d !! id) as [r0|] eqn:E; [|done].
    by apply (IH id r0).
Qed.
End Steps.

End LifeFacts.

(** C7. Under the operations of the program on the store (the commands
    [settz] and [remind] and the ticks of the scheduler), from any store:
    a row that an operation adds is not delivered; and a row, once in the
    table, stays in it through all later operations, where the one change
    it may show is its flag [delivered] going from false to true, so that
    a delivered row stays delivered and equal to itself. *)
Theorem reminder_lifecycle (DEFAULT_TZ : string) (fromFormat : string → string → option Z)
    (validZone : string → bool) (d d' d'' : db) (id : Z) (r' : reminder) :
  Commands.step DEFAULT_TZ fromFormat validZone d d' →
  rtc (Commands.step DEFAULT_TZ fromFormat validZone) d' d'' →
  reminders d' !! id = Some r' →
  (reminders d !! id = None → delivered r' = false)
  ∧ ∃ r'', reminders d'' !! id = Some r''
           ∧ (r'' = r' ∨ (delivered r' = false ∧ r'' = set_delivered r'))
           ∧ (delivered r' = true → r'' = r').
Proof.
  intros Hstep Hsteps Hr'. split.
  - intros Hn. by apply (LifeFacts.step_adds_undelivered _ _ _ d d' id r' Hstep).
  - destruct (LifeFacts.steps_keep _ _ _ d' d'' id r' Hsteps Hr') as (r'' & Hr'' & Hev).
    exists r''. split; [done|]. split; [done|].
    intros Ht. destruct Hev as [-> | [Hf _]]; [done | congruence].
Qed.

Lemma reminder_lifecycle_witness :
  reminders example_db !! 1 = Some example_reminder
  ∧ ∃ r'', reminders (Scheduler.tick example_instant (λ _, true) example_db).2 !! 1
           = Some r''
           ∧ (r'' = example_reminder
              ∨ (delivered example_reminder = false ∧ r'' = set_delivered example_reminder)).
Proof.
  assert (reminders example_db !! 1 = Some example_reminder) as Hrow by (by vm_compute).
  split; [exact Hrow|].
  destruct (reminder_lifecycle "UTC" example_fromFormat (λ _, true)
              empty_db example_db
              (Scheduler.tick example_instant (λ _, true) example_db).2 1 example_reminder)
    as (_ & r'' & Hr'' & Hev & _).
  - apply (Commands.step_remind "UTC" example_fromFormat (λ _, true) 0 "user" "channel"
             None "tea" "2026-11-02 00:00" empty_db).
  - apply rtc_once.
    apply (Commands.step_tick "UTC" example_fromFormat (λ _, true) example_instant
             (λ _, true) example_db).
  - exact Hrow.
  - exists r''. by split.
Defined.

(** ** Timestamps *)

Module IsoFacts.

Lemma compare_app_same (x y y' : string) :
  String.compare (x +:+ y) (x +:+ y') = String.compare y y'.
Proof.
  induction x as [|c x IH]; [done|]. simpl.
  by rewrite TextOrder.ascii_compare_refl.
Qed.

Lemma compare_app_lt (x x' y y' : string) :
  String.length x = String.length x' →
  String.compare x x' = Lt → String.compare (x +:+ y) (x' +:+ y') = Lt.
Proof.
  revert x'. induction x as [|c x IH]; intros [|c' x'] Hlen; simpl in *; try done.
  destruct (Ascii.compare c c'); [|done|done].
  apply IH. lia.
Qed.

Lemma length_digits (w : nat) (n : Z) : String.length (Iso.digits w n) = w.
Proof.
  revert n. induction w as [|w IH]; intros n; [done|].
  cbn [Iso.digits]. rewrite JsFacts.length_append, IH. simpl. lia.
Qed.

Lemma digit_compare (a b : Z) :
  Ascii.compare (Iso.digit a) (Iso.digit b) = (a mod 10 ?= b mod 10).
Proof.
  unfold Ascii.compare, Iso.digit.
  pose proof (Z.mod_pos_bound a 10 ltac:(lia)).
  pose proof (Z.mod_pos_bound b 10 ltac:(lia)).
  rewrite !N_ascii_embedding by lia.
  rewrite <- N2Z.inj_compare, !N2Z.inj_add, !Z2N.id by lia.
  apply Z.add_compare_mono_l.
Qed.

(** Numbers of [w] digits compare as their digits do. *)
Lemma digits_lt (w : nat) (a b : Z) :
  0 ≤ a → a < b → b < 10 ^ Z.of_nat w →
  String.compare (Iso.digits w a) (Iso.digits w b) = Lt.
Proof.
  revert a b. induction w as [|w IH]; intros a b Ha Hab Hb.
  - simpl in Hb. lia.
  - cbn [Iso.digits].
    rewrite Nat2Z.inj_succ, Z.pow_succ_r in Hb by lia.
    destruct (Z.lt_ge_cases (a / 10) (b / 10)) as [Hq|Hq].
    + apply compare_app_lt; [by rewrite !length_digits|].
      apply IH; [apply Z.div_pos; lia | done |].
      apply Z.div_lt_upper_bound; lia.
    + assert (a / 10 = b / 10) as Heq.
      { apply Z.le_antisymm; [apply Z.div_le_mono; lia | done]. }
      rewrite Heq, compare_app_same. simpl. rewrite digit_compare.
      pose proof (Z.div_mod a 10 ltac:(lia)). pose proof (Z.div_mod b 10 ltac:(lia)).
      assert (a mod 10 < b mod 10) as Hlt by lia.
      by apply Z.compare_lt_iff in Hlt as ->.
Qed.

(** A field of [w] digits in front of two timestamps *)
Lemma field_lt (w : nat) (a b : Z) (r r' : string) :
  0 ≤ a → a < b → b < 10 ^ Z.of_nat w →
  String.compare (Iso.digits w a +:+ r) (Iso.digits w b +:+ r') = Lt.
Proof.
  intros. apply compare_app_lt; [by rewrite !length_digits | by apply digits_lt].
Qed.

Lemma all_from_spec (f : Z → bool) (n : nat) (i j : Z) :
  Iso.all_from f n i = true → i ≤ j < i + Z.of_nat n → f j = true.
Proof.
  revert i. induction n as [|n IH]; intros i H Hj; [lia|].
  cbn [Iso.all_from] in H. apply andb_true_iff in H as [Hi Hrest].
  destruct (decide (j = i)) as [->|Hne]; [done|].
  apply (IH (i + 1)); [done | lia].
Qed.

(** Every year of an era and every day of a year pass their checks; by
    computation over the 400 years and the 366 days. *)
Lemma years_ok : Iso.all_from Iso.year_ok 400 0 = true.
Proof. vm_cast_no_check (eq_refl true). Qed.

Lemma year_days_ok : Iso.all_from Iso.year_day_ok 366 0 = true.
Proof. vm_cast_no_check (eq_refl true). Qed.

Lemma year_ok_true (y : Z) : 0 ≤ y < 400 → Iso.year_ok y = true.
Proof. intros Hy. apply (all_from_spec _ _ _ y years_ok). lia. Qed.

Lemma year_day_ok_true (doy : Z) : 0 ≤ doy < 366 → Iso.year_day_ok doy = true.
Proof. intros Hd. apply (all_from_spec _ _ _ doy year_days_ok). lia. Qed.

(** The year of the era does not decrease from a day to the next. *)
Lemma year_of_era_day_step (doe : Z) :
  0 ≤ doe < 146096 → Iso.year_of_era_day doe ≤ Iso.year_of_era_day (doe + 1).
Proof.
  intros Hd. unfold Iso.year_of_era_day. apply Z.div_le_mono; [lia|].
  Z.to_euclidean_division_equations. lia.
Qed.

(** A function on an interval of the integers that does not decrease (or
    that increases) from each to the next does so throughout. *)
Lemma steps_le (f : Z → Z) (lo hi : Z) :
  (∀ i, lo ≤ i < hi → f i ≤ f (i + 1)) →
  ∀ i j, lo ≤ i → i ≤ j → j ≤ hi → f i ≤ f j.
Proof.
  intros Hstep i j Hi Hij Hj.
  assert (∃ k, 0 ≤ k ∧ j = i + k) as (k & Hk & ->) by (exists (j - i); lia).
  clear Hij. revert Hj. pattern k. apply natlike_ind; [| |done].
  - intros _. rewrite Z.add_0_r. lia.
  - intros n Hn IH Hb. etrans; [apply IH; lia|].
    replace (i + Z.succ n) with (i + n + 1) by lia. apply Hstep. lia.
Qed.

Lemma steps_lt (f : Z → Z) (lo hi : Z) :
  (∀ i, lo ≤ i < hi → f i < f (i + 1)) →
  ∀ i j, lo ≤ i → i < j → j ≤ hi → f i < f j.
Proof.
  intros Hstep i j Hi Hij Hj.
  assert (f (i + 1) ≤ f j); [|specialize (Hstep i); lia].
  apply (steps_le f lo hi); [|lia..].
  intros k Hk. specialize (Hstep k Hk). lia.
Qed.

Lemma year_of_era_day_mono (i j : Z) :
  0 ≤ i → i ≤ j → j ≤ 146096 → Iso.year_of_era_day i ≤ Iso.year_of_era_day j.
Proof. apply (steps_le Iso.year_of_era_day 0 146096), year_of_era_day_step. Qed.

Lemma year_start_range (y : Z) : 0 ≤ y ≤ 400 → 0 ≤ Iso.year_start y ≤ 146097.
Proof.
  intros Hy. unfold Iso.year_start. Z.to_euclidean_division_equations. lia.
Qed.

(** A day of the era falls in the year whose days surround it. *)
Lemma year_of_era_day_spec (doe : Z) :
  0 ≤ doe < Iso.DAYS_PER_ERA →
  0 ≤ Iso.year_of_era_day doe < 400
  ∧ 0 ≤ doe - Iso.year_start (Iso.year_of_era_day doe) < 366.
Proof.
  unfold Iso.DAYS_PER_ERA. intros Hd.
  pose proof (year_of_era_day_mono 0 doe ltac:(lia) ltac:(lia) ltac:(lia)) as Hlo.
  pose proof (year_of_era_day_mono doe 146096 ltac:(lia) ltac:(lia) ltac:(lia)) as Hhi.
  change (Iso.year_of_era_day 0) with 0 in Hlo.
  change (Iso.year_of_era_day 146096) with 399 in Hhi.
  set (y := Iso.year_of_era_day doe) in *.
  split; [lia|].
  pose proof (year_ok_true y ltac:(lia)) as Hy. unfold Iso.year_ok in Hy.
  repeat (apply andb_true_iff in Hy as [Hy ?]).
  assert (Iso.year_start y ≤ doe) as Hstart.
  { destruct (Z.le_gt_cases (Iso.year_start y) doe) as [|Hlt]; [done|exfalso].
    destruct (decide (y = 0)) as [Hy0|Hy0].
    - rewrite Hy0 in Hlt. change (Iso.year_start 0) with 0 in Hlt. lia.
    - pose proof (year_ok_true (y - 1) ltac:(lia)) as Hp. unfold Iso.year_ok in Hp.
      repeat (apply andb_true_iff in Hp as [Hp ?]).
      replace (y - 1 + 1) with y in * by lia.
      pose proof (year_start_range y ltac:(lia)) as Hr.
      pose proof (year_of_era_day_mono doe (Iso.year_start y - 1)
                    ltac:(lia) ltac:(lia) ltac:(lia)) as Hm.
      fold y in Hm. lia. }
  split; [lia|].
  destruct (decide (y = 399)) as [Hy9|Hy9].
  { rewrite Hy9. change (Iso.year_start 399) with 145731. lia. }
  assert (doe < Iso.year_start (y + 1)); [|lia].
  destruct (Z.lt_ge_cases doe (Iso.year_start (y + 1))) as [|Hge]; [done|exfalso].
  pose proof (year_ok_true (y + 1) ltac:(lia)) as Hn. unfold Iso.year_ok in Hn.
  repeat (apply andb_true_iff in Hn as [Hn ?]).
  pose proof (year_start_range (y + 1) ltac:(lia)) as Hr.
  pose proof (year_of_era_day_mono (Iso.year_start (y + 1)) doe
                ltac:(lia) ltac:(lia) ltac:(lia)) as Hm.
  fold y in Hm. lia.
Qed.

Lemma year_day_bounds (doy : Z) :
  0 ≤ doy < 366 →
  0 ≤ (Iso.civil_of_year_day doy).1.1 ≤ 1
  ∧ 1 ≤ (Iso.civil_of_year_day doy).1.2 ≤ 12
  ∧ 1 ≤ (Iso.civil_of_year_day doy).2 ≤ 31
  ∧ Iso.date_key (Iso.civil_of_year_day doy)
    < Iso.date_key (Iso.civil_of_year_day (doy + 1)).
Proof.
  intros Hd. pose proof (year_day_ok_true doy Hd) as H.
  unfold Iso.year_day_ok in H. cbv zeta in H.
  repeat (apply andb_true_iff in H as [H ?]).
  split; [|lia]. unfold Iso.civil_of_year_day. cbv zeta. cbn [fst snd].
  destruct (_ <=? 2); lia.
Qed.

(** Within a year, a later day has a later date. *)
Lemma year_key_mono (i j : Z) :
  0 ≤ i → i < j → j ≤ 366 →
  Iso.date_key (Iso.civil_of_year_day i) < Iso.date_key (Iso.civil_of_year_day j).
Proof.
  apply (steps_lt (λ doy, Iso.date_key (Iso.civil_of_year_day doy)) 0 366).
  intros doy Hd. by apply year_day_bounds.
Qed.

Lemma year_key_range (doy : Z) :
  0 ≤ doy < 366 → 301 ≤ Iso.date_key (Iso.civil_of_year_day doy) ≤ 10229.
Proof.
  intros Hd. split.
  - destruct (decide (doy = 0)) as [->|]; [by vm_compute|].
    change 301 with (Iso.date_key (Iso.civil_of_year_day 0)).
    apply Z.lt_le_incl, year_key_mono; lia.
  - destruct (decide (doy = 365)) as [->|]; [by vm_compute|].
    change 10229 with (Iso.date_key (Iso.civil_of_year_day 365)).
    apply Z.lt_le_incl, year_key_mono; lia.
Qed.

(** The date of a day of the era as a number *)
Lemma era_key_eq (doe : Z) :
  Iso.date_key (Iso.civil_of_era_day doe) =
  Iso.year_of_era_day doe * 10000
  + Iso.date_key (Iso.civil_of_year_day (doe - Iso.year_start (Iso.year_of_era_day doe))).
Proof.
  unfold Iso.civil_of_era_day. cbv zeta.
  destruct (Iso.civil_of_year_day _) as [[a m] d]. unfold Iso.date_key. lia.
Qed.

Lemma civil_bounds (doe : Z) :
  0 ≤ doe < Iso.DAYS_PER_ERA →
  1 ≤ (Iso.civil_of_era_day doe).1.2 ≤ 12 ∧ 1 ≤ (Iso.civil_of_era_day doe).2 ≤ 31.
Proof.
  intros Hd. destruct (year_of_era_day_spec doe Hd) as (_ & Hdoy).
  pose proof (year_day_bounds _ Hdoy) as (_ & Hm & Hday & _).
  unfold Iso.civil_of_era_day. cbv zeta.
  by destruct (Iso.civil_of_year_day _) as [[a m] d].
Qed.

(** Within an era, a later day has a later date. *)
Lemma era_key_mono (i j : Z) :
  0 ≤ i → i < j → j < Iso.DAYS_PER_ERA →
  Iso.date_key (Iso.civil_of_era_day i) < Iso.date_key (Iso.civil_of_era_day j).
Proof.
  intros Hi Hij Hj. rewrite !era_key_eq.
  destruct (year_of_era_day_spec i ltac:(lia)) as (Hyi & Hdi).
  destruct (year_of_era_day_spec j ltac:(lia)) as (Hyj & Hdj).
  pose proof (year_of_era_day_mono i j ltac:(lia) ltac:(lia)
                ltac:(unfold Iso.DAYS_PER_ERA in Hj; lia)) as Hy.
  pose proof (year_key_range _ Hdi). pose proof (year_key_range _ Hdj).
  destruct (decide (Iso.year_of_era_day i = Iso.year_of_era_day j)) as [Heq|Hne]; [|lia].
  rewrite Heq in *.
  pose proof (year_key_mono (i - Iso.year_start (Iso.year_of_era_day j))
                (j - Iso.year_start (Iso.year_of_era_day j))). lia.
Qed.

Lemma era_key_range (doe : Z) :
  0 ≤ doe < Iso.DAYS_PER_ERA →
  301 ≤ Iso.date_key (Iso.civil_of_era_day doe) ≤ 4000229.
Proof.
  intros Hd. rewrite era_key_eq.
  destruct (year_of_era_day_spec doe Hd) as (Hy & Hdoy).
  pose proof (year_key_range _ Hdoy). lia.
Qed.

(** The date of a day as a number, for every era *)
Lemma civil_from_days_key (z : Z) :
  Iso.date_key (Iso.civil_from_days z) =
  Iso.date_key (Iso.civil_of_era_day ((z + 719468) mod Iso.DAYS_PER_ERA))
  + 4000000 * ((z + 719468) / Iso.DAYS_PER_ERA).
Proof.
  unfold Iso.civil_from_days.
  destruct (Iso.civil_of_era_day _) as [[y m] d]. unfold Iso.date_key. lia.
Qed.

(** A later day has a later date. *)
Lemma date_key_mono (z z' : Z) :
  z < z' → Iso.date_key (Iso.civil_from_days z) < Iso.date_key (Iso.civil_from_days z').
Proof.
  intros Hlt. rewrite !civil_from_days_key.
  pose proof (Z.div_mod (z + 719468) Iso.DAYS_PER_ERA ltac:(done)) as E.
  pose proof (Z.div_mod (z' + 719468) Iso.DAYS_PER_ERA ltac:(done)) as E'.
  pose proof (Z.mod_pos_bound (z + 719468) Iso.DAYS_PER_ERA ltac:(done)) as B.
  pose proof (Z.mod_pos_bound (z' + 719468) Iso.DAYS_PER_ERA ltac:(done)) as B'.
  set (e := (z + 719468) / Iso.DAYS_PER_ERA) in *.
  set (e' := (z' + 719468) / Iso.DAYS_PER_ERA) in *.
  set (r := (z + 719468) mod Iso.DAYS_PER_ERA) in *.
  set (r' := (z' + 719468) mod Iso.DAYS_PER_ERA) in *.
  pose proof (era_key_range r B). pose proof (era_key_range r' B').
  destruct (Z.lt_trichotomy e e') as [He | [He | He]].
  - lia.
  - rewrite He in *. assert (r < r') by (unfold Iso.DAYS_PER_ERA in *; lia).
    pose proof (era_key_mono r r'). lia.
  - unfold Iso.DAYS_PER_ERA in *. lia.
Qed.

(** The fields of the date of a day *)
Lemma civil_from_days_fields (z : Z) :
  1 ≤ (Iso.civil_from_days z).1.2 ≤ 12 ∧ 1 ≤ (Iso.civil_from_days z).2 ≤ 31.
Proof.
  unfold Iso.civil_from_days.
  pose proof (Z.mod_pos_bound (z + 719468) Iso.DAYS_PER_ERA ltac:(done)) as B.
  pose proof (civil_bounds _ B) as (Hm & Hd).
  by destruct (Iso.civil_of_era_day _) as [[y m] d].
Qed.

(** From the year 0 to the year 9999 the year has four digits. *)
Lemma year_in_range (z : Z) :
  Iso.day_in_range z → 0 ≤ (Iso.civil_from_days z).1.1 ≤ 9999.
Proof.
  intros [Hlo Hhi].
  pose proof (civil_from_days_fields z) as (Hm & Hd).
  assert (101 ≤ Iso.date_key (Iso.civil_from_days z)) as Hk.
  { destruct (decide (z = -719528)) as [->|]; [by vm_compute|].
    change 101 with (Iso.date_key (Iso.civil_from_days (-719528))).
    apply Z.lt_le_incl, date_key_mono. lia. }
  assert (Iso.date_key (Iso.civil_from_days z) ≤ 99991231) as Hk'.
  { destruct (decide (z = 2932896)) as [->|]; [by vm_compute|].
    change 99991231 with (Iso.date_key (Iso.civil_from_days 2932896)).
    apply Z.lt_le_incl, date_key_mono. lia. }
  destruct (Iso.civil_from_days z) as [[y m] d]. unfold Iso.date_key in *.
  cbn [fst snd] in *. lia.
Qed.

Lemma iso_year_four (y : Z) : 0 ≤ y ≤ 9999 → Iso.iso_year y = Iso.digits 4 y.
Proof.
  intros Hy. unfold Iso.iso_year.
  destruct (Z.leb_spec 0 y); [|lia]. destruct (Z.leb_spec y 9999); [done | lia].
Qed.

(** Of two days from the year 0 to the year 9999, the earlier has the
    smaller date text. *)
Lemma iso_date_lt (z z' : Z) (r r' : string) :
  Iso.day_in_range z → Iso.day_in_range z' → z < z' →
  String.compare (Iso.iso_date z +:+ r) (Iso.iso_date z' +:+ r') = Lt.
Proof.
  intros Hz Hz' Hlt. unfold Iso.iso_date.
  pose proof (year_in_range z Hz) as Hy. pose proof (year_in_range z' Hz') as Hy'.
  pose proof (civil_from_days_fields z) as (Hm & Hd).
  pose proof (civil_from_days_fields z') as (Hm' & Hd').
  pose proof (date_key_mono z z' Hlt) as Hk.
  destruct (Iso.civil_from_days z) as [[y m] d].
  destruct (Iso.civil_from_days z') as [[y' m'] d'].
  unfold Iso.date_key in Hk. cbn [fst snd] in *.
  rewrite !iso_year_four by done. rewrite !JsFacts.append_assoc.
  destruct (Z.lt_trichotomy y y') as [H | [-> | H]]; [| |lia].
  { apply field_lt; simpl; lia. }
  rewrite compare_app_same, (compare_app_same "-").
  destruct (Z.lt_trichotomy m m') as [H | [-> | H]]; [| |lia].
  { apply field_lt; simpl; lia. }
  rewrite compare_app_same, (compare_app_same "-").
  apply field_lt; simpl; lia.
Qed.

(** Of two times of the day, in milliseconds, the earlier has the smaller
    time text. *)
Lemma iso_time_lt (ms ms' : Z) (r r' : string) :
  0 ≤ ms → ms < ms' → ms' < Iso.MS_PER_DAY →
  String.compare (Iso.iso_time ms +:+ r) (Iso.iso_time ms' +:+ r') = Lt.
Proof.
  intros H0 Hlt Hday. unfold Iso.iso_time, Iso.MS_PER_DAY in *.
  rewrite !JsFacts.append_assoc.
  destruct (Z.lt_trichotomy (ms / 3600000) (ms' / 3600000)) as [H | [H | H]];
    [| |Z.to_euclidean_division_equations; lia].
  { apply field_lt; [| done |]; simpl; Z.to_euclidean_division_equations; lia. }
  rewrite H, compare_app_same, (compare_app_same ":").
  destruct (Z.lt_trichotomy (ms / 60000 mod 60) (ms' / 60000 mod 60)) as [H1 | [H1 | H1]];
    [| |Z.to_euclidean_division_equations; lia].
  { apply field_lt; [| done |]; simpl; Z.to_euclidean_division_equations; lia. }
  rewrite H1, compare_app_same, (compare_app_same ":").
  destruct (Z.lt_trichotomy (ms / 1000 mod 60) (ms' / 1000 mod 60)) as [H2 | [H2 | H2]];
    [| |Z.to_euclidean_division_equations; lia].
  { apply field_lt; [| done |]; simpl; Z.to_euclidean_division_equations; lia. }
  rewrite H2, compare_app_same, (compare_app_same ".").
  apply field_lt; simpl; Z.to_euclidean_division_equations; lia.
Qed.

Lemma four_digit_year_day (ts : Z) :
  Iso.four_digit_year ts →
  Iso.day_in_range (ts / Iso.MS_PER_DAY) ∧ 0 ≤ ts mod Iso.MS_PER_DAY < Iso.MS_PER_DAY.
Proof.
  unfold Iso.four_digit_year, Iso.YEAR_0, Iso.YEAR_9999_END, Iso.day_in_range, Iso.MS_PER_DAY.
  intros H. Z.to_euclidean_division_equations. lia.
Qed.

(** Of two instants from the year 0 to the year 9999, the earlier has the
    smaller timestamp. *)
Lemma toISO_lt (a b : Z) :
  Iso.four_digit_year a → Iso.four_digit_year b → a < b →
  String.compare (Iso.toISO a) (Iso.toISO b) = Lt.
Proof.
  intros Ha Hb Hlt. unfold Iso.toISO.
  destruct (four_digit_year_day a Ha) as (Hda & Hma).
  destruct (four_digit_year_day b Hb) as (Hdb & Hmb).
  destruct (Z.lt_trichotomy (a / Iso.MS_PER_DAY) (b / Iso.MS_PER_DAY)) as [H | [H | H]].
  - by apply iso_date_lt.
  - rewrite H, compare_app_same, (compare_app_same "T").
    apply iso_time_lt; [lia | | lia].
    unfold Iso.MS_PER_DAY in *. Z.to_euclidean_division_equations. lia.
  - unfold Iso.MS_PER_DAY in *. Z.to_euclidean_division_equations. lia.
Qed.

Lemma toISO_compare (a b : Z) :
  Iso.four_digit_year a → Iso.four_digit_year b →
  String.compare (Iso.toISO a) (Iso.toISO b) = (a ?= b).
Proof.
  intros Ha Hb. destruct (Z.compare_spec a b) as [-> | Hlt | Hgt].
  - apply TextOrder.compare_refl.
  - by apply toISO_lt.
  - rewrite String.compare_antisym, (toISO_lt b a); done.
Qed.

(** The order of the timestamps is the order of the instants. *)
Lemma toISO_le (a b : Z) :
  Iso.four_digit_year a → Iso.four_digit_year b →
  text_le (Iso.toISO a) (Iso.toISO b) ↔ a ≤ b.
Proof.
  intros Ha Hb. unfold text_le, String.leb. rewrite toISO_compare by done.
  destruct (Z.compare_spec a b); simpl; split; (done || lia).
Qed.

End IsoFacts.

(** What the command [remind] stores is the timestamp of the instant it
    parsed. *)
Lemma remind_stores_toISO (DEFAULT_TZ : string) (fromFormat : string → string → option Z)
    (now : Z) (user channel : string) (guild : option string) (txt when : string)
    (d : db) (id : Z) (r : reminder) :
  reminders d !! id = None →
  reminders (Commands.remind DEFAULT_TZ fromFormat now user channel guild txt when d).2 !! id
    = Some r →
  ∃ dt, fromFormat when (Commands.zone_of DEFAULT_TZ user d) = Some dt
        ∧ now ≤ dt ∧ run_at_iso r = Iso.toISO dt ∧ delivered r = false.
Proof.
  intros Hn Hr. unfold Commands.remind in Hr.
  destruct (fromFormat _ _) as [dt|]; [|simpl in Hr; congruence].
  destruct (Z.ltb_spec dt now); [simpl in Hr; congruence|].
  cbn [snd insertReminder reminders] in Hr.
  apply lookup_insert_Some in Hr as [[_ <-] | [_ Hr]]; [|congruence].
  by exists dt.
Qed.

(** The counterexample to C9: the reminder that the command [remind]
    saves, on 2026-11-02, for 9999-12-31 23:59 in America/New_York has the
    instant 10000-01-01T04:59:00Z and the timestamp
    [+010000-01-01T04:59:00.000Z], which is not in the format of the
    timestamp of the clock and is below it in the order of the column: the
    query for the due reminders at 2026-11-02 selects a reminder that is
    due some eight thousand years later. *)
Lemma far_reminder_is_due_at_once :
  reminders far_db !! 1 = Some far_reminder
  ∧ Iso.toISO far_instant = "+010000-01-01T04:59:00.000Z"
  ∧ Iso.toISO example_instant = "2026-11-02T00:00:00.000Z"
  ∧ ¬ (far_instant ≤ example_instant)
  ∧ text_le (Iso.toISO far_instant) (Iso.toISO example_instant)
  ∧ (Scheduler.tick example_instant (λ _, true) far_db).1 = [(1, far_reminder)].
Proof.
  split; [by vm_compute|]. split; [by vm_compute|]. split; [by vm_compute|].
  split; [by vm_compute|]. split; by vm_compute.
Qed.

(** C9, amended. The command [remind] stores as [run_at_iso] the timestamp
    [toISO] of the instant it parsed, the function that also renders the
    instant of a tick; and for instants from the year 0 to the year 9999
    (UTC) the order of the column is the order of the instants: at every
    such [now] the query for the due reminders selects a row with such an
    instant exactly when the row is in the table, is not delivered and its
    instant is at or before [now]. *)
Theorem due_query_is_chronological (now t : Z) (deliver : row → bool) (d : db)
    (id : Z) (r : reminder) :
  Iso.four_digit_year now → Iso.four_digit_year t → run_at_iso r = Iso.toISO t →
  (text_le (run_at_iso r) (Iso.toISO now) ↔ t ≤ now)
  ∧ ((id, r) ∈ dueReminders (Iso.toISO now) d ↔
     reminders d !! id = Some r ∧ delivered r = false ∧ t ≤ now)
  ∧ ((id, r) ∈ (Scheduler.tick now deliver d).1 ↔
     reminders d !! id = Some r ∧ delivered r = false ∧ t ≤ now)
  ∧ (∀ DEFAULT_TZ fromFormat now0 user channel guild txt when d0 id0 r0,
       reminders d0 !! id0 = None →
       reminders (Commands.remind DEFAULT_TZ fromFormat now0 user channel guild txt
                    when d0).2 !! id0 = Some r0 →
       ∃ dt, fromFormat when (Commands.zone_of DEFAULT_TZ user d0) = Some dt
             ∧ now0 ≤ dt ∧ run_at_iso r0 = Iso.toISO dt ∧ delivered r0 = false).
Proof.
  intros Hnow Ht Hr.
  assert (text_le (run_at_iso r) (Iso.toISO now) ↔ t ≤ now) as Hle
    by (rewrite Hr; by apply IsoFacts.toISO_le).
  split; [done|].
  assert ((id, r) ∈ dueReminders (Iso.toISO now) d ↔
          reminders d !! id = Some r ∧ delivered r = false ∧ t ≤ now) as Hdue.
  { rewrite StoreFacts.dueReminders_elem. unfold is_due. cbn [snd]. tauto. }
  split; [done|]. split; [exact Hdue|].
  intros DEFAULT_TZ fromFormat now0 user channel guild txt when d0 id0 r0.
  apply remind_stores_toISO.
Qed.

Lemma due_query_is_chronological_witness :
  Iso.four_digit_year example_instant
  ∧ run_at_iso example_reminder = Iso.toISO example_instant
  ∧ ((1, example_reminder) ∈ dueReminders (Iso.toISO example_instant) example_db ↔
     reminders example_db !! 1 = Some example_reminder
     ∧ delivered example_reminder = false ∧ example_instant ≤ example_instant).
Proof.
  assert (Iso.four_digit_year example_instant) as Hy by (by vm_compute).
  split; [exact Hy|]. split; [reflexivity|].
  apply (due_query_is_chronological example_instant example_instant (λ _, true)
           example_db 1 example_reminder Hy Hy eq_refl).
Defined.

(** ** The tick of the scheduler, in instants *)

(** Two reminders for the same minute are attempted in the order of their
    ids. *)
Lemma twins_fire_in_id_order :
  (Scheduler.tick example_instant (λ _, true) twin_db).1.*1 = [1; 2].
Proof. by vm_compute. Qed.

(** The counterexample to C2: the store that the commands [settz] and
    [remind] build for 9999-12-31 23:59 in America/New_York holds one
    reminder, whose instant is of the year 10000 and so after the instant
    of the tick, 2026-11-02; the tick attempts it all the same and, the
    delivery succeeding, marks it delivered. *)
Lemma far_reminder_is_delivered_early :
  reminders far_db !! 1 = Some far_reminder
  ∧ run_at_iso far_reminder = Iso.toISO far_instant
  ∧ example_instant < far_instant
  ∧ delivered far_reminder = false
  ∧ (1, far_reminder) ∈ (Scheduler.tick example_instant (λ _, true) far_db).1
  ∧ delivered <$> reminders (Scheduler.tick example_instant (λ _, true) far_db).2 !! 1
    = Some true.
Proof.
  split; [by vm_compute|]. split; [by vm_compute|]. split; [by vm_compute|].
  split; [done|]. split; [vm_compute; constructor | by vm_compute].
Qed.

(** C2, amended. For every firing of the scheduler at an instant [now]
    from the year 0 to the year 9999, every outcome of the deliveries and
    every store: a reminder whose [run_at_iso] is the timestamp of an
    instant [t] of these years is attempted exactly when it is in the
    table, is not delivered and [t] is at or before [now] (in general:
    when its [run_at_iso] is at most the timestamp of [now] as texts);
    each id is attempted once; of two attempts the earlier is for the
    earlier instant, and for the smaller id when the instants are the
    same; afterwards a row that was attempted with success is the same
    row with [delivered] true, every other row, attempted in vain or not
    attempted, is as it was, so a row of a later instant of these years
    is; no row is added and the zones are as they were; and a row that
    was attempted in vain is attempted again by every tick at the same or
    a later instant of these years. *)
Theorem tick_delivers_due (now : Z) (deliver : row → bool) (d : db) :
  Iso.four_digit_year now →
  let attempted := (Scheduler.tick now deliver d).1 in
  let d' := (Scheduler.tick now deliver d).2 in
  (∀ id r t, Iso.four_digit_year t → run_at_iso r = Iso.toISO t →
     ((id, r) ∈ attempted ↔ reminders d !! id = Some r ∧ delivered r = false ∧ t ≤ now))
  ∧ (∀ id r, (id, r) ∈ attempted ↔
       reminders d !! id = Some r ∧ delivered r = false
       ∧ text_le (run_at_iso r) (Iso.toISO now))
  ∧ NoDup attempted.*1
  ∧ (∀ i j a b ta tb, (i < j)%nat → attempted !! i = Some a → attempted !! j = Some b →
       Iso.four_digit_year ta → run_at_iso a.2 = Iso.toISO ta →
       Iso.four_digit_year tb → run_at_iso b.2 = Iso.toISO tb →
       ta < tb ∨ (ta = tb ∧ a.1 < b.1))
  ∧ (∀ id r, (id, r) ∈ attempted → deliver (id, r) = true →
       reminders d' !! id
       = Some (Reminder (user_id r) (channel_id r) (guild_id r) (text r) (run_at_iso r)
                 true (created_at_iso r)))
  ∧ (∀ id r, reminders d !! id = Some r →
       (id, r) ∉ attempted ∨ deliver (id, r) = false →
       reminders d' !! id = Some r)
  ∧ (∀ id r t, Iso.four_digit_year t → run_at_iso r = Iso.toISO t →
       reminders d !! id = Some r → now < t → reminders d' !! id = Some r)
  ∧ (∀ id, reminders d !! id = None → reminders d' !! id = None)
  ∧ users d' = users d
  ∧ (∀ id r now' deliver', Iso.four_digit_year now' → now ≤ now' →
       (id, r) ∈ attempted → deliver (id, r) = false →
       (id, r) ∈ (Scheduler.tick now' deliver' d').1).
Proof.
  intros Hnow attempted d'.
  assert (∀ id r, (id, r) ∈ attempted ↔
            reminders d !! id = Some r ∧ delivered r = false
            ∧ text_le (run_at_iso r) (Iso.toISO now)) as Hin
    by (intros id r; apply StoreFacts.dueReminders_elem).
  assert (NoDup attempted.*1) as Hnd by apply StoreFacts.dueReminders_NoDup.
  split.
  { intros id r t Ht Hr. rewrite Hin, Hr, (IsoFacts.toISO_le t now Ht Hnow). done. }
  split; [exact Hin|]. split; [exact Hnd|]. split.
  { intros i j a b ta tb Hij Ha Hb Hta Hra Htb Hrb.
    pose proof (StoreFacts.StronglySorted_lookup due_le attempted i j a b
                  (StoreFacts.dueReminders_sorted _ _) Hij Ha Hb) as Hle.
    unfold due_le in Hle. rewrite Hra, Hrb, (IsoFacts.toISO_compare ta tb Hta Htb) in Hle.
    destruct (Z.compare_spec ta tb) as [-> | Hlt | Hgt]; [|by left|done].
    right. split; [done|].
    assert (a.1 ≠ b.1); [|lia]. intros Heq.
    assert (i = j); [|lia].
    apply (NoDup_lookup _ i j a.1 Hnd); rewrite list_lookup_fmap, ?Ha, ?Hb; [done|].
    by rewrite Heq. }
  split.
  { intros id r [Hr Hdue]%StoreFacts.dueReminders_elem Hd.
    unfold d'. rewrite tick_lookup, Hr. cbn [fmap option_fmap option_map].
    by rewrite (bool_decide_eq_true_2 _ Hdue), Hd. }
  split.
  { intros id r Hr Hno. unfold d'. rewrite tick_lookup, Hr. cbn [fmap option_fmap option_map].
    destruct (bool_decide (is_due (Iso.toISO now) (id, r))) eqn:Hdue; [|done].
    apply bool_decide_eq_true_1 in Hdue.
    destruct Hno as [Hno | ->]; [|done].
    exfalso. apply Hno, StoreFacts.dueReminders_elem. done. }
  split.
  { intros id r t Ht Hr Hrow Hlt. unfold d'. rewrite tick_lookup, Hrow.
    cbn [fmap option_fmap option_map].
    destruct (bool_decide (is_due (Iso.toISO now) (id, r))) eqn:Hdue; [|done].
    apply bool_decide_eq_true_1 in Hdue as [_ Hle]. cbn [snd] in Hle.
    rewrite Hr in Hle. apply (IsoFacts.toISO_le t now Ht Hnow) in Hle. lia. }
  split.
  { intros id Hn. unfold d'. by rewrite tick_lookup, Hn. }
  split; [apply TickFacts.foldl_attempt_users|].
  intros id r now' deliver' Hnow' Hle Hatt Hd.
  apply (failed_delivery_is_retried now now' deliver deliver' d id r Hatt Hd).
  by apply IsoFacts.toISO_le.
Qed.

Lemma tick_delivers_due_witness :
  Iso.four_digit_year example_instant
  ∧ ((1, example_reminder) ∈ (Scheduler.tick example_instant (λ _, true) twin_db).1 ↔
     reminders twin_db !! 1 = Some example_reminder
     ∧ delivered example_reminder = false ∧ example_instant ≤ example_instant)
  ∧ NoDup (Scheduler.tick example_instant (λ _, true) twin_db).1.*1
  ∧ users (Scheduler.tick example_instant (λ _, true) twin_db).2 = users twin_db.
Proof.
  assert (Iso.four_digit_year example_instant) as Hy by (by vm_compute).
  split; [exact Hy|].
  destruct (tick_delivers_due example_instant (λ _, true) twin_db Hy)
    as (Hin & _ & Hnd & _ & _ & _ & _ & _ & Hu & _).
  split; [exact (Hin 1 example_reminder example_instant Hy eq_refl)|].
  split; [exact Hnd | exact Hu].
Defined.

(** ** More on the relay *)

Module RelayMore.

Lemma stream_of_app (cs cs' : list string) :
  RelaySpec.stream_of (cs ++ cs') = RelaySpec.stream_of cs +:+ RelaySpec.stream_of cs'.
Proof.
  induction cs as [|c cs IH]; [done|].
  cbn [app RelaySpec.stream_of foldr]. fold (RelaySpec.stream_of (cs ++ cs')).
  fold (RelaySpec.stream_of cs). by rewrite IH, JsFacts.append_assoc.
Qed.

Lemma relay_throwing_no_error (fs : list string) :
  RelaySpec.has_error fs = false →
  RelaySpec.relay_throwing fs = Run (RelaySpec.relay fs) Finished.
Proof.
  induction fs as [|f fs IH]; [done|].
  cbn [RelaySpec.has_error existsb RelaySpec.relay_throwing RelaySpec.relay].
  intros [-> Hfs]%orb_false_iff.
  destruct (String.eqb (RelaySpec.event_kind f) "done"); [done|].
  by rewrite (IH Hfs).
Qed.

Lemma has_end_done (fs : list string) :
  RelaySpec.has_done fs = true → RelaySpec.has_end fs = true.
Proof.
  induction fs as [|f fs IH]; [done|].
  cbn [RelaySpec.has_done RelaySpec.has_end existsb].
  intros [->|H]%orb_true_iff; [by rewrite orb_true_r|].
  apply orb_true_iff. right. by apply IH.
Qed.

(** Nothing after a [done] frame counts. *)
Lemma frames_after_done (a b : string) :
  RelaySpec.has_done (RelaySpec.frames a) = true →
  RelaySpec.relay (RelaySpec.frames (a +:+ b)) = RelaySpec.relay (RelaySpec.frames a)
  ∧ RelaySpec.relay_throwing (RelaySpec.frames (a +:+ b))
    = RelaySpec.relay_throwing (RelaySpec.frames a).
Proof.
  intros Hd. unfold RelaySpec.frames in *. rewrite RelayFacts.split_frames_app.
  destruct (RelaySpec.split_frames (_ +:+ b)) as [fs' rest']. cbn [fst].
  rewrite RelayFacts.relay_app, RelayFacts.relay_throwing_app, Hd.
  by rewrite (has_end_done _ Hd).
Qed.

(** A text without a blank line holds no complete frame. *)
Lemma no_blank_line (t : string) :
  Js.indexOf t LFLF = -1 → RelaySpec.split_frames t = ([], t).
Proof.
  unfold Js.indexOf. rewrite JsFacts.indexOf_at_split_frames.
  destruct (RelaySpec.split_frames t) as [[|f fs] rest] eqn:E; cbn [fst].
  - intros _. by rewrite (JsFacts.split_frames_nil _ _ E).
  - unfold Js.len. lia.
Qed.

Lemma frames_unfinished (a t : string) :
  (RelaySpec.split_frames a).2 = EmptyString → Js.indexOf t LFLF = -1 →
  RelaySpec.frames (a +:+ t) = RelaySpec.frames a.
Proof.
  intros Ha Ht. unfold RelaySpec.frames. rewrite RelayFacts.split_frames_app, Ha.
  change (EmptyString +:+ t) with t. rewrite (no_blank_line t Ht).
  cbn [fst]. by rewrite app_nil_r.
Qed.

Lemma relay_nonempty (fs : list string) :
  Forall (λ y, y ≠ EmptyString) (RelaySpec.relay fs).
Proof.
  induction fs as [|f fs IH]; [constructor|].
  cbn [RelaySpec.relay]. destruct (String.eqb _ "done"); [constructor|].
  apply Forall_app. split; [destruct (String.eqb _ "error"); by repeat constructor|].
  apply Forall_app. split; [|done].
  destruct (RelaySpec.payload f); by repeat constructor.
Qed.

Lemma relay_throwing_nonempty (fs : list string) :
  Forall (λ y, y ≠ EmptyString) (fragments (RelaySpec.relay_throwing fs)).
Proof.
  induction fs as [|f fs IH]; [constructor|].
  cbn [RelaySpec.relay_throwing]. destruct (String.eqb _ "error"); [constructor|].
  destruct (String.eqb _ "done"); [constructor|].
  cbn [fragments]. apply Forall_app. split; [|done].
  destruct (RelaySpec.payload f); by repeat constructor.
Qed.

Lemma split_lines_cons2 (c c' : ascii) (s : string) :
  Js.split_lines (String c (String c' s)) =
  if Ascii.eqb c Js.LF then EmptyString :: Js.split_lines (String c' s)
  else if Ascii.eqb c Js.CR && Ascii.eqb c' Js.LF then EmptyString :: Js.split_lines s
       else Js.cons_head c (Js.split_lines (String c' s)).
Proof. done. Qed.

Lemma split_lines_plain (l : string) :
  Js.plain_line l → Js.split_lines l = [l].
Proof.
  induction l as [| c | c c' l IH1 IH2] using JsFacts.string_ind2; intros [Hl Hc].
  - done.
  - cbn in Hl |- *. apply orb_false_iff in Hl as [-> _]. done.
  - cbn [Js.includes_char] in Hl, Hc.
    apply orb_false_iff in Hl as [Hl1 Hl2]. apply orb_false_iff in Hc as [Hc1 Hc2].
    rewrite split_lines_cons2, Hl1, Hc1. cbn [andb].
    rewrite IH2 by done. done.
Qed.

Lemma split_lines_cons (l s : string) :
  Js.plain_line l → Js.split_lines (l +:+ LF1 +:+ s) = l :: Js.split_lines s.
Proof.
  induction l as [| c | c c' l IH1 IH2] using JsFacts.string_ind2; intros [Hl Hc].
  - done.
  - cbn in Hl, Hc. apply orb_false_iff in Hl as [Hl _]. apply orb_false_iff in Hc as [Hc _].
    change (String c EmptyString +:+ LF1 +:+ s) with (String c (String Js.LF s)).
    cbn [Js.split_lines]. rewrite Hl, Hc. cbn [andb].
    change (Ascii.eqb Js.LF Js.LF) with true. cbv iota. done.
  - cbn [Js.includes_char] in Hl, Hc.
    apply orb_false_iff in Hl as [Hl1 Hl2]. apply orb_false_iff in Hc as [Hc1 Hc2].
    change (String c (String c' l) +:+ LF1 +:+ s) with (String c (String c' (l +:+ LF1 +:+ s))).
    rewrite split_lines_cons2, Hl1, Hc1. cbn [andb].
    change (String c' (l +:+ LF1 +:+ s)) with (String c' l +:+ LF1 +:+ s).
    rewrite IH2 by done. done.
Qed.

Lemma split_lines_join (ls : list string) :
  ls ≠ [] → Forall Js.plain_line ls → Js.split_lines (Js.join LF1 ls) = ls.
Proof.
  induction ls as [|l ls IH]; [done|]. intros _ Hall.
  apply Forall_cons in Hall as [Hl Hls].
  destruct ls as [|l' ls].
  - by apply split_lines_plain.
  - change (Js.join LF1 (l :: l' :: ls)) with (l +:+ LF1 +:+ Js.join LF1 (l' :: ls)).
    rewrite split_lines_cons by done. by rewrite IH.
Qed.

Lemma data_payload_data (l : string) : RelaySpec.data_payload ("data: " +:+ l) = l.
Proof.
  unfold RelaySpec.data_payload. rewrite JsFacts.slice_from_nonneg by lia.
  done.
Qed.

End RelayMore.

(** X1. Both versions of the relay depend on the bytes of the stream only,
    not on how the transport cuts them into chunks: two sequences of
    chunks that carry the same stream give the same run in
    src/llm/lunacore.js and the same run in src/unnamed/part_000. *)
Theorem relays_ignore_chunking (opened : bool) (st : Z) (body : string) (cs cs' : list string) :
  RelaySpec.stream_of cs = RelaySpec.stream_of cs' →
  Lunacore.lunaChatStream (Response opened st body cs)
  = Lunacore.lunaChatStream (Response opened st body cs')
  ∧ Part000.lunaChatStream (Response opened st body cs)
    = Part000.lunaChatStream (Response opened st body cs').
Proof.
  intros Hs. unfold Lunacore.lunaChatStream, Part000.lunaChatStream. cbn [ok chunks].
  destruct opened; cbn [negb]; [|done].
  rewrite !RelayFacts.pump_spec, !RelayFacts.pump_throwing_spec by done.
  change (EmptyString +:+ ?s) with s. by rewrite Hs.
Qed.

Lemma relays_ignore_chunking_witness :
  Lunacore.lunaChatStream (Response true 200 "" ["data: a" +:+ LF1; LF1 +:+ "data: b" +:+ LFLF])
  = Lunacore.lunaChatStream (Response true 200 "" ["data: a" +:+ LFLF +:+ "data: b" +:+ LFLF])
  ∧ Part000.lunaChatStream (Response true 200 "" ["data: a" +:+ LF1; LF1 +:+ "data: b" +:+ LFLF])
    = Part000.lunaChatStream (Response true 200 "" ["data: a" +:+ LFLF +:+ "data: b" +:+ LFLF]).
Proof. apply relays_ignore_chunking. reflexivity. Defined.

(** X2. On a response whose stream has no [error] frame, the relay of
    src/unnamed/part_000 and the relay of src/llm/lunacore.js give the
    same run: the two versions differ at error frames only. *)
Theorem relays_agree_without_error (res : response) :
  RelaySpec.has_error (RelaySpec.frames (RelaySpec.stream_of (chunks res))) = false →
  Part000.lunaChatStream res = Lunacore.lunaChatStream res.
Proof.
  intros He. unfold Lunacore.lunaChatStream, Part000.lunaChatStream.
  destruct (negb (ok res)); [done|].
  rewrite RelayFacts.pump_spec, RelayFacts.pump_throwing_spec by done.
  change (EmptyString +:+ ?s) with s. by rewrite RelayMore.relay_throwing_no_error.
Qed.

Lemma relays_agree_without_error_witness :
  Part000.lunaChatStream (Response true 200 "" [RelaySpec.hello_world_stream])
  = Lunacore.lunaChatStream (Response true 200 "" [RelaySpec.hello_world_stream]).
Proof. apply relays_agree_without_error. reflexivity. Defined.

(** X3. Once the chunks read so far hold a [done] frame, the run is
    settled: whatever chunks the stream would carry after them change
    neither the fragments nor the way the run ends, in both versions. *)
Theorem nothing_relayed_after_done (opened : bool) (st : Z) (body : string) (cs cs' : list string) :
  RelaySpec.has_done (RelaySpec.frames (RelaySpec.stream_of cs)) = true →
  Lunacore.lunaChatStream (Response opened st body (cs ++ cs'))
  = Lunacore.lunaChatStream (Response opened st body cs)
  ∧ Part000.lunaChatStream (Response opened st body (cs ++ cs'))
    = Part000.lunaChatStream (Response opened st body cs).
Proof.
  intros Hd. unfold Lunacore.lunaChatStream, Part000.lunaChatStream. cbn [ok chunks].
  destruct opened; cbn [negb]; [|done].
  rewrite !RelayFacts.pump_spec, !RelayFacts.pump_throwing_spec by done.
  change (EmptyString +:+ ?s) with s. rewrite RelayMore.stream_of_app.
  by destruct (RelayMore.frames_after_done _ (RelaySpec.stream_of cs') Hd) as [-> ->].
Qed.

Lemma nothing_relayed_after_done_witness :
  Lunacore.lunaChatStream
    (Response true 200 "" ([RelaySpec.hello_world_stream] ++ ["data: late" +:+ LFLF]))
  = Lunacore.lunaChatStream (Response true 200 "" [RelaySpec.hello_world_stream])
  ∧ Part000.lunaChatStream
      (Response true 200 "" ([RelaySpec.hello_world_stream] ++ ["data: late" +:+ LFLF]))
    = Part000.lunaChatStream (Response true 200 "" [RelaySpec.hello_world_stream]).
Proof. apply nothing_relayed_after_done. reflexivity. Defined.

(** X4. A frame that the stream does not finish with a blank line is
    dropped: when the chunks so far end on a frame boundary and the last
    chunk has no blank line, the run is the one without that chunk. So a
    stream whose lines all end in CR LF relays nothing, as the relay looks
    for two LF in a row. *)
Theorem unfinished_frame_is_dropped (opened : bool) (st : Z) (body : string)
    (cs : list string) (t : string) :
  (RelaySpec.split_frames (RelaySpec.stream_of cs)).2 = EmptyString →
  Js.indexOf t LFLF = -1 →
  Lunacore.lunaChatStream (Response opened st body (cs ++ [t]))
  = Lunacore.lunaChatStream (Response opened st body cs)
  ∧ Part000.lunaChatStream (Response opened st body (cs ++ [t]))
    = Part000.lunaChatStream (Response opened st body cs).
Proof.
  intros Hcs Ht. unfold Lunacore.lunaChatStream, Part000.lunaChatStream.
  cbn [ok chunks]. destruct opened; cbn [negb]; [|done].
  rewrite !RelayFacts.pump_spec, !RelayFacts.pump_throwing_spec by done.
  change (EmptyString +:+ ?s) with s. rewrite RelayMore.stream_of_app.
  cbn [RelaySpec.stream_of foldr]. rewrite JsFacts.append_empty_r.
  by rewrite (RelayMore.frames_unfinished _ t Hcs Ht).
Qed.

Lemma unfinished_frame_is_dropped_witness :
  Lunacore.lunaChatStream
    (Response true 200 "" ([] ++ ["data: hello" +:+ String Js.CR LF1 +:+ String Js.CR LF1]))
  = Some (Run [] Finished)
  ∧ Part000.lunaChatStream
      (Response true 200 "" ([] ++ ["data: hello" +:+ String Js.CR LF1 +:+ String Js.CR LF1]))
    = Some (Run [] Finished).
Proof.
  apply (unfinished_frame_is_dropped true 200 "" []
           ("data: hello" +:+ String Js.CR LF1 +:+ String Js.CR LF1)); reflexivity.
Defined.

(** X5. The parser of a frame undoes the encoding of a payload as data
    lines: for lines without LF and CR, the frame made of one line
    [data: ] followed by the text for each of them parses to the kind
    [message] and to the lines joined by LF, leading spaces kept. *)
Theorem data_lines_round_trip (ls : list string) :
  Forall Js.plain_line ls →
  Frame.parse (RelaySpec.data_lines ls) = ("message", Js.join LF1 ls).
Proof.
  intros Hall. destruct (decide (ls = [])) as [->|Hne]; [done|].
  rewrite RelayFacts.parse_spec.
  unfold RelaySpec.event_kind, RelaySpec.payload, RelaySpec.data_lines.
  rewrite RelayMore.split_lines_join.
  2:{ by destruct ls. }
  2:{ apply Forall_fmap. eapply Forall_impl; [exact Hall|].
      intros l [H1 H2]. split; [exact H1 | exact H2]. }
  clear Hne. f_equal.
  - replace (filter _ _) with (@nil string); [done|].
    induction ls as [|l ls IH]; [done|]. apply Forall_cons in Hall as [_ Hall].
    rewrite fmap_cons, filter_cons_False; [by apply IH | exact (λ H, H)].
  - f_equal. induction ls as [|l ls IH]; [done|]. apply Forall_cons in Hall as [_ Hall].
    rewrite fmap_cons, filter_cons_True by exact I.
    by rewrite fmap_cons, (IH Hall), RelayMore.data_payload_data.
Qed.

Lemma data_lines_round_trip_witness :
  Frame.parse (RelaySpec.data_lines ["one"; " two"; ""])
  = ("message", Js.join LF1 ["one"; " two"; ""]).
Proof. apply data_lines_round_trip. repeat constructor. Defined.

(** X6. Both versions of the relay return on every response, and no
    fragment they yield is the empty string. *)
Theorem relay_yields_no_empty_fragment (res : response) :
  from_option (λ r, Forall (λ y, y ≠ EmptyString) (fragments r)) False
    (Lunacore.lunaChatStream res)
  ∧ from_option (λ r, Forall (λ y, y ≠ EmptyString) (fragments r)) False
      (Part000.lunaChatStream res).
Proof.
  unfold Lunacore.lunaChatStream, Part000.lunaChatStream.
  destruct (negb (ok res)); [by split; constructor|].
  rewrite RelayFacts.pump_spec, RelayFacts.pump_throwing_spec by done.
  split; [apply RelayMore.relay_nonempty | apply RelayMore.relay_throwing_nonempty].
Qed.

(** ** More on the chunkers *)

Module ChunkMore.

Lemma join_empty_app (a b : list string) :
  Js.join EmptyString (a ++ b) = Js.join EmptyString a +:+ Js.join EmptyString b.
Proof.
  induction a as [|x a IH]; [done|].
  rewrite <- app_comm_cons, !ChunkFacts.join_empty_cons, IH.
  by rewrite JsFacts.append_assoc.
Qed.

Lemma join_cons_head (c : ascii) (ls : list string) :
  Js.join EmptyString (Js.cons_head c ls) = String c (Js.join EmptyString ls).
Proof.
  destruct ls as [|l ls]; [done|].
  cbn [Js.cons_head]. by rewrite !ChunkFacts.join_empty_cons.
Qed.

Lemma non_spaces_app (a b : string) :
  Js.non_spaces (a +:+ b) = Js.non_spaces a +:+ Js.non_spaces b.
Proof.
  induction a as [|c a IH]; [done|].
  change (String c a +:+ b) with (String c (a +:+ b)). cbn [Js.non_spaces].
  rewrite IH. by destruct (Js.is_space c).
Qed.

Lemma non_spaces_trimStart (s : string) : Js.non_spaces (Js.trimStart s) = Js.non_spaces s.
Proof.
  induction s as [|c s IH]; [done|].
  cbn [Js.trimStart Js.non_spaces]. destruct (Js.is_space c) eqn:E; [done|].
  cbn [Js.non_spaces]. by rewrite E.
Qed.

Lemma non_spaces_trimEnd (s : string) : Js.non_spaces (Js.trimEnd s) = Js.non_spaces s.
Proof.
  induction s as [|c s IH]; [done|].
  cbn [Js.trimEnd Js.non_spaces]. rewrite <- IH.
  destruct (Js.trimEnd s) as [|y t]; [|done].
  by destruct (Js.is_space c) eqn:E; cbn [Js.non_spaces]; rewrite ?E.
Qed.

Lemma non_spaces_skip_LF (s : string) : Js.non_spaces (Js.skip_LF s) = Js.non_spaces s.
Proof.
  induction s as [|c s IH]; [done|].
  cbn [Js.skip_LF Js.non_spaces]. destruct (Ascii.eqb_spec c Js.LF) as [->|]; [|done].
  by rewrite IH.
Qed.

(** The two slices of [pushSmart] are the segment, wherever the cut is. *)
Lemma slice_partition (s : string) (k : Z) : Js.slice s 0 k +:+ Js.slice_from s k = s.
Proof.
  unfold Js.slice, Js.slice_from.
  assert (Js.rel_index (Js.len s) 0 = 0) as ->.
  { unfold Js.rel_index, Js.len. cbn [Z.ltb Z.compare]. lia. }
  rewrite Z.sub_0_r. cbn [Z.to_nat Js.drop]. apply JsFacts.take_drop.
Qed.

Lemma pushSmart_content (maxLen : Z) (fuel : nat) (segment : string) (cs : list string) :
  Part001.pushSmart fuel segment maxLen = Some cs →
  Js.non_spaces (Js.join EmptyString cs) = Js.non_spaces segment.
Proof.
  revert segment cs. induction fuel as [|fuel IH]; intros segment cs; [done|].
  cbn [Part001.pushSmart]. destruct (maxLen <? Js.len segment).
  - destruct (Part001.pushSmart fuel _ maxLen) as [cs'|] eqn:E; [|done].
    intros [= <-]. rewrite ChunkFacts.join_empty_cons, non_spaces_app, (IH _ _ E).
    rewrite non_spaces_trimEnd, non_spaces_trimStart, <- non_spaces_app.
    by rewrite slice_partition.
  - intros [= <-]. by destruct segment.
Qed.

Lemma push_all_content (maxLen : Z) (paras cs : list string) :
  Part001.push_all paras maxLen = Some cs →
  Js.non_spaces (Js.join EmptyString cs) = Js.non_spaces (Js.join EmptyString paras).
Proof.
  revert cs. induction paras as [|para paras IH]; intros cs.
  - by intros [= <-].
  - cbn [Part001.push_all].
    destruct (Part001.pushSmart _ para maxLen) as [cs1|] eqn:E1; [|done].
    destruct (Part001.push_all paras maxLen) as [cs2|]; [|done].
    intros [= <-].
    rewrite join_empty_app, ChunkFacts.join_empty_cons, !non_spaces_app.
    by rewrite (pushSmart_content _ _ _ _ E1), (IH cs2).
Qed.

Lemma split_paragraphs_content (fuel : nat) (s : string) :
  Js.non_spaces (Js.join EmptyString (Js.split_paragraphs_fuel fuel s)) = Js.non_spaces s.
Proof.
  revert s. induction fuel as [|fuel IH]; intros s.
  - cbn [Js.split_paragraphs_fuel]. unfold Js.join. cbn [String.concat]. done.
  - destruct s as [|c [|c' s]]; [done | |].
    + cbn [Js.split_paragraphs_fuel]. rewrite join_cons_head. cbn [Js.non_spaces].
      by rewrite IH.
    + cbn [Js.split_paragraphs_fuel].
      destruct (Ascii.eqb c Js.LF && Ascii.eqb c' Js.LF) eqn:E.
      * apply andb_true_iff in E as [->%Ascii.eqb_eq ->%Ascii.eqb_eq].
        rewrite ChunkFacts.join_empty_cons. change (EmptyString +:+ ?x) with x.
        rewrite IH, non_spaces_skip_LF. done.
      * rewrite join_cons_head. cbn [Js.non_spaces]. by rewrite IH.
Qed.

Lemma push_all_spec (maxLen : Z) (paras : list string) :
  1 ≤ maxLen →
  ∃ cs, Part001.push_all paras maxLen = Some cs ∧ Forall (λ c, Js.len c ≤ maxLen) cs.
Proof.
  intros Hm. induction paras as [|para paras (cs' & IH & Hall')].
  - by exists [].
  - cbn [Part001.push_all].
    destruct (ChunkFacts.pushSmart_spec maxLen (S (String.length para)) para Hm)
      as (cs & -> & Hall & _); [lia|].
    rewrite IH. exists (cs ++ cs'). split; [done|]. by apply Forall_app.
Qed.

Lemma slice_drop (s : string) (m a b : Z) :
  0 ≤ m ≤ Js.len s → 0 ≤ a → 0 ≤ b →
  Js.slice (Js.drop (Z.to_nat m) s) a b = Js.slice s (m + a) (m + b).
Proof.
  intros Hm Ha Hb. unfold Js.slice.
  rewrite !JsFacts.rel_index_nonneg, ChunkFacts.len_drop by lia.
  rewrite ChunkFacts.drop_drop. f_equal; [lia | f_equal; lia].
Qed.

(** The segments of the fixed-width chunker are the slices of the text at
    the multiples of [maxLen]. *)
Lemma ollama_slices (k : nat) (maxLen : Z) (text : string) :
  1 ≤ maxLen → (String.length text ≤ k)%nat →
  Ollama.chunkDiscordMessage text maxLen =
  Some ((λ i : nat, Js.slice text (Z.of_nat i * maxLen) ((Z.of_nat i + 1) * maxLen))
        <$> seq 0 (Z.to_nat ((Js.len text + maxLen - 1) / maxLen))).
Proof.
  intros Hm. revert text. induction k as [|k IH]; intros text Hk.
  - destruct text; [|simpl in Hk; lia].
    rewrite ChunkFacts.chunk_unfold by done. change (Js.len EmptyString) with 0.
    destruct (Z.ltb_spec maxLen 0); [lia|].
    rewrite Z.div_small by lia. done.
  - rewrite ChunkFacts.chunk_unfold by done.
    destruct (Z.ltb_spec maxLen (Js.len text)) as [Hlt|Hge].
    + rewrite JsFacts.slice_from_nonneg by lia.
      rewrite IH by (rewrite JsFacts.length_drop; unfold Js.len in Hlt; lia).
      rewrite ChunkFacts.len_drop by lia. f_equal.
      replace (Js.len text + maxLen - 1) with (Js.len text - maxLen + maxLen - 1 + 1 * maxLen)
        by lia.
      rewrite Z.div_add by lia.
      assert (0 ≤ (Js.len text - maxLen + maxLen - 1) / maxLen) by (apply Z.div_pos; lia).
      rewrite Z2Nat.inj_add by lia. rewrite Nat.add_comm.
      change (Z.to_nat 1) with 1%nat. cbn [Nat.add seq]. rewrite fmap_cons.
      f_equal; [f_equal; lia|].
      rewrite <- fmap_S_seq, <- list_fmap_compose. apply list_fmap_ext.
      intros _ i _. cbn [compose]. rewrite slice_drop by lia. f_equal; lia.
    + assert (0 ≤ Js.len text) by (unfold Js.len; lia).
      destruct text as [|c text].
      * change (Js.len EmptyString) with 0. rewrite Z.div_small by lia. done.
      * assert (1 ≤ Js.len (String c text)) by (unfold Js.len; simpl; lia).
        replace ((Js.len (String c text) + maxLen - 1) / maxLen) with 1.
        2:{ apply Z.div_unique_pos with (r := Js.len (String c text) - 1); lia. }
        cbn [Js.truthy]. change (Z.to_nat 1) with 1%nat. cbn [seq]. rewrite fmap_cons.
        change (Z.of_nat 0) with 0. rewrite Z.mul_0_l, Z.add_0_l, Z.mul_1_l.
        rewrite JsFacts.slice_0 by lia. do 2 f_equal. symmetry. apply JsFacts.take_all.
        unfold Js.len in *. lia.
Qed.

(** *** Texts without white space *)

Lemma includes_char_drop (c : ascii) (n : nat) (s : string) :
  Js.includes_char c s = false → Js.includes_char c (Js.drop n s) = false.
Proof.
  revert s. induction n as [|n IH]; intros [|x s]; try done.
  cbn [Js.includes_char Js.drop]. intros [_ H]%orb_false_iff. by apply IH.
Qed.

Lemma lastIndexOf_absent (s : string) (c : ascii) (p' : string) (from : Z) :
  0 ≤ from → Js.includes_char c s = false → Js.lastIndexOf s (String c p') from = -1.
Proof.
  intros Hf Hc.
  destruct (ChunkFacts.lastIndexOf_spec s (String c p') from Hf) as [H | (_ & Hp)]; [done|].
  pose proof (includes_char_drop c (Z.to_nat (Js.lastIndexOf s (String c p') from)) s Hc) as Hd.
  destruct (Js.drop _ s) as [|x t]; [done|].
  rewrite JsFacts.prefix_cons in Hp. apply andb_true_iff in Hp as [Hx _].
  apply Ascii.eqb_eq in Hx as <-. cbn [Js.includes_char] in Hd.
  by rewrite Ascii.eqb_refl in Hd.
Qed.

Lemma has_space_includes (c : ascii) (s : string) :
  Js.is_space c = true → Js.has_space s = false → Js.includes_char c s = false.
Proof.
  intros Hc. induction s as [|x s IH]; [done|].
  cbn [Js.has_space Js.includes_char]. intros [Hx Hs]%orb_false_iff.
  rewrite (IH Hs), orb_false_r. apply Ascii.eqb_neq. by intros ->; congruence.
Qed.

Lemma has_space_take (n : nat) (s : string) :
  Js.has_space s = false → Js.has_space (Js.take n s) = false.
Proof.
  revert s. induction n as [|n IH]; intros [|x s]; try done.
  cbn [Js.has_space Js.take]. intros [-> H]%orb_false_iff. by apply IH.
Qed.

Lemma has_space_drop (n : nat) (s : string) :
  Js.has_space s = false → Js.has_space (Js.drop n s) = false.
Proof.
  revert s. induction n as [|n IH]; intros [|x s]; try done.
  cbn [Js.has_space Js.drop]. intros [_ H]%orb_false_iff. by apply IH.
Qed.

Lemma trimStart_id (s : string) : Js.has_space s = false → Js.trimStart s = s.
Proof.
  destruct s as [|c s]; [done|]. cbn [Js.has_space Js.trimStart].
  by intros [-> _]%orb_false_iff.
Qed.

Lemma trimEnd_id (s : string) : Js.has_space s = false → Js.trimEnd s = s.
Proof.
  induction s as [|c s IH]; [done|]. cbn [Js.has_space Js.trimEnd].
  intros [-> Hs]%orb_false_iff. rewrite (IH Hs). by destruct s.
Qed.

Lemma pick_cut_hard (segment : string) (maxLen : Z) :
  1 ≤ maxLen → Js.has_space segment = false → Part001.pick_cut segment maxLen = maxLen.
Proof.
  intros Hm Hs. unfold Part001.pick_cut, Part001.min_fill.
  assert (0 ≤ 3 * maxLen / 5) as Hfill by (apply Z.div_pos; lia).
  assert (Js.includes_char Js.LF segment = false) as Hlf by (by apply has_space_includes).
  assert (Js.includes_char Js.SP segment = false) as Hsp by (by apply has_space_includes).
  unfold LFLF, LF1.
  rewrite !(lastIndexOf_absent segment Js.LF) by (lia || done).
  change " " with (String Js.SP EmptyString).
  rewrite (lastIndexOf_absent segment Js.SP) by (lia || done).
  cbn [Z.leb Z.compare]. by destruct (Z.ltb_spec (-1) (3 * maxLen / 5)); [|lia].
Qed.

(** On a text without white space the smart chunker takes the turns of
    the fixed-width one. *)
Lemma pushSmart_loop (maxLen : Z) (fuel : nat) (segment : string) :
  1 ≤ maxLen → Js.has_space segment = false →
  Part001.pushSmart fuel segment maxLen = Ollama.loop fuel segment maxLen.
Proof.
  intros Hm. revert segment. induction fuel as [|fuel IH]; intros segment Hs; [done|].
  cbn [Part001.pushSmart Ollama.loop].
  destruct (Z.ltb_spec maxLen (Js.len segment)) as [Hlt|]; [|done].
  rewrite pick_cut_hard by done.
  rewrite JsFacts.slice_from_nonneg, JsFacts.slice_0 by lia.
  rewrite trimStart_id, trimEnd_id by (by apply has_space_drop || by apply has_space_take).
  rewrite IH by (by apply has_space_drop). done.
Qed.

(** *** Texts of spaces *)

(** [lastIndexOf] finds the last match at or before the bound. *)
Lemma lastIndexOf_at_ge (p s : string) (i bound best j : Z) :
  i ≤ j ≤ bound → (Z.to_nat (j - i) ≤ String.length s)%nat →
  String.prefix p (Js.drop (Z.to_nat (j - i)) s) = true →
  j ≤ Js.lastIndexOf_at p s i bound best ≤ bound.
Proof.
  revert i best. induction s as [|c s IH]; intros i best Hj Hlen Hp.
  - cbn [String.length] in Hlen. assert (j = i) as -> by lia.
    rewrite Z.sub_diag in Hp. change (Z.to_nat 0) with 0%nat in Hp. cbn [Js.drop] in Hp.
    cbn [Js.lastIndexOf_at]. rewrite Hp.
    destruct (Z.leb_spec i bound); cbn [andb]; lia.
  - cbn [Js.lastIndexOf_at].
    set (best' := if (i <=? bound) && String.prefix p (String c s) then i else best).
    destruct (Z.eq_dec j i) as [->|Hne].
    + rewrite Z.sub_diag in Hp. change (Z.to_nat 0) with 0%nat in Hp. cbn [Js.drop] in Hp.
      assert (best' = i) as ->.
      { unfold best'. rewrite Hp. by destruct (Z.leb_spec i bound); [|lia]. }
      destruct (ChunkFacts.lastIndexOf_at_spec p s (i + 1) bound i) as [-> | (Hr & _)]; lia.
    + cbn [String.length] in Hlen.
      replace (Z.to_nat (j - i)) with (S (Z.to_nat (j - (i + 1)))) in Hp by lia.
      cbn [Js.drop] in Hp. apply IH; [lia | lia | done].
Qed.

Lemma take_replicate (m n : nat) (c : ascii) :
  (m ≤ n)%nat → Js.take m (Js.replicate n c) = Js.replicate m c.
Proof.
  revert n. induction m as [|m IH]; intros [|n] Hm; try done; [lia|].
  cbn [Js.replicate Js.take]. rewrite IH; [done | lia].
Qed.

Lemma drop_replicate (m n : nat) (c : ascii) :
  Js.drop m (Js.replicate n c) = Js.replicate (n - m) c.
Proof. revert n. induction m as [|m IH]; intros [|n]; try done. apply IH. Qed.

Lemma length_replicate (n : nat) (c : ascii) : String.length (Js.replicate n c) = n.
Proof. induction n as [|n IH]; [done|]. cbn. by rewrite IH. Qed.

Lemma trimStart_spaces (n : nat) : Js.trimStart (Js.replicate n Js.SP) = EmptyString.
Proof. induction n as [|n IH]; [done|]. exact IH. Qed.

Lemma trimEnd_spaces (n : nat) : Js.trimEnd (Js.replicate n Js.SP) = EmptyString.
Proof. induction n as [|n IH]; [done|]. cbn [Js.replicate Js.trimEnd]. by rewrite IH. Qed.

Lemma includes_char_replicate (n : nat) (c x : ascii) :
  Ascii.eqb x c = false → Js.includes_char c (Js.replicate n x) = false.
Proof. intros H. induction n as [|n IH]; [done|]. cbn. by rewrite H, IH. Qed.

Lemma pick_cut_spaces (n : nat) (maxLen : Z) :
  1 ≤ maxLen < Z.of_nat n → Part001.pick_cut (Js.replicate n Js.SP) maxLen = maxLen.
Proof.
  intros Hm. unfold Part001.pick_cut, Part001.min_fill, LFLF, LF1.
  rewrite !(lastIndexOf_absent _ Js.LF) by (lia || by apply includes_char_replicate).
  cbn [Z.leb Z.compare].
  assert (Js.lastIndexOf (Js.replicate n Js.SP) " " maxLen = maxLen) as ->.
  { unfold Js.lastIndexOf.
    pose proof (lastIndexOf_at_ge " " (Js.replicate n Js.SP) 0 (Z.max maxLen 0) (-1) maxLen)
      as H.
    rewrite Z.sub_0_r, drop_replicate, length_replicate in H.
    destruct H as [H1 H2]; [lia | lia | | lia].
    replace (n - Z.to_nat maxLen)%nat with (S (n - Z.to_nat maxLen - 1)) by lia.
    cbn [Js.replicate]. change " " with (String Js.SP EmptyString).
    by rewrite JsFacts.prefix_cons, JsFacts.prefix_nil. }
  destruct (Z.ltb_spec maxLen (3 * maxLen / 5)) as [H|]; [|done].
  Z.to_euclidean_division_equations. lia.
Qed.

End ChunkMore.

(** X7. The chunker that src/llm/ollama.js exports, with a [maxLen] of at
    least 1, returns the slices of the text at the multiples of [maxLen]:
    as many segments as [maxLen] goes into the length rounded up, each of
    exactly [maxLen] characters but the last, which holds the one to
    [maxLen] characters that are left. *)
Theorem ollama_chunks_are_slices (text : string) (maxLen : Z) :
  1 ≤ maxLen →
  let n := Z.to_nat ((Js.len text + maxLen - 1) / maxLen) in
  let segment (i : nat) := Js.slice text (Z.of_nat i * maxLen) ((Z.of_nat i + 1) * maxLen) in
  Ollama.chunkDiscordMessage text maxLen = Some (segment <$> seq 0 n)
  ∧ ∀ i, (i < n)%nat →
      Js.len (segment i) = (if decide (S i = n) then Js.len text - Z.of_nat i * maxLen else maxLen)
      ∧ 1 ≤ Js.len (segment i) ≤ maxLen.
Proof.
  intros Hm n segment. split.
  { apply (ChunkMore.ollama_slices (String.length text)); [done | lia]. }
  intros i Hi.
  assert (0 ≤ Js.len text) as Hlen by (unfold Js.len; lia).
  assert (Z.of_nat n = (Js.len text + maxLen - 1) / maxLen) as Hn.
  { unfold n. rewrite Z2Nat.id; [done|]. apply Z.div_pos; lia. }
  assert (maxLen * (Z.of_nat n - 1) < Js.len text ≤ maxLen * Z.of_nat n) as Hceil.
  { rewrite Hn. Z.to_euclidean_division_equations. nia. }
  assert ((Z.of_nat i + 1) * maxLen = Z.of_nat i * maxLen + maxLen) as Hnext by lia.
  assert (0 ≤ Z.of_nat i * maxLen < Js.len text) as Hi' by nia.
  assert (Js.len (segment i)
          = Z.min (Z.of_nat i * maxLen + maxLen) (Js.len text) - Z.of_nat i * maxLen) as ->.
  { unfold segment, Js.slice. rewrite Hnext.
    rewrite !JsFacts.rel_index_nonneg by lia.
    rewrite (Z.min_l (Z.of_nat i * maxLen)) by lia.
    unfold Js.len in *. rewrite JsFacts.length_take, JsFacts.length_drop. lia. }
  destruct (decide (S i = n)) as [He|He].
  - assert (Js.len text ≤ Z.of_nat i * maxLen + maxLen) by nia. lia.
  - assert (Z.of_nat i * maxLen + maxLen < Js.len text) by nia. lia.
Qed.

Lemma ollama_chunks_are_slices_witness :
  Ollama.chunkDiscordMessage "hello world" 4 = Some ["hell"; "o wo"; "rld"].
Proof. apply (ollama_chunks_are_slices "hello world" 4). lia. Defined.

(** X8. The chunker of src/unnamed/part_001, with a [maxLen] of at least
    1, returns on every text, and none of its segments is longer than
    [maxLen]. *)
Theorem smart_chunks_within_limit (text : string) (maxLen : Z) :
  1 ≤ maxLen →
  ∃ cs, Part001.chunkDiscordMessage text maxLen = Some cs
        ∧ Forall (λ c, Js.len c ≤ maxLen) cs.
Proof.
  intros Hm. unfold Part001.chunkDiscordMessage.
  destruct (Js.truthy text); cbn [negb].
  - by apply ChunkMore.push_all_spec.
  - exists [EmptyString]. split; [done|]. constructor; [|done].
    change (Js.len EmptyString) with 0. lia.
Qed.

Lemma smart_chunks_within_limit_witness :
  ∃ cs, Part001.chunkDiscordMessage "one two three four" 8 = Some cs
        ∧ Forall (λ c, Js.len c ≤ 8) cs.
Proof. apply smart_chunks_within_limit. lia. Defined.

(** X9. What the chunker of src/unnamed/part_001 returns holds the
    characters of the text that are not white space, all of them and in
    their order: it cuts and trims at white space, and loses nothing
    else. *)
Theorem smart_chunks_keep_text (text : string) (maxLen : Z) (cs : list string) :
  Part001.chunkDiscordMessage text maxLen = Some cs →
  Js.non_spaces (Js.join EmptyString cs) = Js.non_spaces text.
Proof.
  unfold Part001.chunkDiscordMessage. destruct text as [|c text]; cbn [Js.truthy negb].
  - by intros [= <-].
  - intros H. rewrite (ChunkMore.push_all_content _ _ _ H).
    apply ChunkMore.split_paragraphs_content.
Qed.

Lemma smart_chunks_keep_text_witness :
  Js.non_spaces (Js.join EmptyString ["one two"; "three"; "four"])
  = Js.non_spaces "one two three four".
Proof. apply (smart_chunks_keep_text "one two three four" 8). reflexivity. Defined.

(** X10. On a text that is not empty and holds no white space the two
    chunkers return the same segments, for every [maxLen] of at least 1:
    without a place to break, the chunker of src/unnamed/part_001 cuts at
    every [maxLen] characters as the one of src/llm/ollama.js does. *)
Theorem chunkers_agree_without_spaces (text : string) (maxLen : Z) :
  1 ≤ maxLen → Js.truthy text = true → Js.has_space text = false →
  Part001.chunkDiscordMessage text maxLen = Ollama.chunkDiscordMessage text maxLen.
Proof.
  intros Hm Ht Hs. unfold Part001.chunkDiscordMessage, Ollama.chunkDiscordMessage.
  rewrite Ht. cbn [negb]. unfold Js.split_paragraphs.
  rewrite ChunkFacts.split_paragraphs_one by (by apply ChunkMore.has_space_includes).
  cbn [Part001.push_all]. rewrite ChunkMore.pushSmart_loop by done.
  destruct (Ollama.loop _ text maxLen) as [cs|]; [|done].
  by rewrite app_nil_r.
Qed.

Lemma chunkers_agree_without_spaces_witness :
  Part001.chunkDiscordMessage "abcdefghij" 4 = Ollama.chunkDiscordMessage "abcdefghij" 4.
Proof. apply chunkers_agree_without_spaces; [lia | reflexivity | reflexivity]. Defined.

(** X11. A segment of the chunker of src/unnamed/part_001 can be empty
    though the text is not: on a text of more than [maxLen] spaces it
    cuts at the space at [maxLen], trims both sides to nothing and returns
    one segment, the empty string. *)
Theorem smart_chunks_of_spaces (n : nat) (maxLen : Z) :
  1 ≤ maxLen < Z.of_nat n →
  Part001.chunkDiscordMessage (Js.replicate n Js.SP) maxLen = Some [EmptyString].
Proof.
  intros Hm. unfold Part001.chunkDiscordMessage.
  destruct n as [|n]; [lia|]. cbn [Js.replicate Js.truthy negb].
  change (String Js.SP (Js.replicate n Js.SP)) with (Js.replicate (S n) Js.SP).
  unfold Js.split_paragraphs.
  rewrite ChunkFacts.split_paragraphs_one by (by apply ChunkMore.includes_char_replicate).
  cbn [Part001.push_all Part001.pushSmart]. unfold Js.len.
  rewrite !ChunkMore.length_replicate.
  destruct (Z.ltb_spec maxLen (Z.of_nat (S n))); [|lia].
  rewrite ChunkMore.pick_cut_spaces by lia.
  rewrite JsFacts.slice_from_nonneg, JsFacts.slice_0 by lia.
  rewrite ChunkMore.drop_replicate, ChunkMore.take_replicate by lia.
  rewrite ChunkMore.trimStart_spaces, ChunkMore.trimEnd_spaces.
  destruct n as [|n]; [lia|]. cbn [Part001.pushSmart]. change (Js.len EmptyString) with 0.
  by destruct (Z.ltb_spec maxLen 0); [lia|].
Qed.

Lemma smart_chunks_of_spaces_witness :
  Part001.chunkDiscordMessage (Js.replicate 12 Js.SP) 5 = Some [EmptyString].
Proof. apply smart_chunks_of_spaces. lia. Defined.

(** ** More on the store, the scheduler and the commands *)

Module StoreMore.

Lemma max_rowid_le (m : gmap Z reminder) (b : Z) :
  0 ≤ b → (∀ id r, m !! id = Some r → id ≤ b) → max_rowid m ≤ b.
Proof.
  intros Hb Hall. unfold max_rowid.
  assert (∀ id, id ∈ (map_to_list m).*1 → id ≤ b) as Hin.
  { intros id ([id' r] & -> & H%elem_of_map_to_list)%list_elem_of_fmap.
    by apply (Hall id' r). }
  induction ((map_to_list m).*1) as [|x l IH]; simpl; [lia|].
  pose proof (Hin x ltac:(left)).
  assert (foldr Z.max 0 l ≤ b) by (apply IH; intros id ?; apply Hin; by right).
  lia.
Qed.

Lemma settz_zone (DEFAULT_TZ : string) (validZone : string → bool) (user tz : string)
    (d : db) :
  validZone tz = true → Js.truthy tz = true →
  Commands.zone_of DEFAULT_TZ user (Commands.settz validZone user tz d).2 = tz.
Proof.
  intros Hv Ht. unfold Commands.settz. rewrite Hv. cbn [negb snd].
  unfold Commands.zone_of, getTZ, setTZ. cbn [users]. by rewrite lookup_insert_eq, Ht.
Qed.

Section Steps.

Variable DEFAULT_TZ : string.
Variable fromFormat : string → string → option Z.
Variable validZone : string → bool.

(** In a store that the operations build from the empty one, the ids in
    use are the numbers from 1 to the counter of the table. *)
Lemma reachable_dom (d : db) :
  Commands.reachable DEFAULT_TZ fromFormat validZone d →
  0 ≤ reminders_seq d
  ∧ ∀ id, is_Some (reminders d !! id) ↔ 1 ≤ id ≤ reminders_seq d.
Proof.
  unfold Commands.reachable. revert d. apply rtc_ind_r.
  { split; [done|]. intros id. cbn. rewrite lookup_empty. split; [by intros [? ?] | lia]. }
  intros d1 d2 _ Hstep [IH0 IH].
  destruct Hstep as [user tz d | now user channel guild txt when d | now deliver d].
  - unfold Commands.settz. by destruct (negb _).
  - unfold Commands.remind.
    destruct (fromFormat _ _) as [dt|]; [|done].
    destruct (dt <? now); [done|].
    cbn [snd insertReminder reminders reminders_seq].
    assert (max_rowid (reminders d) ≤ reminders_seq d) as Hmax.
    { apply max_rowid_le; [done|]. intros id r Hr. by apply IH. }
    rewrite Z.max_l by done. split; [lia|]. intros id.
    rewrite lookup_insert_is_Some, IH.
    destruct (decide (reminders_seq d + 1 = id)) as [<-|]; [|lia].
    split; [lia | by left].
  - destruct (TickFacts.foldl_attempt_users deliver (dueReminders (Iso.toISO now) d) d)
      as [_ Hseq].
    unfold Scheduler.tick at 1 3. cbn [snd]. rewrite Hseq. split; [done|].
    intros id. rewrite tick_lookup, fmap_is_Some. apply IH.
Qed.

End Steps.

End StoreMore.

(** X12. A reminder whose delivery failed in a tick is attempted again by
    every tick at the same or a later instant, both from the year 0 to
    the year 9999, whatever the other deliveries did: a failure marks
    nothing, and the row stays due. *)
Theorem failed_delivery_retried_later (now now' : Z) (deliver deliver' : row → bool)
    (d : db) (id : Z) (r : reminder) :
  Iso.four_digit_year now → Iso.four_digit_year now' → now ≤ now' →
  (id, r) ∈ (Scheduler.tick now deliver d).1 →
  deliver (id, r) = false →
  (id, r) ∈ (Scheduler.tick now' deliver' (Scheduler.tick now deliver d).2).1.
Proof.
  intros Hy Hy' Hle Hin Hd.
  apply (failed_delivery_is_retried now now' deliver deliver' d id r Hin Hd).
  by apply IsoFacts.toISO_le.
Qed.

Lemma failed_delivery_retried_later_witness :
  (1, example_reminder)
  ∈ (Scheduler.tick (example_instant + 20000) (λ _, true)
       (Scheduler.tick example_instant (λ _, false) example_db).2).1.
Proof.
  apply failed_delivery_retried_later.
  - by vm_compute.
  - by vm_compute.
  - lia.
  - vm_compute. constructor.
  - reflexivity.
Defined.

(** X13. In every store that the commands [settz] and [remind] and the
    ticks of the scheduler build from the empty one, the ids of the
    reminders are the numbers from 1 to the counter of the table, without
    a gap: no operation deletes a row, and no id is used twice. *)
Theorem reminder_ids_are_consecutive (DEFAULT_TZ : string)
    (fromFormat : string → string → option Z) (validZone : string → bool) (d : db) :
  Commands.reachable DEFAULT_TZ fromFormat validZone d →
  0 ≤ reminders_seq d
  ∧ (∀ id, is_Some (reminders d !! id) ↔ 1 ≤ id ≤ reminders_seq d)
  ∧ Z.of_nat (size (reminders d)) = reminders_seq d.
Proof.
  intros Hr. destruct (StoreMore.reachable_dom _ _ _ d Hr) as [H0 Hdom].
  split; [done|]. split; [done|].
  assert (dom (reminders d) = list_to_set (seqZ 1 (reminders_seq d))) as Hd.
  { apply set_eq. intros id.
    rewrite elem_of_dom, Hdom, elem_of_list_to_set, elem_of_seqZ. lia. }
  rewrite <- size_dom, Hd, size_list_to_set by apply NoDup_seqZ.
  rewrite length_seqZ. lia.
Qed.

Lemma reminder_ids_are_consecutive_witness :
  0 ≤ reminders_seq example_db
  ∧ (∀ id, is_Some (reminders example_db !! id) ↔ 1 ≤ id ≤ reminders_seq example_db)
  ∧ Z.of_nat (size (reminders example_db)) = reminders_seq example_db.
Proof.
  apply (reminder_ids_are_consecutive "UTC" example_fromFormat (λ _, true)).
  apply rtc_once.
  apply (Commands.step_remind "UTC" example_fromFormat (λ _, true) 0 "user" "channel"
           None "tea" "2026-11-02 00:00" empty_db).
Defined.

(** X14. After the command [settz] has saved a zone that is valid and not
    the empty string, that zone is the one the commands [mytime] and
    [remind] use for the user; the zones of the other users and the
    reminders are as before. *)
Theorem settz_round_trip (DEFAULT_TZ : string) (validZone : string → bool)
    (user tz : string) (d : db) :
  validZone tz = true → Js.truthy tz = true →
  (Commands.settz validZone user tz d).1 = TimezoneSaved tz
  ∧ Commands.zone_of DEFAULT_TZ user (Commands.settz validZone user tz d).2 = tz
  ∧ (∀ user', user' ≠ user →
       Commands.zone_of DEFAULT_TZ user' (Commands.settz validZone user tz d).2
       = Commands.zone_of DEFAULT_TZ user' d)
  ∧ reminders (Commands.settz validZone user tz d).2 = reminders d.
Proof.
  intros Hv Ht. split; [unfold Commands.settz; by rewrite Hv|].
  split; [by apply StoreMore.settz_zone|].
  unfold Commands.settz. rewrite Hv. cbn [negb snd].
  unfold Commands.zone_of, getTZ, setTZ. cbn [users reminders]. split; [|done].
  intros user' Hne. by rewrite lookup_insert_ne.
Qed.

Lemma settz_round_trip_witness :
  Commands.zone_of "UTC" "user" (Commands.settz (λ _, true) "user" "Asia/Tokyo" empty_db).2
  = "Asia/Tokyo".
Proof.
  apply (settz_round_trip "UTC" (λ _, true) "user" "Asia/Tokyo" empty_db); reflexivity.
Defined.

(** X15. The command [remind] reads the text of the time in the zone that
    [settz] saved for the user: after such a [settz], a time that parses
    in that zone to an instant not before the clock gets the reply for
    that instant and that zone, and is stored under a fresh id as a row
    of the user that is not delivered and has the timestamp of that
    instant as [run_at_iso], whatever the default zone is; the zone that
    [settz] saved stays. *)
Theorem remind_uses_saved_zone (DEFAULT_TZ : string) (fromFormat : string → string → option Z)
    (validZone : string → bool) (now dt : Z) (user tz channel : string)
    (guild : option string) (txt when : string) (d : db) :
  validZone tz = true → Js.truthy tz = true →
  fromFormat when tz = Some dt → now ≤ dt →
  ∃ id,
    reminders d !! id = None
    ∧ Commands.remind DEFAULT_TZ fromFormat now user channel guild txt when
        (Commands.settz validZone user tz d).2
      = (ReminderSaved dt tz,
         Db (<[user := tz]> (users d))
            (<[id := Reminder user channel guild txt (Iso.toISO dt) false (Iso.toISO now)]>
               (reminders d))
            id).
Proof.
  intros Hv Ht Hp Hle.
  unfold Commands.remind.
  rewrite (StoreMore.settz_zone DEFAULT_TZ validZone user tz d Hv Ht), Hp.
  destruct (Z.ltb_spec dt now); [lia|].
  unfold Commands.settz. rewrite Hv. cbn [negb snd]. unfold insertReminder, setTZ.
  cbn [users reminders reminders_seq].
  eexists. split; [apply StoreFacts.insert_id_fresh | done].
Qed.

Lemma remind_uses_saved_zone_witness :
  ∃ id,
    reminders empty_db !! id = None
    ∧ Commands.remind "UTC"
        (λ when tz, if String.eqb tz "Asia/Tokyo" then Some 1793545200000 else None)
        1793500000000 "user" "channel" None "tea" "2026-11-02 00:00"
        (Commands.settz (λ _, true) "user" "Asia/Tokyo" empty_db).2
      = (ReminderSaved 1793545200000 "Asia/Tokyo",
         Db (<["user" := "Asia/Tokyo"]> (users empty_db))
            (<[id := Reminder "user" "channel" None "tea" (Iso.toISO 1793545200000) false
                       (Iso.toISO 1793500000000)]> (reminders empty_db))
            id).
Proof. apply remind_uses_saved_zone; [reflexivity | reflexivity | reflexivity | lia]. Defined.

(** ** The key/value commands *)

Module KvFacts.

Lemma split_spaces_word (w : string) :
  Js.has_space w = false → Js.split_spaces_from false w = [w].
Proof.
  induction w as [|c w IH]; [done|]. cbn [Js.has_space Js.split_spaces_from].
  intros [-> Hw]%orb_false_iff. by rewrite (IH Hw).
Qed.

Lemma split_spaces_word_space (w s : string) :
  Js.has_space w = false →
  Js.split_spaces_from false (w +:+ String Js.SP s) = w :: Js.split_spaces_from true s.
Proof.
  induction w as [|c w IH]; [done|]. cbn [Js.has_space].
  intros [Hc Hw]%orb_false_iff.
  change (String c w +:+ String Js.SP s) with (String c (w +:+ String Js.SP s)).
  cbn [Js.split_spaces_from]. by rewrite Hc, (IH Hw).
Qed.

Lemma split_spaces_after_run (c : ascii) (s : string) :
  Js.is_space c = false →
  Js.split_spaces_from true (String c s) = Js.split_spaces_from false (String c s).
Proof. intros Hc. cbn [Js.split_spaces_from]. by rewrite Hc. Qed.

Lemma join_cons_cons (w w' : string) (ws : list string) :
  Js.join " " (w :: w' :: ws) = w +:+ String Js.SP (Js.join " " (w' :: ws)).
Proof. done. Qed.

Lemma join_words_head (w : string) (ws : list string) :
  Js.is_word w → ∃ c s, Js.join " " (w :: ws) = String c s ∧ Js.is_space c = false.
Proof.
  intros [Ht Hs]. destruct w as [|c w]; [done|]. cbn [Js.has_space] in Hs.
  apply orb_false_iff in Hs as [Hc _]. destruct ws as [|w' ws].
  - by exists c, w.
  - rewrite join_cons_cons. by exists c, (w +:+ String Js.SP (Js.join " " (w' :: ws))).
Qed.

(** Splitting at white space undoes the join of words by single spaces. *)
Lemma split_spaces_join (ws : list string) :
  ws ≠ [] → Forall Js.is_word ws → Js.split_spaces (Js.join " " ws) = ws.
Proof.
  unfold Js.split_spaces. induction ws as [|w ws IH]; [done|]. intros _ Hall.
  apply Forall_cons in Hall as [[Ht Hs] Hws]. destruct ws as [|w' ws].
  - by apply split_spaces_word.
  - rewrite join_cons_cons, split_spaces_word_space by done.
    destruct (join_words_head w' ws) as (c & s & E & Hc).
    { by apply Forall_cons in Hws as [? _]. }
    rewrite E, split_spaces_after_run, <- E by done. f_equal. by apply IH.
Qed.

Lemma trimEnd_app (a b : string) :
  Js.trimEnd b ≠ EmptyString → Js.trimEnd (a +:+ b) = a +:+ Js.trimEnd b.
Proof.
  intros Hb. induction a as [|c a IH]; [done|].
  change (String c a +:+ b) with (String c (a +:+ b)).
  change (String c a +:+ Js.trimEnd b) with (String c (a +:+ Js.trimEnd b)).
  cbn [Js.trimEnd]. rewrite IH.
  destruct (a +:+ Js.trimEnd b) as [|x t] eqn:E; [|done].
  destruct a; [|done]. by destruct (Js.trimEnd b).
Qed.

Lemma trim_join (ws : list string) :
  Forall Js.is_word ws → Js.trim (Js.join " " ws) = Js.join " " ws.
Proof.
  intros Hall. destruct ws as [|w ws]; [done|]. unfold Js.trim.
  assert (Js.trimStart (Js.join " " (w :: ws)) = Js.join " " (w :: ws)) as ->.
  { destruct (join_words_head w ws) as (c & s & -> & Hc);
      [by apply Forall_cons in Hall as [? _]|].
    cbn [Js.trimStart]. by rewrite Hc. }
  revert w Hall. induction ws as [|w' ws IH]; intros w Hall.
  - apply Forall_cons in Hall as [[_ Hs] _]. by apply ChunkMore.trimEnd_id.
  - apply Forall_cons in Hall as [_ Hall]. rewrite join_cons_cons.
    change (w +:+ String Js.SP (Js.join " " (w' :: ws)))
      with (w +:+ (String Js.SP EmptyString +:+ Js.join " " (w' :: ws))).
    rewrite <- JsFacts.append_assoc.
    assert (Js.trimEnd (Js.join " " (w' :: ws)) ≠ EmptyString) as Hne.
    { rewrite (IH w' Hall).
      destruct (join_words_head w' ws) as (c & s & -> & _); [|done].
      by apply Forall_cons in Hall as [? _]. }
    by rewrite trimEnd_app, (IH w' Hall).
Qed.

Lemma drop_app (p s : string) : Js.drop (String.length p) (p +:+ s) = s.
Proof. induction p as [|c p IH]; [by destruct s | exact IH]. Qed.

Lemma startsWith_app (p s : string) : Js.startsWith (p +:+ s) p = true.
Proof.
  unfold Js.startsWith. induction p as [|c p IH]; [apply JsFacts.prefix_nil|].
  change (String c p +:+ s) with (String c (p +:+ s)).
  by rewrite JsFacts.prefix_cons, Ascii.eqb_refl, IH.
Qed.

Section Words.

Variable PREFIX : string.

(** The words of a message: the prefix and words joined by single spaces *)
Lemma words_join (ws : list string) :
  ws ≠ [] → Forall Js.is_word ws → Kv.words PREFIX (PREFIX +:+ Js.join " " ws) = ws.
Proof.
  intros Hne Hall. unfold Kv.words.
  rewrite JsFacts.slice_from_nonneg by (unfold Js.len; lia).
  unfold Js.len. rewrite Nat2Z.id, drop_app, trim_join by done.
  by apply split_spaces_join.
Qed.

End Words.

(** The rows that [allStmt] returns are those of the guild. *)
Lemma allStmt_elem (guild : string) (kv : gmap (string * string) kv_row) (k v : string) :
  (k, v) ∈ Kv.allStmt guild kv ↔ Kv.getStmt guild k kv = Some v.
Proof.
  unfold Kv.allStmt, Kv.getStmt. rewrite merge_sort_Permutation, list_elem_of_fmap. split.
  - intros ([[g k'] r] & [= -> ->] & [Hg Hin%elem_of_map_to_list]%list_elem_of_filter).
    unfold Kv.in_guild in Hg. cbn in Hg. subst g. by rewrite Hin.
  - destruct (kv !! (guild, k)) as [r|] eqn:E; [|done]. intros [= <-].
    exists ((guild, k), r). split; [done|]. apply list_elem_of_filter.
    split; [done | by apply elem_of_map_to_list].
Qed.

Lemma join_words_truthy (ws : list string) :
  ws ≠ [] → Forall Js.is_word ws → Js.truthy (Js.join " " ws) = true.
Proof.
  destruct ws as [|w ws]; [done|]. intros _ [Hw _]%Forall_cons.
  by destruct (join_words_head w ws Hw) as (c & s & -> & _).
Qed.

(** No piece of a split at white space holds white space. *)
Lemma split_spaces_pieces (b : bool) (s : string) :
  Forall (λ w, Js.has_space w = false) (Js.split_spaces_from b s).
Proof.
  revert b. induction s as [|c s IH]; intros b; [by repeat constructor|].
  cbn [Js.split_spaces_from]. destruct (Js.is_space c) eqn:Hc.
  - destruct b; [apply IH | constructor; [done | apply IH]].
  - specialize (IH false). destruct (Js.split_spaces_from false s) as [|w ws].
    + repeat constructor. cbn. by rewrite Hc.
    + apply Forall_cons in IH as [Hw Hws]. constructor; [|done]. cbn. by rewrite Hc, Hw.
Qed.

Lemma len_slice_0 (s : string) (n : Z) : 0 ≤ n → Js.len (Js.slice s 0 n) ≤ n.
Proof.
  intros Hn. rewrite JsFacts.slice_0 by done. unfold Js.len.
  rewrite JsFacts.length_take. lia.
Qed.

End KvFacts.

(** X16. A value saved by the command [set] is the value that [get]
    returns for the key: after a message of the prefix, [set], a key and
    one or more words, each separated by a single space, the message of
    the prefix, [get] and the key, from the same author in the same
    place, is answered with the words joined by single spaces, and
    changes nothing. *)
Theorem kv_set_get_round_trip (PREFIX BULLET : string) (now now' : Z) (author : string)
    (guild : option string) (key : string) (ws : list string)
    (kv : gmap (string * string) kv_row) :
  Js.is_word key → ws ≠ [] → Forall Js.is_word ws →
  let set_msg := Message false author guild (PREFIX +:+ Js.join " " ("set" :: key :: ws)) in
  let get_msg := Message false author guild (PREFIX +:+ Js.join " " ["get"; key]) in
  let kv' := (Kv.messageCreate PREFIX BULLET now set_msg kv).2 in
  (Kv.messageCreate PREFIX BULLET now set_msg kv).1 = Some (Saved key)
  ∧ Kv.messageCreate PREFIX BULLET now' get_msg kv'
    = (Some (Found key (Js.join " " ws)), kv').
Proof.
  intros Hkey Hne Hws set_msg get_msg.
  assert (Forall Js.is_word ("set" :: key :: ws)) as Hsetw
    by (apply Forall_cons; split; [done|]; by apply Forall_cons).
  assert (Forall Js.is_word ["get"; key]) as Hgetw
    by (apply Forall_cons; split; [done|]; by apply Forall_cons).
  assert (Kv.messageCreate PREFIX BULLET now set_msg kv
          = (Some (Saved key),
             Kv.setStmt (Kv.guild_of set_msg) key (Js.join " " ws) author (Iso.toISO now) kv))
    as Hs.
  { unfold Kv.messageCreate, set_msg. cbn [msg_author_bot msg_content msg_author_id].
    rewrite KvFacts.startsWith_app, KvFacts.words_join by done.
    cbn [negb]. unfold Kv.command. cbn [String.eqb Ascii.eqb Bool.eqb].
    destruct Hkey as [-> _]. by rewrite KvFacts.join_words_truthy. }
  intros kv'. unfold kv'. rewrite Hs. cbn [fst snd]. split; [done|].
  unfold Kv.messageCreate, get_msg. cbn [msg_author_bot msg_content msg_author_id].
  rewrite KvFacts.startsWith_app, KvFacts.words_join by done.
  cbn [negb]. unfold Kv.command. cbn [String.eqb Ascii.eqb Bool.eqb].
  destruct Hkey as [-> _]. cbn [negb]. unfold Kv.getStmt, Kv.setStmt.
  change (Kv.guild_of (Message false author guild ?c)) with (Kv.guild_of set_msg).
  by rewrite lookup_insert_eq.
Qed.

Lemma kv_set_get_round_trip_witness :
  (Kv.messageCreate "!" "*" 0 (Message false "ann" (Some "g") "!set motto Ship fast.") ∅).1
  = Some (Saved "motto")
  ∧ (Kv.messageCreate "!" "*" 1 (Message false "ann" (Some "g") "!get motto")
       (Kv.messageCreate "!" "*" 0 (Message false "ann" (Some "g") "!set motto Ship fast.")
          ∅).2).1
    = Some (Found "motto" "Ship fast.").
Proof.
  destruct (kv_set_get_round_trip "!" "*" 0 1 "ann" (Some "g") "motto" ["Ship"; "fast."] ∅)
    as [H1 H2]; [done | done | by repeat constructor |].
  split; [exact H1|]. cbn zeta in H2. exact (f_equal fst H2).
Defined.

(** X17. A command changes at most one row of the table, the one of its
    own guild and of the key that is its first word: every other row,
    of another guild or of another key, is after the command as it was
    before, whatever the command and its words are. *)
Theorem kv_command_is_local (BULLET : string) (now : Z) (guildId author cmd : string)
    (rest : list string) (kv : gmap (string * string) kv_row) (g k : string) :
  (g, k) ≠ (guildId, default EmptyString (head rest)) →
  (Kv.command BULLET now guildId author cmd rest kv).2 !! (g, k) = kv !! (g, k).
Proof.
  intros Hne. unfold Kv.command.
  destruct (String.eqb cmd "set").
  { destruct rest as [|key rest]; [done|]. cbn [head default] in Hne.
    destruct (negb (Js.truthy key)); [done|].
    destruct (negb (Js.truthy _)); [done|].
    cbn [snd]. unfold Kv.setStmt. by rewrite lookup_insert_ne. }
  destruct (String.eqb cmd "get").
  { destruct rest as [|key rest]; [done|]. destruct (negb _); [done|].
    by destruct (Kv.getStmt _ _ _). }
  destruct (String.eqb cmd "del").
  { destruct rest as [|key rest]; [done|]. cbn [head default] in Hne.
    destruct (negb _); [done|]. unfold Kv.delStmt. cbn [snd].
    by rewrite lookup_delete_ne. }
  destruct (String.eqb cmd "all").
  { by destruct (match rest with [] => _ | _ => _ end). }
  by destruct (String.eqb cmd "help").
Qed.

Lemma kv_command_is_local_witness :
  (Kv.command "*" 0 "g" "ann" "del" ["motto"]
     (Kv.setStmt "h" "motto" "v" "bob" "t" ∅)).2 !! ("h", "motto")
  = Kv.setStmt "h" "motto" "v" "bob" "t" ∅ !! ("h", "motto").
Proof. apply kv_command_is_local. intros [=]. Defined.

(** X18. After the command [del] for a key, [get] finds no value for it
    and a second [del] finds nothing to delete and changes nothing; and
    the first [del] reports a deletion exactly when the key had a
    value. *)
Theorem kv_del_then_get (BULLET : string) (now now' : Z) (guildId author author' key : string)
    (rest rest' : list string) (kv : gmap (string * string) kv_row) :
  Js.truthy key = true →
  let kv' := (Kv.command BULLET now guildId author "del" (key :: rest) kv).2 in
  Kv.command BULLET now' guildId author' "get" (key :: rest') kv' = (Some (NoValue key), kv')
  ∧ Kv.command BULLET now' guildId author' "del" (key :: rest') kv'
    = (Some (NothingToDelete key), kv')
  ∧ ((Kv.command BULLET now guildId author "del" (key :: rest) kv).1 = Some (Deleted key)
     ↔ is_Some (Kv.getStmt guildId key kv))
  ∧ ((Kv.command BULLET now guildId author "del" (key :: rest) kv).1
     = Some (NothingToDelete key) ↔ Kv.getStmt guildId key kv = None).
Proof.
  intros Hk kv'. unfold kv', Kv.command. cbn [String.eqb Ascii.eqb Bool.eqb].
  rewrite Hk. cbn [negb]. unfold Kv.delStmt, Kv.getStmt. cbn [fst snd].
  rewrite !lookup_delete_eq. cbn [fmap option_fmap option_map Z.eqb].
  split; [done|]. split; [by rewrite delete_delete_eq|].
  destruct (kv !! (guildId, key)) as [r|]; cbn [Z.eqb fmap option_fmap option_map].
  - split; [split; [by eauto | done] | split; done].
  - split; [split; [done | by intros [??]] | split; done].
Qed.

Lemma kv_del_then_get_witness :
  Kv.command "*" 1 "g" "bob" "get" ["motto"]
    (Kv.command "*" 0 "g" "ann" "del" ["motto"] (Kv.setStmt "g" "motto" "v" "bob" "t" ∅)).2
  = (Some (NoValue "motto"),
     (Kv.command "*" 0 "g" "ann" "del" ["motto"] (Kv.setStmt "g" "motto" "v" "bob" "t" ∅)).2).
Proof.
  apply (kv_del_then_get "*" 0 1 "g" "ann" "bob" "motto" [] []
           (Kv.setStmt "g" "motto" "v" "bob" "t" ∅)).
  reflexivity.
Defined.

(** X19. Only the commands [set] and [del] write: a message whose first
    word after the prefix is neither of them leaves the table as it
    was, and so does every message of a bot and every message that does
    not start with the prefix, which are not answered. *)
Theorem kv_only_set_and_del_write (PREFIX BULLET : string) (now : Z) (msg : message)
    (kv : gmap (string * string) kv_row) :
  (head (Kv.words PREFIX (msg_content msg)) ≠ Some "set"
   ∧ head (Kv.words PREFIX (msg_content msg)) ≠ Some "del"
   → (Kv.messageCreate PREFIX BULLET now msg kv).2 = kv)
  ∧ (msg_author_bot msg = true ∨ Js.startsWith (msg_content msg) PREFIX = false
     → Kv.messageCreate PREFIX BULLET now msg kv = (None, kv)).
Proof.
  unfold Kv.messageCreate. split.
  - intros [Hs Hd]. destruct (msg_author_bot msg); [done|].
    destruct (negb _); [done|].
    destruct (Kv.words PREFIX (msg_content msg)) as [|cmd rest]; [done|].
    cbn [head] in Hs, Hd. unfold Kv.command.
    destruct (String.eqb_spec cmd "set") as [->|_]; [done|].
    destruct (String.eqb cmd "get").
    { destruct rest as [|key rest]; [done|]. destruct (negb _); [done|].
      by destruct (Kv.getStmt _ _ _). }
    destruct (String.eqb_spec cmd "del") as [->|_]; [done|].
    destruct (String.eqb cmd "all").
    { by destruct (match rest with [] => _ | _ => _ end). }
    by destruct (String.eqb cmd "help").
  - intros [-> | ->]; [done|]. by destruct (msg_author_bot msg).
Qed.

(** X21. The command [all] changes nothing, and it answers with a listing
    of at most 1900 characters when the guild has a key that starts with
    the filter, its first word (every key does when there is no such
    word), and with the no-entries text when it has none. *)
Theorem kv_all_reply (BULLET : string) (now : Z) (guildId author : string)
    (rest : list string) (kv : gmap (string * string) kv_row) :
  let prefixFilter := default EmptyString (head rest) in
  let shown (k : string) :=
    is_Some (Kv.getStmt guildId k kv) ∧ Js.startsWith k prefixFilter = true in
  (Kv.command BULLET now guildId author "all" rest kv).2 = kv
  ∧ (((Kv.command BULLET now guildId author "all" rest kv).1 = Some NoEntries
      ∧ ∀ k, ¬ shown k)
     ∨ (∃ txt, (Kv.command BULLET now guildId author "all" rest kv).1 = Some (Listing txt)
               ∧ Js.len txt ≤ 1900 ∧ ∃ k, shown k)).
Proof.
  intros prefixFilter shown. unfold Kv.command. cbn [String.eqb Ascii.eqb Bool.eqb].
  set (rows := match rest with
               | [] => Kv.allStmt guildId kv
               | f :: _ => if Js.truthy f then filter (Kv.has_prefix f) (Kv.allStmt guildId kv)
                           else Kv.allStmt guildId kv
               end).
  assert (∀ k v, (k, v) ∈ rows ↔
                 Kv.getStmt guildId k kv = Some v ∧ Js.startsWith k prefixFilter = true)
    as Hrows.
  { intros k v. unfold rows, prefixFilter. destruct rest as [|f rest]; cbn [head default].
    - rewrite KvFacts.allStmt_elem. unfold Js.startsWith. rewrite JsFacts.prefix_nil. tauto.
    - destruct f as [|c f]; cbn [Js.truthy].
      + rewrite KvFacts.allStmt_elem. unfold Js.startsWith. rewrite JsFacts.prefix_nil. tauto.
      + rewrite list_elem_of_filter, KvFacts.allStmt_elem. unfold Kv.has_prefix.
        cbn [fst]. rewrite Is_true_true. tauto. }
  clearbody rows. destruct rows as [|[k v] rows]; cbn [fst snd].
  - split; [done|]. left. split; [done|]. intros k [[v Hv] Hp].
    assert ((k, v) ∈ @nil (string * string)) as Hin by (by apply Hrows).
    by apply elem_of_nil in Hin.
  - split; [done|]. right. eexists. split; [done|].
    split; [by apply KvFacts.len_slice_0|].
    exists k. destruct (Hrows k v) as [[Hv Hp] _]; [left|]. split; [by eexists | done].
Qed.

(** X22. No message makes the table hold an empty key, a key with white
    space in it or an empty value: when the rows of the table are free
    of these before a message, they are so after it. *)
Theorem kv_rows_stay_well_formed (PREFIX BULLET : string) (now : Z) (msg : message)
    (kv : gmap (string * string) kv_row) :
  (∀ g k r, kv !! (g, k) = Some r → Js.is_word k ∧ Js.truthy (kv_value r) = true) →
  ∀ g k r, (Kv.messageCreate PREFIX BULLET now msg kv).2 !! (g, k) = Some r →
           Js.is_word k ∧ Js.truthy (kv_value r) = true.
Proof.
  intros Hinv g k r. unfold Kv.messageCreate.
  destruct (msg_author_bot msg); [apply Hinv|].
  destruct (negb _); [apply Hinv|].
  pose proof (KvFacts.split_spaces_pieces false
                (Js.trim (Js.slice_from (msg_content msg) (Js.len PREFIX)))) as Hw.
  fold (Js.split_spaces (Js.trim (Js.slice_from (msg_content msg) (Js.len PREFIX)))) in Hw.
  fold (Kv.words PREFIX (msg_content msg)) in Hw.
  destruct (Kv.words PREFIX (msg_content msg)) as [|cmd rest]; [apply Hinv|].
  apply Forall_cons in Hw as [_ Hw]. unfold Kv.command.
  destruct (String.eqb cmd "set").
  { destruct rest as [|key rest]; [apply Hinv|]. apply Forall_cons in Hw as [Hkey _].
    destruct (Js.truthy key) eqn:Hk; cbn [negb]; [|apply Hinv].
    destruct (Js.truthy (Js.join " " rest)) eqn:Hv; cbn [negb]; [|apply Hinv].
    cbn [snd]. unfold Kv.setStmt.
    intros [[[= <- <-] <-] | [_ Hr]]%lookup_insert_Some; [done | by apply (Hinv g k)]. }
  destruct (String.eqb cmd "get").
  { destruct rest as [|key rest]; [apply Hinv|]. destruct (negb _); [apply Hinv|].
    destruct (Kv.getStmt _ _ _); apply Hinv. }
  destruct (String.eqb cmd "del").
  { destruct rest as [|key rest]; [apply Hinv|]. destruct (negb _); [apply Hinv|].
    unfold Kv.delStmt. cbn [snd]. intros [_ Hr]%lookup_delete_Some. by apply (Hinv g k). }
  destruct (String.eqb cmd "all").
  { destruct (match rest with [] => _ | _ => _ end); apply Hinv. }
  destruct (String.eqb cmd "help"); apply Hinv.
Qed.

Lemma kv_rows_stay_well_formed_witness :
  (Kv.messageCreate "!" "*" 0 (Message false "ann" None "!set  motto   Ship  fast. ") ∅).2
    !! ("DM-ann", "motto") = Some (KvRow "Ship fast." "ann" "1970-01-01T00:00:00.000Z")
  ∧ Js.is_word "motto"
  ∧ Js.truthy "Ship fast." = true.
Proof.
  assert ((Kv.messageCreate "!" "*" 0
             (Message false "ann" None "!set  motto   Ship  fast. ") ∅).2
            !! ("DM-ann", "motto")
          = Some (KvRow "Ship fast." "ann" "1970-01-01T00:00:00.000Z")) as Hrow
    by (by vm_compute).
  split; [exact Hrow|].
  refine (kv_rows_stay_well_formed "!" "*" 0 _ ∅ _ "DM-ann" "motto" _ Hrow).
  intros g k r H. by rewrite lookup_empty in H.
Defined.

(** ** The chat call with retries *)

Module ChatFacts.

Lemma backoff_pos (a : Z) : 0 ≤ a → 300 ≤ Part001Chat.backoff a.
Proof.
  intros Ha. unfold Part001Chat.backoff.
  assert (0 < 2 ^ a) by (apply Z.pow_pos_nonneg; lia). lia.
Qed.

(** The loop from [attempt] on, when the outcomes before [k] make it go on
    and the one at [k] ends it. *)
Lemma attempts_closed (outcome : Z → fetch_outcome) (retries : Z) (m : nat) (attempt : Z) :
  let k := attempt + Z.of_nat m in
  k ≤ retries →
  (∀ i, attempt ≤ i < k → Part001Chat.retryable (outcome i) = true) →
  k = retries ∨ Part001Chat.retryable (outcome k) = false →
  ∀ n, (m < n)%nat →
  Part001Chat.attempts n attempt retries outcome
  = ChatRun (Part001Chat.settle (outcome k)) (S m)
      ((λ i : nat, Part001Chat.backoff (attempt + Z.of_nat i)) <$> seq 0 m).
Proof.
  revert attempt. induction m as [|m IH]; intros attempt k Hk Hgo Hend [|n] Hn; try lia.
  - assert (k = attempt) as Hka by (unfold k; lia). rewrite Hka in *. clear Hka.
    cbn [Part001Chat.attempts seq fmap list_fmap].
    destruct (outcome attempt) as [[|] status body [c|] | | transient];
      cbn [Part001Chat.settle Part001Chat.retryable negb andb] in *; try done.
    + by destruct c.
    + destruct Hend as [-> | ->]; [|by rewrite andb_false_r].
      by rewrite Z.ltb_irrefl.
    + destruct Hend as [-> | ->]; [|by rewrite andb_false_r].
      by rewrite Z.ltb_irrefl.
    + destruct Hend as [-> | ?]; [|done]. by rewrite Z.ltb_irrefl.
    + destruct Hend as [-> | ->]; [|by rewrite andb_false_r].
      by rewrite Z.ltb_irrefl.
  - cbn [Part001Chat.attempts].
    assert (attempt < retries) as Hlt by (unfold k in Hk; lia).
    pose proof (Hgo attempt ltac:(unfold k; lia)) as Hr.
    rewrite (IH (attempt + 1)); [| unfold k in *; lia | | | lia].
    2:{ intros i Hi. apply Hgo. unfold k. lia. }
    2:{ replace (attempt + 1 + Z.of_nat m) with k by (unfold k; lia). done. }
    replace (attempt + 1 + Z.of_nat m) with k by (unfold k; lia).
    apply Z.ltb_lt in Hlt. rewrite Hlt.
    assert (Part001Chat.fetched
              (Part001Chat.slept (Part001Chat.backoff attempt)
                 (ChatRun (Part001Chat.settle (outcome k)) (S m)
                    ((λ i : nat, Part001Chat.backoff (attempt + 1 + Z.of_nat i)) <$> seq 0 m)))
            = ChatRun (Part001Chat.settle (outcome k)) (S (S m))
                ((λ i : nat, Part001Chat.backoff (attempt + Z.of_nat i)) <$> seq 0 (S m)))
      as ->.
    { unfold Part001Chat.fetched, Part001Chat.slept. cbn [chat_result chat_fetches chat_sleeps].
      f_equal. cbn [seq]. rewrite fmap_cons. f_equal; [f_equal; lia|].
      rewrite <- fmap_S_seq, <- list_fmap_compose. apply list_fmap_ext.
      intros _ i _. cbn [compose]. f_equal. lia. }
    destruct (outcome attempt) as [[|] status body content | | transient];
      cbn [Part001Chat.retryable negb andb] in Hr |- *; try done.
    + by rewrite Hr.
    + by rewrite Hr.
Qed.

(** Whatever the outcomes, the loop makes at most [n] requests and pauses
    between two requests only, for 300 ms times the powers of two. *)
Lemma attempts_bounds (outcome : Z → fetch_outcome) (retries : Z) (n : nat) (attempt : Z) :
  Z.of_nat n = Z.max 0 (retries + 1 - attempt) →
  let r := Part001Chat.attempts n attempt retries outcome in
  (chat_fetches r ≤ n)%nat
  ∧ (0 < n → 0 < chat_fetches r)%nat
  ∧ chat_sleeps r
    = (λ i : nat, Part001Chat.backoff (attempt + Z.of_nat i)) <$> seq 0 (pred (chat_fetches r)).
Proof.
  revert attempt. induction n as [|n IH]; intros attempt Hn r.
  - unfold r. cbn. split; [lia|]. split; [lia | done].
  - unfold r. cbn [Part001Chat.attempts].
    set (again := Part001Chat.fetched (Part001Chat.slept _ _)).
    assert (attempt < retries →
            (chat_fetches again ≤ S n)%nat ∧ (0 < S n → 0 < chat_fetches again)%nat
            ∧ chat_sleeps again
              = (λ i : nat, Part001Chat.backoff (attempt + Z.of_nat i))
                <$> seq 0 (pred (chat_fetches again))) as Hagain.
    { intros Hlt. destruct (IH (attempt + 1) ltac:(lia)) as (H1 & H2 & H3).
      unfold again, Part001Chat.fetched, Part001Chat.slept.
      cbn [chat_result chat_fetches chat_sleeps pred].
      split; [lia|]. split; [lia|]. rewrite H3.
      specialize (H2 ltac:(lia)).
      destruct (chat_fetches (Part001Chat.attempts n (attempt + 1) retries outcome))
        as [|f]; [lia|].
      cbn [pred seq]. rewrite fmap_cons. f_equal; [f_equal; lia|].
      rewrite <- fmap_S_seq, <- list_fmap_compose. apply list_fmap_ext.
      intros _ i _. cbn [compose]. f_equal. lia. }
    clearbody again.
    assert (∀ x, (chat_fetches (ChatRun x 1 []) ≤ S n)%nat
                 ∧ (0 < S n → 0 < chat_fetches (ChatRun x 1 []))%nat
                 ∧ chat_sleeps (ChatRun x 1 [])
                   = (λ i : nat, Part001Chat.backoff (attempt + Z.of_nat i))
                     <$> seq 0 (pred (chat_fetches (ChatRun x 1 [])))) as Hone.
    { intros x. cbn. split; [lia|]. split; [lia | done]. }
    destruct (outcome attempt) as [[|] status body content | | transient]; cbn [negb].
    + apply Hone.
    + destruct (Z.ltb_spec attempt retries); cbn [andb]; [|apply Hone].
      destruct (Part001Chat.shouldRetry status); [by apply Hagain | apply Hone].
    + destruct (Z.ltb_spec attempt retries); [by apply Hagain | apply Hone].
    + destruct (Z.ltb_spec attempt retries); cbn [andb]; [|apply Hone].
      destruct transient; [by apply Hagain | apply Hone].
Qed.

Lemma sum_backoff (m : nat) :
  foldr Z.add 0 ((λ i : nat, Part001Chat.backoff (0 + Z.of_nat i)) <$> seq 0 m)
  = 300 * (2 ^ Z.of_nat m - 1).
Proof.
  induction m as [|m IH]; [done|].
  rewrite seq_S, fmap_app, foldr_app. cbn [fmap list_fmap foldr Nat.add].
  assert (∀ (l : list Z) (a : Z), foldr Z.add a l = foldr Z.add 0 l + a) as Hacc.
  { induction l as [|x l IHl]; intros a; cbn [foldr]; [lia|]. rewrite IHl. lia. }
  rewrite Hacc, IH. unfold Part001Chat.backoff.
  rewrite Z.add_0_l, Nat2Z.inj_succ, Z.pow_succ_r by lia. lia.
Qed.

End ChatFacts.

(** X23. The chat call of src/unnamed/part_001 in closed form, for
    [retries] from 0 on: it ends at the first request whose outcome does
    not make the loop go on (an ok response, a status outside 408, 429
    and 500 to 599, a failure that is not transient), or at request number
    [retries] when all before it do. With [k] that request, it has
    made [k + 1] requests, has slept 300 ms times 2 to the [i] after
    request [i] for each [i] below [k], and returns the content or throws
    the error of request [k]. *)
Theorem chat_settles_at_first_final_outcome (retries : Z) (outcome : Z → fetch_outcome)
    (k : Z) :
  0 ≤ k ≤ retries →
  (∀ i, 0 ≤ i < k → Part001Chat.retryable (outcome i) = true) →
  k = retries ∨ Part001Chat.retryable (outcome k) = false →
  Part001Chat.ollamaChat true retries outcome
  = ChatRun (Part001Chat.settle (outcome k)) (S (Z.to_nat k))
      ((λ i : nat, 300 * 2 ^ Z.of_nat i) <$> seq 0 (Z.to_nat k)).
Proof.
  intros Hk Hgo Hend. unfold Part001Chat.ollamaChat. cbn [negb].
  pose proof (ChatFacts.attempts_closed outcome retries (Z.to_nat k) 0) as H.
  cbn zeta in H. rewrite Z.add_0_l, Z2Nat.id in H by lia.
  rewrite (H ltac:(lia) Hgo Hend) by lia. f_equal.
Qed.

Lemma chat_settles_at_first_final_outcome_witness :
  Part001Chat.ollamaChat true 2
    (λ i, if i =? 0 then Responded false 503 "busy" None
          else Responded true 200 "" (Some "hello"))
  = ChatRun (inl "hello") 2 [300].
Proof.
  apply (chat_settles_at_first_final_outcome 2
           (λ i, if i =? 0 then Responded false 503 "busy" None
                 else Responded true 200 "" (Some "hello")) 1).
  - lia.
  - intros i Hi. by replace i with 0 by lia.
  - by right.
Defined.

(** X24. Whatever the outcomes of the requests, the chat call makes at
    most [retries + 1] requests, sleeps between two requests only, for
    300 ms, 600 ms, 1200 ms and so on, and so sleeps less than 300 ms
    times 2 to the [retries] in all. *)
Theorem chat_requests_bounded (has_messages : bool) (retries : Z)
    (outcome : Z → fetch_outcome) :
  let r := Part001Chat.ollamaChat has_messages retries outcome in
  (chat_fetches r ≤ Z.to_nat (retries + 1))%nat
  ∧ chat_sleeps r = (λ i : nat, 300 * 2 ^ Z.of_nat i) <$> seq 0 (pred (chat_fetches r))
  ∧ foldr Z.add 0 (chat_sleeps r) ≤ 300 * (2 ^ Z.max 0 retries - 1).
Proof.
  intros r.
  assert (1 ≤ 2 ^ Z.max 0 retries) as Hpow by (apply Z.pow_le_mono_r with (b := 0); lia).
  unfold r, Part001Chat.ollamaChat. destruct has_messages; cbn [negb].
  2:{ cbn. split; [lia|]. split; [done | lia]. }
  destruct (ChatFacts.attempts_bounds outcome retries (Z.to_nat (retries + 1)) 0)
    as (H1 & H2 & H3); [lia|].
  split; [done|]. split; [exact H3|].
  rewrite H3, ChatFacts.sum_backoff.
  assert (2 ^ Z.of_nat (pred (chat_fetches
            (Part001Chat.attempts (Z.to_nat (retries + 1)) 0 retries outcome)))
          ≤ 2 ^ Z.max 0 retries); [|lia].
  apply Z.pow_le_mono_r; lia.
Qed.


(** ** The streaming chat call *)

Module StreamFacts.

(** The first LF of a text that starts with a line *)
Lemma indexOf_line (j rest : string) (i : Z) :
  Js.includes_char Js.LF j = false →
  Js.indexOf_at LF1 (j +:+ LF1 +:+ rest) i = i + Js.len j.
Proof.
  revert i. induction j as [|c j IH]; intros i Hj.
  - change (EmptyString +:+ LF1 +:+ rest) with (String Js.LF rest).
    rewrite JsFacts.indexOf_at_cons. unfold LF1.
    rewrite JsFacts.prefix_cons, Ascii.eqb_refl, JsFacts.prefix_nil.
    change (Js.len EmptyString) with 0. cbn [andb]. lia.
  - cbn [Js.includes_char] in Hj. apply orb_false_iff in Hj as [Hc Hj].
    change (String c j +:+ LF1 +:+ rest) with (String c (j +:+ LF1 +:+ rest)).
    rewrite JsFacts.indexOf_at_cons. unfold LF1 at 1.
    rewrite JsFacts.prefix_cons, Ascii.eqb_sym, Hc. cbn [andb].
    rewrite IH by done. unfold Js.len. cbn [String.length]. lia.
Qed.

Lemma take_app (p s : string) : Js.take (String.length p) (p +:+ s) = p.
Proof. induction p as [|c p IH]; [by destruct s|]. cbn. by rewrite IH. Qed.

Lemma drop_app_S (p s : string) (c : ascii) :
  Js.drop (S (String.length p)) (p +:+ String c s) = s.
Proof. induction p as [|x p IH]; [done | exact IH]. Qed.

(** A line of the buffer, as the loop takes it off *)
Lemma line_of_buffer (j rest : string) :
  Js.includes_char Js.LF j = false →
  let buf := j +:+ LF1 +:+ rest in
  Js.indexOf buf LF1 = Js.len j
  ∧ Js.slice buf 0 (Js.indexOf buf LF1) = j
  ∧ Js.slice_from buf (Js.indexOf buf LF1 + 1) = rest.
Proof.
  intros Hj buf. unfold Js.indexOf. unfold buf. rewrite indexOf_line, Z.add_0_l by done.
  assert (0 ≤ Js.len j) by (unfold Js.len; lia).
  split; [done|]. rewrite JsFacts.slice_0, JsFacts.slice_from_nonneg by lia.
  unfold Js.len. rewrite Nat2Z.id.
  replace (Z.to_nat (Z.of_nat (String.length j) + 1)) with (S (String.length j)) by lia.
  split; [apply take_app | apply drop_app_S].
Qed.








Section Stream.

Variable parse : string → option (string * bool).

(** With fuel above the length of the buffer the inner loop ends, and no
    fragment it yields is empty. *)
Lemma drain_total (fuel : nat) (buf : string) :
  (String.length buf < fuel)%nat →
  ∃ ys buf', Part001Stream.drain parse fuel buf = Some (ys, buf')
             ∧ Forall (λ y, y ≠ EmptyString) ys.
Proof.
  revert buf. induction fuel as [|fuel IH]; intros buf Hlen; [lia|].
  cbn [Part001Stream.drain].
  destruct (Z.ltb_spec (Js.indexOf buf LF1) 0) as [|Hidx]; [by exists [], buf|].
  assert (String.length (Js.slice_from buf (Js.indexOf buf LF1 + 1)) < fuel)%nat as Hless.
  { rewrite JsFacts.slice_from_nonneg, JsFacts.length_drop by lia.
    destruct buf as [|c buf]; [done|]. cbn [String.length] in *. lia. }
  destruct (IH _ Hless) as (ys & buf' & Hd & Hys).
  destruct (negb (Js.truthy _)); [by exists ys, buf'|].
  destruct (parse _) as [[delta done]|]; [|by eexists [], _].
  assert (Forall (λ y, y ≠ EmptyString) (if Js.truthy delta then [delta] else [])) as Hdelta.
  { destruct delta; by repeat constructor. }
  destruct done; [by eexists _, _|].
  rewrite Hd. eexists _, _. split; [done|]. by apply Forall_app.
Qed.

Lemma pump_total (cs : list string) (buf : string) :
  ∃ ys, Part001Stream.pump parse buf cs = Some ys ∧ Forall (λ y, y ≠ EmptyString) ys.
Proof.
  revert buf. induction cs as [|c cs IH]; intros buf; [by exists []|].
  cbn [Part001Stream.pump].
  destruct (drain_total (S (String.length (buf +:+ c))) (buf +:+ c)) as (ys & buf' & -> & Hys);
    [lia|].
  destruct (IH buf') as (ys' & -> & Hys').
  exists (ys ++ ys'). split; [done|]. by apply Forall_app.
Qed.




(** A line that [JSON.parse] accepts *)
Lemma drain_line (j rest : string) (fuel : nat) (delta : string) (done : bool) :
  Js.trim j = j → Js.truthy j = true → Js.includes_char Js.LF j = false →
  Js.startsWith j "data:" = false → parse j = Some (delta, done) →
  Part001Stream.drain parse (S fuel) (j +:+ LF1 +:+ rest)
  = let on_delta := if Js.truthy delta then [delta] else [] in
    if done then Some (on_delta, rest)
    else match Part001Stream.drain parse fuel rest with
         | Some (ys, buf') => Some (on_delta ++ ys, buf')
         | None => None
         end.
Proof.
  intros Ht Hj Hlf Hd Hp. cbn [Part001Stream.drain].
  destruct (line_of_buffer j rest Hlf) as (Hi & Hl & Hr). cbn zeta in *.
  rewrite Hl, Hr, Hi, Ht, Hj, Hd, Hp. cbn [negb].
  by destruct (Z.ltb_spec (Js.len j) 0); [unfold Js.len in *; lia|].
Qed.

End Stream.

End StreamFacts.

(** X26. The streaming chat call of src/unnamed/part_001 returns on every
    response, whatever [JSON.parse] makes of the lines, and no fragment it
    yields is the empty string. *)
Theorem ollamaStream_returns (parse : string → option (string * bool))
    (has_messages : bool) (res : response) :
  ∃ r, Part001Stream.ollamaStream parse has_messages res = Some r
       ∧ Forall (λ y, y ≠ EmptyString) (fragments r).
Proof.
  unfold Part001Stream.ollamaStream.
  destruct (negb has_messages); [by eexists|].
  destruct (negb (ok res)); [by eexists|].
  destruct (StreamFacts.pump_total parse (chunks res) EmptyString) as (ys & -> & Hys).
  by eexists.
Qed.



(** X28. What the streaming chat call yields depends on how the
    transport cuts the stream: a line after a line with the flag [done]
    is lost when both arrive in one chunk, as the inner loop stops at
    the flag and the buffer is dropped when the stream ends, and is
    parsed and yielded when it arrives in a chunk of its own. *)
Theorem ollamaStream_depends_on_chunking (parse : string → option (string * bool))
    (l l' a b : string) (st : Z) (body : string) :
  Js.trim l = l → Js.truthy l = true → Js.includes_char Js.LF l = false →
  Js.startsWith l "data:" = false → parse l = Some (a, true) →
  Js.trim l' = l' → Js.truthy l' = true → Js.includes_char Js.LF l' = false →
  Js.startsWith l' "data:" = false → parse l' = Some (b, false) →
  Part001Stream.ollamaStream parse true
    (Response true st body [l +:+ LF1 +:+ l' +:+ LF1])
  = Some (Run (if Js.truthy a then [a] else []) Finished)
  ∧ Part001Stream.ollamaStream parse true
      (Response true st body [l +:+ LF1; l' +:+ LF1])
    = Some (Run ((if Js.truthy a then [a] else []) ++ (if Js.truthy b then [b] else []))
              Finished).
Proof.
  intros Ht Hl Hlf Hd Hp Ht' Hl' Hlf' Hd' Hp'.
  unfold Part001Stream.ollamaStream. cbn [negb ok chunks Part001Stream.pump].
  change (EmptyString +:+ ?s) with s. split.
  - rewrite (StreamFacts.drain_line parse l _ _ a true) by done. cbn zeta iota.
    by rewrite app_nil_r.
  - change (l +:+ LF1) with (l +:+ LF1 +:+ EmptyString) at 2.
    rewrite (StreamFacts.drain_line parse l _ _ a true) by done. cbn zeta iota.
    change (EmptyString +:+ ?s) with s.
    change (l' +:+ LF1) with (l' +:+ LF1 +:+ EmptyString) at 2.
    rewrite (StreamFacts.drain_line parse l' _ _ b false) by done. cbn zeta iota.
    rewrite JsFacts.length_append. unfold LF1 at 1. cbn [String.length].
    rewrite Nat.add_1_r. cbn [Part001Stream.drain]. unfold Js.indexOf. cbn [Js.indexOf_at].
    change (String.prefix LF1 EmptyString) with false. cbn [Z.ltb Z.compare].
    by rewrite !app_nil_r.
Qed.

Lemma ollamaStream_depends_on_chunking_witness :
  Part001Stream.ollamaStream (λ s, Some (s, String.eqb s "end")) true
    (Response true 200 "" ["end" +:+ LF1 +:+ "more" +:+ LF1])
  = Some (Run ["end"] Finished)
  ∧ Part001Stream.ollamaStream (λ s, Some (s, String.eqb s "end")) true
      (Response true 200 "" ["end" +:+ LF1; "more" +:+ LF1])
    = Some (Run ["end"; "more"] Finished).
Proof.
  apply (ollamaStream_depends_on_chunking (λ s, Some (s, String.eqb s "end"))
           "end" "more" "end" "more" 200 ""); reflexivity.
Defined.

(** ** The replies of the command [luna] *)

Module AnsiFacts.

Section Sanitize.

Variable ZWSP : string.

(** The replacement, one code unit at a time *)
Lemma sanitize_cons (a : ascii) (s : string) :
  Ansi.sanitizeForCodeblock ZWSP (String a s) =
  if String.prefix "```" (String a s)
  then "``" +:+ ZWSP +:+ "`" +:+ Ansi.sanitizeForCodeblock ZWSP (Js.drop 2 s)
  else String a (Ansi.sanitizeForCodeblock ZWSP s).
Proof.
  change "```" with (String "`" (String "`" (String "`" EmptyString))).
  destruct s as [|b [|c rest]].
  - by rewrite JsFacts.prefix_cons, andb_false_r.
  - by rewrite !JsFacts.prefix_cons, !andb_false_r.
  - rewrite !JsFacts.prefix_cons, JsFacts.prefix_nil, andb_true_r, andb_assoc.
    rewrite !(Ascii.eqb_sym "`"). done.
Qed.

Lemma sanitize_fence_free (s : string) (i : Z) :
  0 ≤ i → Js.indexOf_at "```" s i = -1 → Ansi.sanitizeForCodeblock ZWSP s = s.
Proof.
  revert i. induction s as [|a s IH]; intros i Hi; [done|].
  rewrite JsFacts.indexOf_at_cons, sanitize_cons.
  destruct (String.prefix "```" (String a s)); [lia|].
  intros H. by rewrite (IH (i + 1)) by (lia || done).
Qed.

(** After two backticks the output starts with two backticks. *)
Lemma sanitize_two_ticks (s : string) :
  ∃ t, Ansi.sanitizeForCodeblock ZWSP ("``" +:+ s) = "``" +:+ t.
Proof.
  change ("``" +:+ s) with (String "`" (String "`" s)). rewrite sanitize_cons.
  destruct (String.prefix "```" _) eqn:E; [by eexists|].
  rewrite sanitize_cons.
  destruct (String.prefix "```" (String "`" s)) eqn:E'; [|by eexists].
  exfalso. change "```" with (String "`" (String "`" (String "`" EmptyString))) in *.
  rewrite JsFacts.prefix_cons, Ascii.eqb_refl in E'. cbn [andb] in E'.
  rewrite !JsFacts.prefix_cons, !Ascii.eqb_refl in E. cbn [andb] in E.
  destruct s as [|c s]; [done|]. rewrite JsFacts.prefix_cons in E, E'.
  apply andb_true_iff in E' as [E' _]. by rewrite E', JsFacts.prefix_nil in E.
Qed.

(** The code of the colour [blue] without [bold] is 34. *)
Lemma style_blue (s : string) :
  Ansi.styleAnsi ZWSP s "blue" false
  = "```ansi" +:+ LF1
    +:+ (Ansi.ESC +:+ "34m" +:+ Ansi.sanitizeForCodeblock ZWSP s +:+ Ansi.ESC +:+ "0m")
    +:+ LF1 +:+ "```".
Proof. reflexivity. Qed.

End Sanitize.

Lemma indexOf_found (p a b : string) (i : Z) :
  0 ≤ i → 0 ≤ Js.indexOf_at p (a +:+ p +:+ b) i.
Proof.
  revert i. induction a as [|c a IH]; intros i Hi.
  - change (EmptyString +:+ p +:+ b) with (p +:+ b).
    assert (String.prefix p (p +:+ b) = true) as Hp by apply (KvFacts.startsWith_app p b).
    destruct (p +:+ b) as [|x t] eqn:E.
    + cbn [Js.indexOf_at]. by rewrite Hp.
    + rewrite JsFacts.indexOf_at_cons. by rewrite Hp.
  - change (String c a +:+ p +:+ b) with (String c (a +:+ p +:+ b)).
    rewrite JsFacts.indexOf_at_cons. destruct (String.prefix _ _); [done|].
    apply IH. lia.
Qed.

End AnsiFacts.

(** X29. The replacement of [sanitizeForCodeblock] leaves a text without
    three backticks in a row as it is; but it does not keep the fence of
    a code block out of its result: on every text that starts with five
    backticks the result still holds three backticks in a row, the last
    one of the first replacement and the two that follow. *)
Theorem sanitize_leaves_fence (ZWSP : string) (s : string) :
  (Js.indexOf s "```" = -1 → Ansi.sanitizeForCodeblock ZWSP s = s)
  ∧ 0 ≤ Js.indexOf (Ansi.sanitizeForCodeblock ZWSP ("`````" +:+ s)) "```".
Proof.
  split; [by apply AnsiFacts.sanitize_fence_free|].
  change ("`````" +:+ s) with (String "`" (String "`" (String "`" ("``" +:+ s)))).
  rewrite AnsiFacts.sanitize_cons.
  change (String.prefix "```" (String "`" (String "`" (String "`" ("``" +:+ s)))))
    with true.
  cbv iota. change (Js.drop 2 (String "`" (String "`" ("``" +:+ s)))) with ("``" +:+ s).
  destruct (AnsiFacts.sanitize_two_ticks ZWSP s) as (t & ->).
  replace ("``" +:+ ZWSP +:+ "`" +:+ "``" +:+ t) with (("``" +:+ ZWSP) +:+ "```" +:+ t).
  - by apply AnsiFacts.indexOf_found.
  - by rewrite !JsFacts.append_assoc.
Qed.

(** X30. The messages that the command [luna] posts in reply to the
    prompt for an answer of the chat call: one message for each 1900
    characters of the answer or part of them, and one message with the
    placeholder for the empty answer; each holds its segment, after the
    replacement, in the colour 34 inside a code block. *)
Theorem luna_replies_count (ZWSP content : string) :
  ∃ cs, Ollama.chunkDiscordMessage content 1900 = Some cs
        ∧ length (Ansi.replies ZWSP cs)
          = Nat.max 1 (Z.to_nat ((Js.len content + 1899) / 1900))
        ∧ Ansi.replies ZWSP cs
          = (λ c, "```ansi" +:+ LF1
                  +:+ (Ansi.ESC +:+ "34m" +:+ Ansi.sanitizeForCodeblock ZWSP c
                       +:+ Ansi.ESC +:+ "0m")
                  +:+ LF1 +:+ "```")
            <$> (if Js.truthy content then cs else ["(empty response)"]).
Proof.
  pose proof (ChunkMore.ollama_slices (String.length content) 1900 content) as Hs.
  rewrite Hs by lia.
  destruct (ChunkFacts.loop_spec 1900 (S (String.length content)) content)
    as (cs & Hcs & Hj & Hall); [lia | lia |].
  fold (Ollama.chunkDiscordMessage content 1900) in Hcs. rewrite Hs in Hcs by lia.
  injection Hcs as Hcs. replace (Js.len content + 1900 - 1) with (Js.len content + 1899) in *
    by lia.
  eexists. split; [done|]. rewrite Hcs.
  assert (length cs = Z.to_nat ((Js.len content + 1899) / 1900)) as Hlen
    by (by rewrite <- Hcs, length_fmap, length_seq).
  unfold Ansi.replies. cbn [length]. rewrite length_fmap. split.
  { rewrite <- Hlen. destruct cs; simpl; lia. }
  destruct content as [|x content]; cbn [Js.truthy].
  - destruct cs as [|c cs]; [by rewrite AnsiFacts.style_blue|].
    apply Forall_cons in Hall as [Hc _].
    rewrite ChunkFacts.join_empty_cons in Hj. destruct c; [|done].
    change (Js.len EmptyString) with 0 in Hc. lia.
  - destruct cs as [|c cs]; [done|]. apply Forall_cons in Hall as [Hc _].
    destruct c as [|y c]; [change (Js.len EmptyString) with 0 in Hc; lia|].
    cbn [first_reply_text Js.truthy tail]. rewrite fmap_cons, AnsiFacts.style_blue.
    f_equal; apply list_fmap_ext; intros _ c' _; apply AnsiFacts.style_blue.
Qed.
